(** * m4db-analysis: the unique-id/path codec and the retrieval and export commands

    A shallow embedding of [lib/m4db_analysis/utilities.py] and
    [lib/m4db_analysis/entry_point.py], with the parts of the libraries
    they call ([re], [os.path], [os.makedirs], [shutil.copy], the progress
    display of [rich], the parent check and the choice of the writer in
    [DataFrame.to_csv] of [pandas]) and the catalog their query reads, with
    the [LIKE] of PostgreSQL.

    Python strings are modelled by [string] (a sequence of [ascii] characters);
    the functions below only ever compare characters with the separator, the
    hyphen and the hexadecimal digits. Exceptions are values of [exn] carried
    by [result]; commands that act on files pass a [world] along. The loop of
    [split_all] and the recursion of [makedirs] run on fuel, and the proofs
    show that the fuel they are given is never used up. *)

From Stdlib Require Import String Ascii List Arith Lia Bool DecimalString.
From stdpp Require Import base option gmap strings list fin_maps.

Local Open Scope string_scope.
Local Open Scope list_scope.

(** ** Exceptions and results *)

Inductive exn : Type :=
| ValueError (msg : string)
| TypeError (msg : string)
| IndexError (msg : string)
| FileNotFoundError (filename : string)
| IsADirectoryError (filename : string)
| NotADirectoryError (filename : string)
| FileExistsError (filename : string)
| SameFileError (src dst : string)
| KeyError (key : string)
| RecursionError (msg : string)
| OSError (msg : string)
| InvalidEscapeSequence (msg : string).

Inductive result (A : Type) : Type :=
| Ok (a : A)
| Error (e : exn).

Arguments Ok {A} a.
Arguments Error {A} e.

Definition bind {A B : Type} (r : result A) (k : A -> result B) : result B :=
  match r with
  | Ok a => k a
  | Error e => Error e
  end.

Notation "'let*' x ':=' r 'in' k" := (bind r (fun x => k))
  (at level 10, x name, r at level 100, k at level 200).

(** ** Python built-ins used by the sources *)

Module Py.

(** [str(n)] for a natural number. *)
Definition str_of_nat (n : nat) : string :=
  NilEmpty.string_of_uint (Nat.to_uint n).

(** [s.startswith(c)] and [s.endswith(c)] for a one-character [c]. *)
Definition startswith (c : ascii) (s : string) : bool :=
  match s with
  | EmptyString => false
  | String a _ => Ascii.eqb a c
  end.

Fixpoint endswith (c : ascii) (s : string) : bool :=
  match s with
  | EmptyString => false
  | String a EmptyString => Ascii.eqb a c
  | String _ rest => endswith c rest
  end.

(** [s.rfind(c) + 1]: one past the last occurrence of [c], [0] when there is none. *)
Fixpoint rfind_succ (c : ascii) (s : string) : nat :=
  match s with
  | EmptyString => 0
  | String a rest =>
      match rfind_succ c rest with
      | 0 => if Ascii.eqb a c then 1 else 0
      | S i => S (S i)
      end
  end.

(** The slices [s[:i]] and [s[i:]]. *)
Fixpoint slice_to (i : nat) (s : string) {struct s} : string :=
  match s, i with
  | String a rest, S i' => String a (slice_to i' rest)
  | _, _ => EmptyString
  end.

Fixpoint slice_from (i : nat) (s : string) {struct s} : string :=
  match s, i with
  | String _ rest, S i' => slice_from i' rest
  | _, _ => s
  end.

(** [s[i:j]]. *)
Definition slice (i j : nat) (s : string) : string :=
  slice_to (j - i) (slice_from i s).

(** [c * n]. *)
Fixpoint repeat_char (c : ascii) (n : nat) : string :=
  match n with
  | 0 => EmptyString
  | S n' => String c (repeat_char c n')
  end.

(** [s.rstrip(c)]. *)
Fixpoint rstrip (c : ascii) (s : string) : string :=
  match s with
  | EmptyString => EmptyString
  | String a rest =>
      match rstrip c rest with
      | EmptyString => if Ascii.eqb a c then EmptyString else String a EmptyString
      | rest' => String a rest'
      end
  end.

(** [s.replace(c, "")]: every occurrence of the character [c] removed. *)
Fixpoint remove_char (c : ascii) (s : string) : string :=
  match s with
  | EmptyString => EmptyString
  | String a rest =>
      if Ascii.eqb a c then remove_char c rest else String a (remove_char c rest)
  end.

(** [s.split(c)]: the pieces of [s] between the occurrences of [c]; [part]
    is the piece read so far. *)
Fixpoint split_from (c : ascii) (part rest : string) : list string :=
  match rest with
  | EmptyString => [part]
  | String a rest' =>
      if Ascii.eqb a c then part :: split_from c EmptyString rest'
      else split_from c (part +:+ String a EmptyString) rest'
  end.

Definition split_char (c : ascii) (s : string) : list string :=
  split_from c EmptyString s.

(** [s.endswith(suffix)] for a text [suffix]. *)
Definition ends_with (suffix s : string) : bool :=
  Nat.leb (String.length suffix) (String.length s)
  && String.eqb (slice_from (String.length s - String.length suffix) s) suffix.

(** [range(0, n, 2)]. *)
Definition range_step2 (n : nat) : list nat :=
  map (fun k => 2 * k) (seq 0 (Nat.div2 (S n))).

(** The characters of a string, each as a string of length one: what iterating
    over a [str] yields. *)
Fixpoint chars (s : string) : list string :=
  match s with
  | EmptyString => []
  | String a rest => String a EmptyString :: chars rest
  end.

(** An argument of [list(...)]: the sources pass strings and lists of strings. *)
Inductive obj : Type :=
| Str (s : string)
| List (l : list string).

Definition iterate (o : obj) : list string :=
  match o with
  | Str s => chars s
  | List l => l
  end.

(** [list] applied to unpacked arguments: no argument gives the empty list,
    one argument is iterated, more are a [TypeError]. *)
Definition list_star (args : list obj) : result (list string) :=
  match args with
  | [] => Ok []
  | [o] => Ok (iterate o)
  | _ =>
      Error (TypeError ("list expected at most 1 argument, got "
                        +:+ str_of_nat (length args)))
  end.

(** A [str.format] template whose replacement fields are all the automatic
    [{}]: literal text and holes, filled from the positional arguments in
    order. Arguments left over are ignored, a missing one is an [IndexError]. *)
Inductive fmt_item : Type :=
| Hole
| Lit (s : string).

Fixpoint format (template : list fmt_item) (args : list string) : result string :=
  match template with
  | [] => Ok EmptyString
  | Lit s :: template' =>
      let* rest := format template' args in Ok (s +:+ rest)
  | Hole :: template' =>
      match args with
      | [] =>
          Error (IndexError "Replacement index out of range for positional args tuple")
      | a :: args' =>
          let* rest := format template' args' in Ok (a +:+ rest)
      end
  end.

End Py.

(** ** The regular expressions of [utilities.py]

    Both patterns are sequences of one-character atoms with a fixed repeat
    count, so matching needs no backtracking. [re_match] is
    [pattern.match(s)] read as a truth value: the pattern has to match at the
    start of [s], and what follows the match is not looked at. *)

Module Re.

Inductive atom : Type :=
| Hex                 (* [0-9A-Fa-f] *)
| Char (c : ascii).   (* a literal character *)

Definition regex : Type := list (atom * nat).

Definition is_hex (c : ascii) : bool :=
  let n := nat_of_ascii c in
  (((48 <=? n) && (n <=? 57)) || ((65 <=? n) && (n <=? 70))
  || ((97 <=? n) && (n <=? 102)))%nat.

Definition atom_matches (a : atom) (c : ascii) : bool :=
  match a with
  | Hex => is_hex c
  | Char c' => Ascii.eqb c c'
  end.

(** [a{n}] at the start of [s]: the rest of [s] after the match. *)
Fixpoint match_repeat (a : atom) (n : nat) (s : string) : option string :=
  match n with
  | 0 => Some s
  | S n' =>
      match s with
      | EmptyString => None
      | String c rest => if atom_matches a c then match_repeat a n' rest else None
      end
  end.

Fixpoint match_prefix (r : regex) (s : string) : option string :=
  match r with
  | [] => Some s
  | (a, n) :: r' =>
      match match_repeat a n s with
      | Some rest => match_prefix r' rest
      | None => None
      end
  end.

Definition re_match (r : regex) (s : string) : bool :=
  match match_prefix r s with
  | Some _ => true
  | None => false
  end.

(** [pattern.fullmatch(s)]: the match has to use up all of [s]. The sources
    never call it; it states what a canonical unique id is. *)
Definition re_fullmatch (r : regex) (s : string) : bool :=
  match match_prefix r s with
  | Some EmptyString => true
  | _ => false
  end.

End Re.

(** ** [posixpath], the [os.path] of the platform the sources target *)

Module posixpath.

Definition sep : ascii := "/"%char.

(** [os.path.split(p)]. *)
Definition split (p : string) : string * string :=
  let i := Py.rfind_succ sep p in
  let head := Py.slice_to i p in
  let tail := Py.slice_from i p in
  let head :=
    if negb (String.eqb head EmptyString)
       && negb (String.eqb head (Py.repeat_char sep (String.length head)))
    then Py.rstrip sep head
    else head in
  (head, tail).

(** One round of the loop of [os.path.join]: [path] is the path built so far,
    [b] the next component. *)
Definition join_step (path b : string) : string :=
  if Py.startswith sep b then b
  else if String.eqb path EmptyString || Py.endswith sep path then path +:+ b
  else path +:+ String sep EmptyString +:+ b.

Definition join (a : string) (p : list string) : string :=
  fold_left join_step p a.

(** [os.path.join] applied to an unpacked list: the first positional argument
    is required. *)
Definition join_star (parts : list string) : result string :=
  match parts with
  | [] => Error (TypeError "join() missing 1 required positional argument: 'a'")
  | a :: p => Ok (join a p)
  end.

End posixpath.

(** ** [utilities.py] *)

Module utilities.

Import Re.

Definition HEX_REGEX : regex := [(Hex, 1)].

Definition UID_REGEX : regex :=
  [(Hex, 8); (Char "-", 1); (Hex, 4); (Char "-", 1); (Hex, 4); (Char "-", 1);
   (Hex, 4); (Char "-", 1); (Hex, 12)].

(** The loop of [split_all]: [fuel] bounds the number of rounds, [None] means
    the fuel ran out before a sentinel was reached. *)
Fixpoint split_all_loop (fuel : nat) (path : string) (all_parts : list string)
  : option (list string) :=
  match fuel with
  | 0 => None
  | S fuel' =>
      let parts := posixpath.split path in
      if String.eqb (fst parts) path then Some (fst parts :: all_parts)
      else if String.eqb (snd parts) path then Some (snd parts :: all_parts)
      else split_all_loop fuel' (fst parts) (snd parts :: all_parts)
  end.

Definition split_all (path : string) : option (list string) :=
  split_all_loop (S (String.length path)) path [].

(** The pairs [uid_to_dir] joins: the hyphens removed, then the slices
    [path_str[i:i + 2]] for [i] in [range(0, len(path_str), 2)]. *)
Definition path_spt (unique_id : string) : list string :=
  let path_str := Py.remove_char "-" unique_id in
  map (fun i => Py.slice i (i + 2) path_str)
      (Py.range_step2 (String.length path_str)).

Definition uid_to_dir (unique_id : string) : result string :=
  if negb (re_match UID_REGEX unique_id)
  then Error (ValueError ("'" +:+ unique_id +:+ "' is not a valid unique id"))
  else posixpath.join_star (path_spt unique_id).

Definition UID_TEMPLATE : list Py.fmt_item :=
  [Py.Hole; Py.Hole; Py.Hole; Py.Hole; Py.Lit "-"; Py.Hole; Py.Hole; Py.Lit "-";
   Py.Hole; Py.Hole; Py.Lit "-"; Py.Hole; Py.Hole; Py.Lit "-";
   Py.Hole; Py.Hole; Py.Hole; Py.Hole; Py.Hole; Py.Hole].

(** The [for] loop over the pairs: the first pair the pattern does not match
    raises. *)
Fixpoint check_pairs (lst_pairs : list string) : result unit :=
  match lst_pairs with
  | [] => Ok tt
  | pair_ :: rest =>
      if negb (re_match HEX_REGEX pair_)
      then Error (ValueError ("The pair '" +:+ pair_ +:+ "' is not a valid hexadecimal"))
      else check_pairs rest
  end.

(** [hex_pairs_to_uid]: [pairs] is the tuple of its positional arguments. *)
Definition hex_pairs_to_uid (pairs : list Py.obj) : result string :=
  let* lst_pairs := Py.list_star pairs in
  if negb (Nat.eqb (length lst_pairs) 16)
  then Error (ValueError
                ("Paris must have 16 hex pairs to form a valid unique id (length is "
                 +:+ Py.str_of_nat (length lst_pairs) +:+ ")"))
  else
    let* _ := check_pairs lst_pairs in
    Py.format UID_TEMPLATE lst_pairs.

(** [dir_to_uid(path_dir)]: the components of the path are passed on as
    separate positional arguments (the call unpacks [path_spt]). *)
Definition dir_to_uid (path_dir : string) : option (result string) :=
  match split_all path_dir with
  | None => None
  | Some path_spt => Some (hex_pairs_to_uid (map Py.Str path_spt))
  end.

End utilities.

(** ** The shapes the interface speaks of *)

Module shape.

Import Re.

(** A canonical unique id: the whole string is 8-4-4-4-12 hyphenated
    hexadecimal digits. *)
Definition canonical_uid (u : string) : bool :=
  re_fullmatch utilities.UID_REGEX u.

(** A shard segment: exactly two hexadecimal digits. *)
Definition hex_pair (segment : string) : bool :=
  re_fullmatch [(Hex, 2)] segment.

(** A shard path: exactly 16 shard segments. *)
Definition shard_path (segments : list string) : bool :=
  Nat.eqb (length segments) 16 && forallb hex_pair segments.

Fixpoint no_sep (s : string) : bool :=
  match s with
  | EmptyString => true
  | String a rest => negb (Ascii.eqb a posixpath.sep) && no_sep rest
  end.

(** The name of one directory entry: not empty, no separator in it. *)
Definition is_name (s : string) : bool :=
  negb (String.eqb s EmptyString) && no_sep s.

(** The relative and the absolute path that name the directories
    [segments], one inside the other. *)
Definition relative_path (segments : list string) : string :=
  match segments with
  | [] => EmptyString
  | a :: p => posixpath.join a p
  end.

Definition absolute_path (segments : list string) : string :=
  String posixpath.sep (relative_path segments).

(** A path that is not empty and does not end in a separator. *)
Definition open_ended (path : string) : Prop :=
  path <> EmptyString /\ Py.endswith posixpath.sep path = false.

(** A name that is neither [.] nor [..]. *)
Definition plain_name (n : string) : bool :=
  is_name n && negb (String.eqb n ".") && negb (String.eqb n "..").

(** The path spelled from the names [names], one inside the other: with a
    separator in front when it is absolute, and with one at its end when
    [trailing] is set. *)
Definition spelled (absolute : bool) (names : list string) (trailing : bool)
  : string :=
  (if absolute then "/" else EmptyString)
  +:+ String.concat "/" names
  +:+ (if trailing then "/" else EmptyString).

(** A path that is spelled from one or more plain names: no [.] and [..],
    no repeated separator, at most one separator at its end. On such paths
    the spelling of a path and the place it names go together. *)
Definition plain_path (p : string) : bool :=
  let names :=
    List.filter (fun n => negb (String.eqb n EmptyString))
                (Py.split_char posixpath.sep p) in
  match names with
  | [] => false
  | _ :: _ =>
      forallb plain_name names
      && String.eqb p (spelled (Py.startswith posixpath.sep p) names
                               (Py.endswith posixpath.sep p))
  end.

(** The directories on the way from [d] down to [join d names]. *)
Fixpoint prefixes (d : string) (names : list string) : list string :=
  match names with
  | [] => []
  | n :: names' =>
      posixpath.join_step d n :: prefixes (posixpath.join_step d n) names'
  end.

(** The number of times [c] occurs in [s]. *)
Fixpoint count_char (c : ascii) (s : string) : nat :=
  match s with
  | EmptyString => 0
  | String a rest => (if Ascii.eqb a c then 1 else 0) + count_char c rest
  end.

End shape.

(** ** The rest of [utilities.py]

    [string_to_bool], [password_hash] and [random_password], with the
    built-ins they call. A character is a code point below 256; on these
    [str.lower] works character by character. *)

Module utilities_rest.

(** [c.lower()] for one character: the capital letters are [A]-[Z] and the
    Latin-1 capitals at 192-214 and 216-222, each 32 below its small
    letter. *)
Definition lower_char (c : ascii) : ascii :=
  let n := nat_of_ascii c in
  if (Nat.leb 65 n && Nat.leb n 90) || (Nat.leb 192 n && Nat.leb n 214)
     || (Nat.leb 216 n && Nat.leb n 222)
  then ascii_of_nat (n + 32)
  else c.

(** [s.lower()]. *)
Fixpoint lower (s : string) : string :=
  match s with
  | EmptyString => EmptyString
  | String c rest => String (lower_char c) (lower rest)
  end.

(** [x in l] for a list of strings. *)
Definition str_in (x : string) (l : list string) : bool :=
  existsb (String.eqb x) l.

Definition string_to_bool (str : string) : result bool :=
  if str_in (lower str) ["true"; "t"] then Ok true
  else if str_in (lower str) ["false"; "f"] then Ok false
  else Error (ValueError ("Can't interpret '" +:+ str +:+ "' as boolean")).

(** What a call that encodes text may end in: a value, one of the
    exceptions of [exn], or [UnicodeEncodeError]. *)
Inductive outcome (A : Type) : Type :=
| Returns (a : A)
| Raises (e : exn)
| RaisesUnicodeEncodeError (text : string).

Arguments Returns {A} a.
Arguments Raises {A} e.
Arguments RaisesUnicodeEncodeError {A} text.

(** [s.encode('ascii')] succeeds when every character is below 128. *)
Definition is_ascii (s : string) : bool :=
  forallb (fun c => Nat.ltb (nat_of_ascii c) 128) (list_ascii_of_string s).

Section password_hash.

(** [md5(data).hexdigest()] of [hashlib], and what
    [read_config_from_environ()] of the package [m4db_database] returns or
    raises in the environment of the call: both are outside these sources
    (the import of the package is taken to succeed). A configuration is a
    dictionary of texts. *)
Variable md5_hexdigest : string -> string.
Variable read_config_from_environ : result (gmap string string).

(** [SALTED_PASSWORD_FORMAT.format(password=..., salt=...)]. *)
Definition salted (password salt : string) : string :=
  password +:+ ":" +:+ salt.

(** Of the exceptions of [exn], [except ValueError] catches [ValueError]
    alone. *)
Definition password_hash (password : string) : outcome string :=
  let config :=
    match read_config_from_environ with
    | Ok config => Ok config
    | Error (ValueError _) => Ok {[ "authentication_salt" := EmptyString ]}
    | Error e => Error e
    end in
  match config with
  | Error e => Raises e
  | Ok config =>
      match config !! "authentication_salt" with
      | None => Raises (KeyError "authentication_salt")
      | Some salt =>
          let salted_password := salted password salt in
          if is_ascii salted_password
          then Returns (md5_hexdigest salted_password)
          else RaisesUnicodeEncodeError salted_password
      end
  end.

End password_hash.

(** [l[0:stop]] for a Python integer [stop]: a negative [stop] counts from
    the end, and the bounds are clipped to the list. *)
Definition slice_upto {A : Type} (stop : Z) (l : list A) : list A :=
  let n := Z.of_nat (length l) in
  let stop := if Z.ltb stop 0 then Z.max 0 (n + stop) else Z.min stop n in
  firstn (Z.to_nat stop) l.

Definition chars : string :=
  "0123456789ABCDEFGHIJKLMNOPQRSTUVWXYZabcdefghijklmnopqrstuvwxyz".

Definition specials : string := "!@#$%^&*()_+=-{}[]".

Section random_password.

(** The order [random.shuffle] leaves a list in: some rearrangement of it,
    which one depends on the state of the generator. *)
Variable shuffle : list ascii -> list ascii.

Definition random_password (length : Z) (with_specials : bool) : string :=
  let choose_chars :=
    if with_specials then list_ascii_of_string (chars +:+ specials)
    else list_ascii_of_string chars in
  let choose_chars := shuffle choose_chars in
  string_of_list_ascii (slice_upto length choose_chars).

End random_password.

(** The spellings of a word of small letters in capital and small letters. *)
Definition capital (c : ascii) : ascii := ascii_of_nat (nat_of_ascii c - 32).

Fixpoint case_variants (word : string) : list string :=
  match word with
  | EmptyString => [EmptyString]
  | String c word' =>
      flat_map (fun v => [String c v; String (capital c) v]) (case_variants word')
  end.

(** The small letters [a]-[z], all 256 characters, and the check over all
    of them that [lower_char] takes to a small letter that letter and its
    capital and nothing else. *)
Definition is_small (c : ascii) : bool :=
  Nat.leb 97 (nat_of_ascii c) && Nat.leb (nat_of_ascii c) 122.

Definition all_ascii : list ascii := map ascii_of_nat (seq 0 256).

Definition lower_char_checked : bool :=
  forallb
    (fun x =>
       if is_small x
       then forallb
              (fun c =>
                 Bool.eqb (Ascii.eqb (lower_char c) x)
                          (Ascii.eqb c x || Ascii.eqb c (capital x)))
              all_ascii
       else true)
    all_ascii.

End utilities_rest.

(** ** The operating system: files, directories and standard output

    A path names a file-system object by its spelling: the model has no
    symbolic links and does not identify different spellings of one location
    (repeated separators, [.] and [..]). The paths the commands build are
    joined from a root and plain names, where spelling and location agree;
    the theorems about the commands are stated for such paths. The current
    directory (the empty parent of a relative name) and the root always
    exist. Permissions are not modelled. Errors are the ones Linux
    answers. *)

Module os.

Inductive node : Type :=
| File (content : string)
| Dir.

(** What reaches standard output: a line that [print] wrote, or the
    progress display of [rich] for a task of [total] steps. The display is
    drawn again and again in place while its loop runs and is left on the
    screen when the loop is over; how often it is drawn and what its text
    looks like depend on the terminal and on the clock, and are not
    modelled. *)
Inductive output : Type :=
| Printed (line : string)
| Displayed (total : nat).

Record world : Type := World {
  fs : gmap string node;
  stdout : list output
}.

(** A command: it ends normally or raises, and leaves a world either way. *)
Definition io (A : Type) : Type := world -> result A * world.

Definition ret {A : Type} (a : A) : io A := fun w => (Ok a, w).

Definition iobind {A B : Type} (m : io A) (k : A -> io B) : io B :=
  fun w =>
    match m w with
    | (Ok a, w') => k a w'
    | (Error e, w') => (Error e, w')
    end.

Definition lift {A : Type} (r : result A) : io A := fun w => (r, w).

(** [for x in l: body(x)]. *)
Fixpoint for_each {A : Type} (body : A -> io unit) (l : list A) : io unit :=
  match l with
  | [] => ret tt
  | x :: l' => iobind (body x) (fun _ => for_each body l')
  end.

Definition print (line : string) : io unit :=
  fun w => (Ok tt, World (fs w) (stdout w ++ [Printed line])).

Definition is_root (p : string) : bool :=
  negb (String.eqb p EmptyString)
  && String.eqb p (Py.repeat_char posixpath.sep (String.length p)).

(** What a path names, if anything. *)
Definition stat (p : string) (w : world) : option node :=
  if is_root p then Some Dir
  else if String.eqb p EmptyString then None
  else fs w !! p.

Definition isdir (p : string) (w : world) : bool :=
  match stat p w with
  | Some Dir => true
  | _ => false
  end.

Definition isfile (p : string) (w : world) : bool :=
  match stat p w with
  | Some (File _) => true
  | _ => false
  end.

Definition path_exists (p : string) (w : world) : bool :=
  match stat p w with
  | Some _ => true
  | None => false
  end.

(** The directories a path leads through: every part of the path from its
    start up to a place where a separator follows, the shortest first; [seen]
    is the part read so far. The root, which is always there, is not
    listed. *)
Fixpoint ancestors_from (seen rest : string) : list string :=
  match rest with
  | EmptyString => []
  | String c rest' =>
      (if Ascii.eqb c posixpath.sep && negb (String.eqb seen EmptyString)
          && negb (Py.endswith posixpath.sep seen)
       then [seen] else [])
      ++ ancestors_from (seen +:+ String c EmptyString) rest'
  end.

Definition ancestors (name : string) : list string :=
  ancestors_from EmptyString name.

(** The error of a path that cannot be followed to its end. The system
    stops at the first directory on the way that is none: where a file is
    in its place the error is [ENOTDIR], where nothing is there it is
    [ENOENT]. A path on which every directory is there names nothing
    ([ENOENT]), or, when it ends in a separator, a directory. *)
Definition lookup_error (name : string) (w : world) : exn :=
  match List.find (fun p => negb (isdir p w)) (ancestors name) with
  | Some p =>
      if isfile p w then NotADirectoryError name else FileNotFoundError name
  | None =>
      if Py.endswith posixpath.sep name then IsADirectoryError name
      else FileNotFoundError name
  end.

(** The directory a name is created in: its head, looked for a second time
    when the name ends in a separator. *)
Definition parent_of (name : string) : string :=
  let parts := posixpath.split name in
  if String.eqb (snd parts) EmptyString then fst (posixpath.split (fst parts))
  else fst parts.

(** The parent directory of a name to be created: [None] when it is there. *)
Definition parent_error (name : string) (w : world) : option exn :=
  if String.eqb name EmptyString then Some (FileNotFoundError name)
  else if String.eqb (parent_of name) EmptyString then None
  else
    match stat (parent_of name) w with
    | Some Dir => None
    | _ => Some (lookup_error name w)
    end.

(** [os.mkdir(name)]. *)
Definition mkdir (name : string) : io unit :=
  fun w =>
    match stat name w with
    | Some _ => (Error (FileExistsError name), w)
    | None =>
        match parent_error name w with
        | Some e => (Error e, w)
        | None => (Ok tt, World (<[name := Dir]> (fs w)) (stdout w))
        end
    end.

(** The last step of [os.makedirs]: [mkdir(name)], whose failure is let
    pass when [exist_ok] is set and [name] is a directory. *)
Definition mkdir_exist_ok (name : string) (exist_ok : bool) : io unit :=
  fun w =>
    match mkdir name w with
    | (Ok tt, w') => (Ok tt, w')
    | (Error e, w') =>
        if negb exist_ok || negb (isdir name w') then (Error e, w')
        else (Ok tt, w')
    end.

(** [os.makedirs(name, exist_ok=exist_ok)], as CPython's [os] module writes
    it; [fuel] bounds the depth of the recursion on the head of the name
    (the rounds [makedirs] allows are never used up, see
    [makedirs_rec_more]). *)
Fixpoint makedirs_rec (fuel : nat) (name : string) (exist_ok : bool) : io unit :=
  fun w =>
    match fuel with
    | 0 => (Error (RecursionError "maximum recursion depth exceeded"), w)
    | S fuel' =>
        let parts := posixpath.split name in
        let parts :=
          if String.eqb (snd parts) EmptyString then posixpath.split (fst parts)
          else parts in
        let head := fst parts in
        let tail := snd parts in
        if negb (String.eqb head EmptyString) && negb (String.eqb tail EmptyString)
           && negb (path_exists head w)
        then
          match makedirs_rec fuel' head exist_ok w with
          | (Error (FileExistsError _), w') | (Ok tt, w') =>
              if String.eqb tail "." then (Ok tt, w')
              else mkdir_exist_ok name exist_ok w'
          | (Error e, w') => (Error e, w')
          end
        else mkdir_exist_ok name exist_ok w
    end.

Definition makedirs (name : string) (exist_ok : bool) : io unit :=
  makedirs_rec (S (String.length name)) name exist_ok.

(** Opening a file for reading and reading all of it. *)
Definition read_file (name : string) : io string :=
  fun w =>
    match stat name w with
    | Some (File content) => (Ok content, w)
    | Some Dir => (Error (IsADirectoryError name), w)
    | None => (Error (lookup_error name w), w)
    end.

(** Opening a file for writing, which creates or truncates it, and writing
    [content]. A name that ends in a separator is refused as a directory
    once the directories before it were found, whatever is at its place. *)
Definition write_file (name content : string) : io unit :=
  fun w =>
    let written := World (<[name := File content]> (fs w)) (stdout w) in
    match stat name w with
    | Some Dir => (Error (IsADirectoryError name), w)
    | Some (File _) =>
        if Py.endswith posixpath.sep name
        then (Error (IsADirectoryError name), w)
        else (Ok tt, written)
    | None =>
        match parent_error name w with
        | Some e => (Error e, w)
        | None =>
            if Py.endswith posixpath.sep name
            then (Error (IsADirectoryError name), w)
            else (Ok tt, written)
        end
    end.

(** Whether [write_file] can open [name]: it does not end in a separator,
    and it is a file already, or it is nothing yet and the directory it
    goes into is there. *)
Definition can_create (name : string) (w : world) : bool :=
  negb (Py.endswith posixpath.sep name)
  && match stat name w with
     | Some Dir => false
     | Some (File _) => true
     | None =>
         match parent_error name w with
         | Some _ => false
         | None => true
         end
     end.

(** The worlds [mkdir] and [makedirs] lead to: nothing that was there is
    touched, and what is new is a directory at one of the paths [ps]. *)
Definition adds_dirs (ps : list string) (w w' : world) : Prop :=
  stdout w' = stdout w
  /\ (forall p x, fs w !! p = Some x -> fs w' !! p = Some x)
  /\ (forall p x, fs w' !! p = Some x ->
                  fs w !! p = Some x \/ (x = Dir /\ In p ps)).

(** A directory that is there, or one that [makedirs] can make: its path
    is spelled from plain names and no file is in the place of a directory
    on the way to it or in its own place. *)
Definition root_ok (d : string) (w : world) : Prop :=
  isdir d w = true
  \/ exists (absolute : bool) (n : string) (dirs : list string),
       shape.plain_name n = true
       /\ forallb shape.plain_name dirs = true
       /\ d = posixpath.join (if absolute then String posixpath.sep n else n) dirs
       /\ forall p, In p (ancestors d ++ [d]) -> isfile p w = false.

End os.

(** ** [rich.progress] *)

Module rich.

Import os.

(** [with progress: for x in progress.track(l): body(x)]. The display is
    started before the loop and stopped when the block is left, by the end
    of the loop or by an exception of its body; the body of the loops in
    these sources writes nothing to standard output itself. *)
Definition track {A : Type} (body : A -> io unit) (l : list A) : io unit :=
  fun w =>
    match for_each body l w with
    | (res, w') => (res, World (fs w') (stdout w' ++ [Displayed (length l)]))
    end.

End rich.

(** ** [pathlib] *)

Module pathlib.

Import os.

(** The root [PurePosixPath] finds at the start of a path: exactly two
    separators are kept, any other number is one. *)
Definition root (path : string) : string :=
  match path with
  | EmptyString => EmptyString
  | String a rest =>
      if negb (Ascii.eqb a posixpath.sep) then EmptyString
      else
        match rest with
        | EmptyString => "/"
        | String b rest' =>
            if Ascii.eqb b posixpath.sep && negb (Py.startswith posixpath.sep rest')
            then "//" else "/"
        end
  end.

(** The names it keeps: the pieces between separators that are neither
    empty nor [.]. *)
Definition parts (path : string) : list string :=
  List.filter (fun x => negb (String.eqb x EmptyString) && negb (String.eqb x "."))
              (Py.split_char posixpath.sep path).

(** [str(Path(path).parent)]. *)
Definition parent (path : string) : string :=
  match root path, removelast (parts path) with
  | EmptyString, [] => "."
  | r, names => r +:+ String.concat "/" names
  end.

(** [Path(p).is_dir()] for a path as [parent] prints it: [.] is the current
    directory, which is there. *)
Definition is_dir (p : string) (w : world) : bool :=
  String.eqb p "." || isdir p w.

End pathlib.

(** ** [shutil.copy] *)

Module shutil.

Import os.

(** [shutil.copyfile(src, dst)]: copying a file onto itself is refused. *)
Definition copyfile (src dst : string) : io unit :=
  fun w =>
    if String.eqb src dst && path_exists src w
    then (Error (SameFileError src dst), w)
    else iobind (read_file src) (fun content => write_file dst content) w.

(** [shutil.copy(src, dst)]: a destination that is a directory receives the
    file under the source's base name. *)
Definition copy (src dst : string) : io unit :=
  fun w =>
    let dst :=
      if isdir dst w then posixpath.join dst [snd (posixpath.split src)]
      else dst in
    copyfile src dst w.

End shutil.

(** ** The catalog

    The tables the query of [get_models_by_user_project] reads, each with the
    columns the query names. A value of a numeric column is only ever turned
    into text by the sources ([str] in a path, the CSV writer in the export),
    so it is represented by that text. *)

Module catalog.

Record number : Type := Num { str : string }.

Record model_t : Type := {
  model_id : nat;
  model_unique_id : string;
  model_mdata_id : nat;
  model_running_status_id : nat;
  model_geometry_id : nat;
  model_mx_tot : number;
  model_my_tot : number;
  model_mz_tot : number;
  model_vx_tot : number;
  model_vy_tot : number;
  model_vz_tot : number;
  model_h_tot : number;
  model_adm_tot : number;
  model_e_typical : number;
  model_e_anis : number;
  model_e_ext : number;
  model_e_demag : number;
  model_e_exch1 : number;
  model_e_exch2 : number;
  model_e_exch3 : number;
  model_e_exch4 : number;
  model_e_tot : number;
  model_volume : number
}.

Record metadata_t : Type := {
  metadata_id : nat;
  metadata_db_user_id : nat;
  metadata_project_id : nat
}.

Record db_user_t : Type := { db_user_id : nat; db_user_user_name : string }.

Record project_t : Type := { project_id : nat; project_name_ : string }.

Record running_status_t : Type := {
  running_status_id : nat;
  running_status_name : string
}.

Record geometry_t : Type := {
  geometry_id : nat;
  geometry_name : string;
  geometry_size : number
}.

Record mma_t : Type := { mma_model_id : nat; mma_material_id : nat }.

Record material_t : Type := {
  material_id : nat;
  material_name : string;
  material_temperature : number
}.

Record database : Type := {
  model : list model_t;
  metadata : list metadata_t;
  db_user_table : list db_user_t;
  project : list project_t;
  running_status : list running_status_t;
  geometry_table : list geometry_t;
  model_material_association : list mma_t;
  material_table : list material_t
}.

(** One row of the inner joins, before the [where] clause. *)
Record joined : Type := Joined {
  j_model : model_t;
  j_metadata : metadata_t;
  j_db_user : db_user_t;
  j_project : project_t;
  j_running_status : running_status_t;
  j_geometry : geometry_t;
  j_mma : mma_t;
  j_material : material_t
}.

(** [t like p] as PostgreSQL decides it (the function [MatchText] of
    [like_match.c], for an encoding of one byte per character and the
    backslash as the escape character): [%] stands for any run of
    characters, [_] for any one character, and a backslash takes the next
    character of the pattern literally. [LIKE_ABORT] is a failed match that
    no later starting place in the text can mend. A pattern that ends in a
    lone backslash is an error, raised when the matching gets to that
    backslash. *)
Inductive like_result : Type :=
| LIKE_TRUE
| LIKE_FALSE
| LIKE_ABORT
| LIKE_ERROR.

(** The end of the text: what is left of the pattern matches the empty text
    when it is [%] signs only. *)
Fixpoint all_percent (p : string) : bool :=
  match p with
  | EmptyString => true
  | String c p' => Ascii.eqb c "%" && all_percent p'
  end.

(** The search for a place in the text from which the rest of the pattern
    matches: [rest_matches] is the match of that rest, which begins with
    the literal character [firstpat]. *)
Fixpoint scan (rest_matches : string -> like_result) (firstpat : ascii)
  (t : string) : like_result :=
  match t with
  | EmptyString => LIKE_ABORT
  | String d t' =>
      if Ascii.eqb d firstpat then
        match rest_matches t with
        | LIKE_FALSE => scan rest_matches firstpat t'
        | matched => matched
        end
      else scan rest_matches firstpat t'
  end.

Fixpoint MatchText (p t : string) {struct p} : like_result :=
  match p with
  | EmptyString =>
      match t with
      | EmptyString => LIKE_TRUE
      | String _ _ => LIKE_FALSE
      end
  | String c p' =>
      match t with
      | EmptyString => if all_percent p then LIKE_TRUE else LIKE_ABORT
      | String d t' =>
          if Ascii.eqb c "\" then
            match p' with
            | EmptyString => LIKE_ERROR
            | String q p'' =>
                if Ascii.eqb q d then MatchText p'' t' else LIKE_FALSE
            end
          else if Ascii.eqb c "%" then
            (fix after_percent (p t : string) {struct p} : like_result :=
               match p with
               | EmptyString => LIKE_TRUE
               | String c p' =>
                   if Ascii.eqb c "%" then after_percent p' t
                   else if Ascii.eqb c "_" then
                     match t with
                     | EmptyString => LIKE_ABORT
                     | String _ t' => after_percent p' t'
                     end
                   else if Ascii.eqb c "\" then
                     match p' with
                     | EmptyString => LIKE_ERROR
                     | String q _ => scan (MatchText p) q t
                     end
                   else scan (MatchText p) c t
               end) p' t
          else if Ascii.eqb c "_" then MatchText p' t'
          else if Ascii.eqb c d then MatchText p' t'
          else LIKE_FALSE
      end
  end.

(** The search of [MatchText] after a percent sign, on its own. *)
Fixpoint after_percent (p t : string) {struct p} : like_result :=
  match p with
  | EmptyString => LIKE_TRUE
  | String c p' =>
      if Ascii.eqb c "%" then after_percent p' t
      else if Ascii.eqb c "_" then
        match t with
        | EmptyString => LIKE_ABORT
        | String _ t' => after_percent p' t'
        end
      else if Ascii.eqb c "\" then
        match p' with
        | EmptyString => LIKE_ERROR
        | String q _ => scan (MatchText p) q t
        end
      else scan (MatchText p) c t
  end.

Definition like (pattern s : string) : result bool :=
  match MatchText pattern s with
  | LIKE_TRUE => Ok true
  | LIKE_FALSE | LIKE_ABORT => Ok false
  | LIKE_ERROR =>
      Error (InvalidEscapeSequence
               "LIKE pattern must not end with escape character")
  end.

(** A pattern in which every backslash has a character after it to take
    literally. *)
Fixpoint escape_safe (pattern : string) : bool :=
  match pattern with
  | EmptyString => true
  | String c pattern' =>
      if Ascii.eqb c "\" then
        match pattern' with
        | EmptyString => false
        | String _ pattern'' => escape_safe pattern''
        end
      else escape_safe pattern'
  end.

(** What [like] is to decide, in the words of SQL: the pattern is gone
    through from left to right; [%] matches any run of characters, also the
    empty one, [_] matches any one character, a backslash followed by a
    character matches that character, and every other character matches
    itself. *)
Definition special (c : ascii) : bool :=
  Ascii.eqb c "%" || Ascii.eqb c "_" || Ascii.eqb c "\".

Inductive sql_like : string -> string -> Prop :=
| sql_like_end : sql_like EmptyString EmptyString
| sql_like_percent (p t1 t2 : string) :
    sql_like p t2 -> sql_like (String "%" p) (t1 +:+ t2)
| sql_like_underscore (p : string) (c : ascii) (t : string) :
    sql_like p t -> sql_like (String "_" p) (String c t)
| sql_like_escape (q : ascii) (p t : string) :
    sql_like p t -> sql_like (String "\" (String q p)) (String q t)
| sql_like_char (c : ascii) (p t : string) :
    special c = false -> sql_like p t -> sql_like (String c p) (String c t).

Definition is_suffix (t' t : string) : Prop := exists a, t = a +:+ t'.

(** What a result of [MatchText] says about the pattern and the text. *)
Definition decides (p t : string) (m : like_result) : Prop :=
  match m with
  | LIKE_TRUE => sql_like p t
  | LIKE_FALSE => ~ sql_like p t
  | LIKE_ABORT => forall t', is_suffix t' t -> ~ sql_like p t'
  | LIKE_ERROR => True
  end.

(** A pattern without [%], [_] and backslash. *)
Fixpoint literal_pattern (pattern : string) : bool :=
  match pattern with
  | EmptyString => true
  | String p pattern' =>
      negb (Ascii.eqb p "%") && negb (Ascii.eqb p "_") && negb (Ascii.eqb p "\")
      && literal_pattern pattern'
  end.

(** The [from] clause: the inner joins, in the order the query lists them. *)
Definition inner_joins (conn : database) : list joined :=
  m ← model conn;
  md ← filter (fun md => model_mdata_id m = metadata_id md) (metadata conn);
  u ← filter (fun u => metadata_db_user_id md = db_user_id u) (db_user_table conn);
  p ← filter (fun p => metadata_project_id md = project_id p) (project conn);
  rs ← filter (fun rs => model_running_status_id m = running_status_id rs)
        (running_status conn);
  g ← filter (fun g => model_geometry_id m = geometry_id g) (geometry_table conn);
  mma ← filter (fun mma => model_id m = mma_model_id mma)
         (model_material_association conn);
  mat ← filter (fun mat => material_id mat = mma_material_id mma)
         (material_table conn);
  [Joined m md u p rs g mma mat].

(** The [where] clause, with the three parameters the query is executed
    with: the conditions in the order the query writes them, a later one
    looked at when the earlier ones hold. *)
Definition where_clause (db_user project_name model_status : string) (j : joined)
  : result bool :=
  let* user_matches := like db_user (db_user_user_name (j_db_user j)) in
  if negb user_matches then Ok false
  else
    let* project_matches := like project_name (project_name_ (j_project j)) in
    if negb project_matches then Ok false
    else like model_status (running_status_name (j_running_status j)).

(** The rows a condition keeps; the first row on which the condition
    raises ends the query. *)
Fixpoint select_where (condition : joined -> result bool) (rows : list joined)
  : result (list joined) :=
  match rows with
  | [] => Ok []
  | j :: rows' =>
      let* keep := condition j in
      let* kept := select_where condition rows' in
      Ok (if keep then j :: kept else kept)
  end.

End catalog.

(** ** [entry_point.py] *)

Module entry_point.

Import os catalog.

(** A row as [get_models_by_user_project] returns it: the dictionary the
    comprehension builds from the 25 selected columns, a field per key. *)
Record row : Type := Row {
  unique_id : string;
  db_user : string;
  project_name : string;
  material : string;
  temperature : number;
  geometry : string;
  size : number;
  mx_tot : number;
  my_tot : number;
  mz_tot : number;
  vx_tot : number;
  vy_tot : number;
  vz_tot : number;
  h_tot : number;
  adm_tot : number;
  e_typical : number;
  e_anis : number;
  e_ext : number;
  e_demag : number;
  e_exch1 : number;
  e_exch2 : number;
  e_exch3 : number;
  e_exch4 : number;
  e_tot : number;
  volume : number
}.

(** The select list, position by position, under the key the comprehension
    gives that position. *)
Definition select (j : joined) : row :=
  let m := j_model j in
  {| unique_id := model_unique_id m;
     db_user := db_user_user_name (j_db_user j);
     project_name := project_name_ (j_project j);
     material := material_name (j_material j);
     temperature := material_temperature (j_material j);
     geometry := geometry_name (j_geometry j);
     size := geometry_size (j_geometry j);
     mx_tot := model_mx_tot m;
     my_tot := model_my_tot m;
     mz_tot := model_mz_tot m;
     vx_tot := model_vx_tot m;
     vy_tot := model_vy_tot m;
     vz_tot := model_vz_tot m;
     h_tot := model_h_tot m;
     adm_tot := model_adm_tot m;
     e_typical := model_e_typical m;
     e_anis := model_e_anis m;
     e_ext := model_e_ext m;
     e_demag := model_e_demag m;
     e_exch1 := model_e_exch1 m;
     e_exch2 := model_e_exch2 m;
     e_exch3 := model_e_exch3 m;
     e_exch4 := model_e_exch4 m;
     e_tot := model_e_tot m;
     volume := model_volume m |}.

(** A parameter of the query with the character of code 0 in it is
    refused by [psycopg2] before the query is sent. *)
Definition has_nul (s : string) : bool :=
  negb (Nat.eqb (shape.count_char (Ascii.ascii_of_nat 0) s) 0).

Definition get_models_by_user_project (db_user project_name : string)
  (conn : database) : result (list row) :=
  if has_nul db_user || has_nul project_name
  then Error (ValueError "A string literal cannot contain NUL (0x00) characters.")
  else
    let* rows :=
      select_where (where_clause db_user project_name "finished")
                   (inner_joins conn) in
    Ok (map select rows).

(** What a command returns. *)
Inductive retval : Type :=
| PyNone
| PyInt (n : nat).

Definition output_dir (destination_dir : string) (r : row) : string :=
  posixpath.join destination_dir
    [db_user r; project_name r; material r; geometry r;
     str (size r); str (temperature r)].

Definition output_zip (destination_dir : string) (r : row) : string :=
  posixpath.join (output_dir destination_dir r) [unique_id r +:+ ".zip"].

Definition source_zip (source_dir : string) (r : row) : result string :=
  let* d := utilities.uid_to_dir (unique_id r) in
  Ok (posixpath.join source_dir [d; "data.zip"]).

(** The body of the loop of [retrieve_models]. *)
Definition retrieve_row (destination_dir source_dir : string) (r : row) : io unit :=
  let output_dir := output_dir destination_dir r in
  let output_zip := output_zip destination_dir r in
  iobind (lift (source_zip source_dir r)) (fun source_zip =>
  iobind (makedirs output_dir true) (fun _ =>
  shutil.copy source_zip output_zip)).

Definition retrieve_models (db_user project_name destination_dir source_dir : string)
  (conn : database) : io retval :=
  iobind (lift (get_models_by_user_project db_user project_name conn)) (fun rows =>
  iobind (print ("I retrieved " +:+ Py.str_of_nat (length rows) +:+ " objects"))
    (fun _ =>
  iobind (rich.track (retrieve_row destination_dir source_dir) rows) (fun _ =>
  ret PyNone))).

(** *** The export: a dictionary of columns, a data frame, a CSV file *)

(** A cell of the table: text, a value of a numeric column, or a row number
    of the index. *)
Inductive cell : Type :=
| CStr (s : string)
| CNum (n : number)
| CInt (i : nat).

(** [df_dict]: the column lists by name, in the order the keys were inserted
    (which is the order of the data frame's columns). *)
Definition columns_dict : Type := list (string * list cell).

(** [df_dict[key].append(v)]. *)
Fixpoint append (key : string) (v : cell) (d : columns_dict) : result columns_dict :=
  match d with
  | [] => Error (KeyError key)
  | (k, column) :: d' =>
      if String.eqb k key then Ok ((k, column ++ [v]) :: d')
      else let* d'' := append key v d' in Ok ((k, column) :: d'')
  end.

Definition empty_df_dict : columns_dict :=
  [("unique_id", []); ("db_user", []); ("project_name", []); ("material", []);
   ("temperature", []); ("geometry", []); ("size", []); ("mx_tot", []);
   ("my_tot", []); ("mz_tot", []); ("vx_tot", []); ("vy_tot", []);
   ("vz_tot", []); ("h_tot", []); ("adm_tot", []); ("e_typical", []);
   ("e_anis", []); ("e_ext", []); ("e_demag", []); ("e_exch1", []);
   ("e_exch2", []); ("e_exch3", []); ("e_exch4", []); ("e_tot", []);
   ("volume", [])].

(** The body of the loop of [model_stats]. *)
Definition append_row (r : row) (df_dict : columns_dict) : result columns_dict :=
  let* d := append "unique_id" (CStr (unique_id r)) df_dict in
  let* d := append "db_user" (CStr (db_user r)) d in
  let* d := append "project_name" (CStr (project_name r)) d in
  let* d := append "material" (CStr (material r)) d in
  let* d := append "temperature" (CNum (temperature r)) d in
  let* d := append "geometry" (CStr (geometry r)) d in
  let* d := append "size" (CNum (size r)) d in
  let* d := append "mx_tot" (CNum (mx_tot r)) d in
  let* d := append "my_tot" (CNum (my_tot r)) d in
  let* d := append "mz_tot" (CNum (mz_tot r)) d in
  let* d := append "vx_tot" (CNum (vx_tot r)) d in
  let* d := append "vy_tot" (CNum (vy_tot r)) d in
  let* d := append "vz_tot" (CNum (vz_tot r)) d in
  let* d := append "h_tot" (CNum (h_tot r)) d in
  let* d := append "adm_tot" (CNum (adm_tot r)) d in
  let* d := append "e_typical" (CNum (e_typical r)) d in
  let* d := append "e_anis" (CNum (e_anis r)) d in
  let* d := append "e_ext" (CNum (e_ext r)) d in
  let* d := append "e_demag" (CNum (e_demag r)) d in
  let* d := append "e_exch1" (CNum (e_exch1 r)) d in
  let* d := append "e_exch2" (CNum (e_exch2 r)) d in
  let* d := append "e_exch3" (CNum (e_exch3 r)) d in
  let* d := append "e_exch4" (CNum (e_exch4 r)) d in
  let* d := append "e_tot" (CNum (e_tot r)) d in
  append "volume" (CNum (volume r)) d.

Fixpoint fill (rows : list row) (df_dict : columns_dict) : result columns_dict :=
  match rows with
  | [] => Ok df_dict
  | r :: rows' => let* d := append_row r df_dict in fill rows' d
  end.

(** A data frame: named columns of one length over the index [0 .. n-1]. *)
Record dataframe : Type := DataFrame {
  columns : list string;
  series : list (list cell);
  index : list nat
}.

(** [pd.DataFrame.from_dict(d)]: the columns have to be of one length. *)
Definition from_dict (d : columns_dict) : result dataframe :=
  let n := match d with
           | [] => 0
           | (_, column) :: _ => length column
           end in
  if forallb (fun kc => Nat.eqb (length (snd kc)) n) d
  then Ok (DataFrame (map fst d) (map snd d) (seq 0 n))
  else Error (ValueError "All arrays must be of the same length").

(** The records [to_csv] writes: the header, whose index field is empty, and
    a record per index value. *)
Definition csv_records (df : dataframe) : list (list cell) :=
  (CStr EmptyString :: map CStr (columns df))
  :: map (fun i => CInt i :: map (fun column => nth i column (CStr EmptyString))
                                 (series df))
         (index df).

(** The suffixes from which [pandas] infers that the file is to be written
    compressed, looked for in the name in small letters. *)
Definition extension_to_compression : list (string * string) :=
  [(".tar", "tar"); (".tar.gz", "tar"); (".tar.bz2", "tar"); (".tar.xz", "tar");
   (".gz", "gzip"); (".bz2", "bz2"); (".zip", "zip"); (".xz", "xz");
   (".zst", "zstd")].

Definition infer_compression (path : string) : option string :=
  option_map snd
    (List.find (fun ec => Py.ends_with (fst ec) (utilities_rest.lower path))
               extension_to_compression).

(** A name [to_csv] opens as a text file of the local file system, as it
    is given: it does not start with a tilde (which stands for a home
    directory), has no colon in it (a name with a scheme in front may be
    taken for a URL), and no compression is inferred from it. *)
Definition plain_target (path : string) : bool :=
  negb (Py.startswith "~" path)
  && Nat.eqb (shape.count_char ":" path) 0
  && match infer_compression path with
     | None => true
     | Some _ => false
     end.

(** [check_parent_directory(path)] of [pandas.io.common]. *)
Definition check_parent_directory (path : string) : io unit :=
  fun w =>
    let parent := pathlib.parent path in
    if pathlib.is_dir parent w then (Ok tt, w)
    else (Error (OSError ("Cannot save file into a non-existent directory: '"
                          +:+ parent +:+ "'")), w).

Section to_csv.

(** How the CSV writer prints one field (the quoting of text, the digits of
    a number) is the writer's business and left open, and so is what
    [to_csv] does with a name that is no [plain_target]. *)
Variable format_cell : cell -> string.
Variable other_target : dataframe -> string -> io unit.

Fixpoint join_fields (fields : list string) : string :=
  match fields with
  | [] => EmptyString
  | [f] => f
  | f :: fields' => f +:+ "," +:+ join_fields fields'
  end.

Definition newline : string := String (Ascii.ascii_of_nat 10) EmptyString.

(** Every record on a line of its own, fields separated by commas. *)
Definition csv_text (records : list (list cell)) : string :=
  String.concat EmptyString
    (map (fun record => join_fields (map format_cell record) +:+ newline) records).

(** [df.to_csv(path)] with the default arguments: the directory the file
    goes into is looked for first, then the file is opened for writing. *)
Definition to_csv (df : dataframe) (path : string) : io unit :=
  if plain_target path
  then iobind (check_parent_directory path) (fun _ =>
       write_file path (csv_text (csv_records df)))
  else other_target df path.

Definition model_stats (db_user project_name output_csv : string) (conn : database)
  : io retval :=
  iobind (lift (get_models_by_user_project db_user project_name conn)) (fun rows =>
  iobind (print ("I retrieved " +:+ Py.str_of_nat (length rows) +:+ " objects"))
    (fun _ =>
  iobind (lift (fill rows empty_df_dict)) (fun df_dict =>
  iobind (lift (from_dict df_dict)) (fun df =>
  iobind (to_csv df output_csv) (fun _ =>
  ret PyNone))))).

End to_csv.

(** The columns of the export as the interface declares them, and the cells
    of one record in that order. *)
Definition COLUMNS : list string :=
  ["unique_id"; "db_user"; "project_name"; "material"; "temperature";
   "geometry"; "size"; "mx_tot"; "my_tot"; "mz_tot"; "vx_tot"; "vy_tot";
   "vz_tot"; "h_tot"; "adm_tot"; "e_typical"; "e_anis"; "e_ext"; "e_demag";
   "e_exch1"; "e_exch2"; "e_exch3"; "e_exch4"; "e_tot"; "volume"].

Definition row_cells (r : row) : list cell :=
  [CStr (unique_id r); CStr (db_user r); CStr (project_name r);
   CStr (material r); CNum (temperature r); CStr (geometry r); CNum (size r);
   CNum (mx_tot r); CNum (my_tot r); CNum (mz_tot r); CNum (vx_tot r);
   CNum (vy_tot r); CNum (vz_tot r); CNum (h_tot r); CNum (adm_tot r);
   CNum (e_typical r); CNum (e_anis r); CNum (e_ext r); CNum (e_demag r);
   CNum (e_exch1 r); CNum (e_exch2 r); CNum (e_exch3 r); CNum (e_exch4 r);
   CNum (e_tot r); CNum (volume r)].

(** The dictionary of columns after the rows [rows] have been appended. *)
Definition filled (rows : list row) : columns_dict :=
  [("unique_id", map (fun r => CStr (unique_id r)) rows);
   ("db_user", map (fun r => CStr (db_user r)) rows);
   ("project_name", map (fun r => CStr (project_name r)) rows);
   ("material", map (fun r => CStr (material r)) rows);
   ("temperature", map (fun r => CNum (temperature r)) rows);
   ("geometry", map (fun r => CStr (geometry r)) rows);
   ("size", map (fun r => CNum (size r)) rows);
   ("mx_tot", map (fun r => CNum (mx_tot r)) rows);
   ("my_tot", map (fun r => CNum (my_tot r)) rows);
   ("mz_tot", map (fun r => CNum (mz_tot r)) rows);
   ("vx_tot", map (fun r => CNum (vx_tot r)) rows);
   ("vy_tot", map (fun r => CNum (vy_tot r)) rows);
   ("vz_tot", map (fun r => CNum (vz_tot r)) rows);
   ("h_tot", map (fun r => CNum (h_tot r)) rows);
   ("adm_tot", map (fun r => CNum (adm_tot r)) rows);
   ("e_typical", map (fun r => CNum (e_typical r)) rows);
   ("e_anis", map (fun r => CNum (e_anis r)) rows);
   ("e_ext", map (fun r => CNum (e_ext r)) rows);
   ("e_demag", map (fun r => CNum (e_demag r)) rows);
   ("e_exch1", map (fun r => CNum (e_exch1 r)) rows);
   ("e_exch2", map (fun r => CNum (e_exch2 r)) rows);
   ("e_exch3", map (fun r => CNum (e_exch3 r)) rows);
   ("e_exch4", map (fun r => CNum (e_exch4 r)) rows);
   ("e_tot", map (fun r => CNum (e_tot r)) rows);
   ("volume", map (fun r => CNum (volume r)) rows)].

(** The records of the export: the header, then the rows in order, each
    with its number in front of its 25 cells. *)
Definition export_records (rows : list row) : list (list cell) :=
  (CStr EmptyString :: map CStr COLUMNS)
  :: imap (fun i r => CInt i :: row_cells r) rows.

Definition line_break : ascii := Ascii.ascii_of_nat 10.

(** No cell of the records is printed with a line break in it. *)
Definition one_line_cells (format_cell : cell -> string)
  (records : list (list cell)) : bool :=
  forallb
    (forallb (fun c => Nat.eqb (shape.count_char line_break (format_cell c)) 0))
    records.

(** *** The layout of the retrieval *)

(** The names below the destination directory, the name of the archive
    there, and the path of the source archive of a canonical unique id. *)
Definition fields (r : row) : list string :=
  [db_user r; project_name r; material r; geometry r;
   str (size r); str (temperature r)].

Definition zip_name (r : row) : string := unique_id r +:+ ".zip".

Definition source_path (source_dir : string) (r : row) : string :=
  posixpath.join source_dir
    [shape.relative_path (utilities.path_spt (unique_id r)); "data.zip"].

(** A row whose unique id is canonical and whose six fields are plain
    names. *)
Definition valid_row (r : row) : bool :=
  shape.canonical_uid (unique_id r) && forallb shape.plain_name (fields r).


(** What holds of the world between two rounds of the loop: where there
    are rows, the destination directory is there or can be made; no file is
    in the way of a directory to make below it, the source archives are as
    they were, no directory is in the way of a destination file, every file
    is an old one or a destination file, and every directory is an old one
    or lies on the way to a destination file. *)
Definition good (d s : string) (all : list row) (w0 w : world) : Prop :=
  (all <> [] -> root_ok d w)
  /\ (forall r p, In r all -> In p (shape.prefixes d (fields r)) -> isfile p w = false)
  /\ (forall r, In r all ->
        exists c, stat (source_path s r) w0 = Some (File c)
                  /\ stat (source_path s r) w = Some (File c))
  /\ (forall r, In r all -> fs w !! output_zip d r <> Some Dir)
  /\ (forall p c, fs w !! p = Some (File c) ->
        fs w0 !! p = Some (File c) \/ In p (map (output_zip d) all))
  /\ (forall p, fs w !! p = Some Dir ->
        fs w0 !! p = Some Dir
        \/ exists r, In r all /\ In p (ancestors (output_zip d r))).

(** A destination file that holds its source archive. *)
Definition copied (d s : string) (w0 w : world) (r : row) : Prop :=
  stat (output_zip d r) w = stat (source_path s r) w0.

(** What the retrieval needs of the world it starts in: a destination
    directory that is there and is given without a separator at its end;
    for every row a canonical unique id, plain names in its six fields and
    its source archive in place; no file where a directory is to be made,
    no directory where a file is to be written, and no source archive at
    the place of a destination file. *)
Definition ready (d s : string) (rows : list row) (w : world) : bool :=
  negb (String.eqb d EmptyString) && negb (Py.endswith posixpath.sep d)
  && isdir d w
  && forallb
       (fun r =>
          valid_row r && isfile (source_path s r) w
          && forallb (fun p => negb (isfile p w)) (shape.prefixes d (fields r))
          && negb (isdir (output_zip d r) w)
          && forallb
               (fun r' => negb (String.eqb (source_path s r') (output_zip d r)))
               rows)
       rows.



Definition retrieved_message (rows : list row) : string :=
  "I retrieved " +:+ Py.str_of_nat (length rows) +:+ " objects".

(** *** The layout of the export *)


(** No cell of the records is printed with a comma or a line break in
    it. *)
Definition plain_cells (format_cell : cell -> string)
  (records : list (list cell)) : bool :=
  forallb
    (forallb (fun c =>
                Nat.eqb (shape.count_char "," (format_cell c)) 0
                && Nat.eqb (shape.count_char line_break (format_cell c)) 0))
    records.

End entry_point.

(** ** Concrete inputs *)

Module examples.

Import os catalog entry_point.

(** A unique id, its 16 pairs, and the two paths that name them. *)
Definition uid0 : string := "0f86b938-15a3-4f1e-99b1-8f2b65b37a03".

Definition segments0 : list string :=
  ["0f"; "86"; "b9"; "38"; "15"; "a3"; "4f"; "1e";
   "99"; "b1"; "8f"; "2b"; "65"; "b3"; "7a"; "03"].

(** A catalog with one finished model of user [alice] in project [grains]
    and one model that is still running. *)
Definition one : number := Num "1.0".

Definition model0 : model_t :=
  {| model_id := 1; model_unique_id := uid0; model_mdata_id := 1;
     model_running_status_id := 2; model_geometry_id := 1;
     model_mx_tot := one; model_my_tot := one; model_mz_tot := one;
     model_vx_tot := one; model_vy_tot := one; model_vz_tot := one;
     model_h_tot := one; model_adm_tot := one; model_e_typical := one;
     model_e_anis := one; model_e_ext := one; model_e_demag := one;
     model_e_exch1 := one; model_e_exch2 := one; model_e_exch3 := one;
     model_e_exch4 := one; model_e_tot := one; model_volume := one |}.

Definition model1 : model_t :=
  {| model_id := 2; model_unique_id := "11111111-2222-3333-4444-555555555555";
     model_mdata_id := 1; model_running_status_id := 1; model_geometry_id := 1;
     model_mx_tot := one; model_my_tot := one; model_mz_tot := one;
     model_vx_tot := one; model_vy_tot := one; model_vz_tot := one;
     model_h_tot := one; model_adm_tot := one; model_e_typical := one;
     model_e_anis := one; model_e_ext := one; model_e_demag := one;
     model_e_exch1 := one; model_e_exch2 := one; model_e_exch3 := one;
     model_e_exch4 := one; model_e_tot := one; model_volume := one |}.

Definition conn0 : database :=
  {| model := [model0; model1];
     metadata := [ {| metadata_id := 1; metadata_db_user_id := 1;
                      metadata_project_id := 1 |} ];
     db_user_table := [ {| db_user_id := 1; db_user_user_name := "alice" |} ];
     project := [ {| project_id := 1; project_name_ := "grains" |} ];
     running_status :=
       [ {| running_status_id := 1; running_status_name := "running" |};
         {| running_status_id := 2; running_status_name := "finished" |} ];
     geometry_table :=
       [ {| geometry_id := 1; geometry_name := "cube"; geometry_size := Num "0.1" |} ];
     model_material_association :=
       [ {| mma_model_id := 1; mma_material_id := 1 |};
         {| mma_model_id := 2; mma_material_id := 1 |} ];
     material_table :=
       [ {| material_id := 1; material_name := "magnetite";
            material_temperature := Num "20.0" |} ] |}.

(** The one row the query returns for it. *)
Definition row0 : row := select (Joined model0
  {| metadata_id := 1; metadata_db_user_id := 1; metadata_project_id := 1 |}
  {| db_user_id := 1; db_user_user_name := "alice" |}
  {| project_id := 1; project_name_ := "grains" |}
  {| running_status_id := 2; running_status_name := "finished" |}
  {| geometry_id := 1; geometry_name := "cube"; geometry_size := Num "0.1" |}
  {| mma_model_id := 1; mma_material_id := 1 |}
  {| material_id := 1; material_name := "magnetite";
     material_temperature := Num "20.0" |}).

(** A file with the directories that lead to it. *)
Definition with_file (path content : string) (m : gmap string node)
  : gmap string node :=
  <[path := File content]>
    (fold_right (fun p m => <[p := Dir]> m) m (ancestors path)).

(** A world with the source archive of [uid0] under [/src] and an empty
    destination directory [out], and the same world without [out]. *)
Definition world0 : world :=
  World (with_file "/src/0f/86/b9/38/15/a3/4f/1e/99/b1/8f/2b/65/b3/7a/03/data.zip"
           "archive" {[ "out" := Dir ]}) [].


(** A catalog with three finished models, and a world that has the source
    archives of the first and the third, not of the second. *)
Definition uid_b : string := "11111111-2222-3333-4444-555555555555".

Definition uid_c : string := "AAAAAAAA-bbbb-CCCC-dddd-EEEEEEEEEEEE".

Definition model_of (id : nat) (uid : string) : model_t :=
  {| model_id := id; model_unique_id := uid; model_mdata_id := 1;
     model_running_status_id := 2; model_geometry_id := 1;
     model_mx_tot := one; model_my_tot := one; model_mz_tot := one;
     model_vx_tot := one; model_vy_tot := one; model_vz_tot := one;
     model_h_tot := one; model_adm_tot := one; model_e_typical := one;
     model_e_anis := one; model_e_ext := one; model_e_demag := one;
     model_e_exch1 := one; model_e_exch2 := one; model_e_exch3 := one;
     model_e_exch4 := one; model_e_tot := one; model_volume := one |}.

Definition conn3 : database :=
  {| model := [model_of 1 uid0; model_of 2 uid_b; model_of 3 uid_c];
     metadata := metadata conn0;
     db_user_table := db_user_table conn0;
     project := project conn0;
     running_status := running_status conn0;
     geometry_table := geometry_table conn0;
     model_material_association :=
       [ {| mma_model_id := 1; mma_material_id := 1 |};
         {| mma_model_id := 2; mma_material_id := 1 |};
         {| mma_model_id := 3; mma_material_id := 1 |} ];
     material_table := material_table conn0 |}.

Definition row_of (uid : string) : row :=
  Row uid "alice" "grains" "magnetite" (Num "20.0") "cube" (Num "0.1")
      one one one one one one one one one one one one one one one one one one.

Definition world3 : world :=
  World (with_file "/src/0f/86/b9/38/15/a3/4f/1e/99/b1/8f/2b/65/b3/7a/03/data.zip"
           "archive a"
           (with_file
              "/src/AA/AA/AA/AA/bb/bb/CC/CC/dd/dd/EE/EE/EE/EE/EE/EE/data.zip"
              "archive c" {[ "out" := Dir ]})) [].

(** The same world with the second source archive in place as well, and
    with a file where the first directory of that archive would be. *)
Definition world3_complete : world :=
  World (with_file "/src/11/11/11/11/22/22/33/33/44/44/55/55/55/55/55/55/data.zip"
           "archive b" (fs world3)) [].


(** A CSV writer that prints every cell as it is. *)
Definition plain_text (c : cell) : string :=
  match c with
  | CStr s => s
  | CNum n => str n
  | CInt i => Py.str_of_nat i
  end.

End examples.

(** ** More shapes *)

Module shape_rest.

Import os catalog entry_point.

(** A component that starts with a hexadecimal digit. *)
Definition starts_with_hex (segment : string) : bool :=
  match segment with
  | EmptyString => false
  | String c _ => Re.is_hex c
  end.

(** 16 segments put together in groups of 4, 2, 2, 2 and 6 with a hyphen
    between the groups. *)
Definition uid_of_segments (segments : list string) : string :=
  String.concat EmptyString (firstn 4 segments) +:+ "-"
  +:+ String.concat EmptyString (firstn 2 (skipn 4 segments)) +:+ "-"
  +:+ String.concat EmptyString (firstn 2 (skipn 6 segments)) +:+ "-"
  +:+ String.concat EmptyString (firstn 2 (skipn 8 segments)) +:+ "-"
  +:+ String.concat EmptyString (skipn 10 segments).

(** A text of separators only (the empty text is one). *)
Definition all_sep (s : string) : bool :=
  String.eqb s (Py.repeat_char posixpath.sep (String.length s)).

(** A head as [os.path.split] leaves it: separators only, or not ending in
    a separator. *)
Definition stripped (h : string) : bool :=
  all_sep h || negb (Py.endswith posixpath.sep h).

(** What the loop of [split_all] keeps: every component collected so far is
    free of separators, all but the last of them are names, and once a
    component was collected the path left to split is a stripped head that
    is not empty. *)
Definition collected (path : string) (acc : list string) : Prop :=
  forallb shape.no_sep acc = true
  /\ forallb shape.is_name (removelast acc) = true
  /\ (acc <> [] -> stripped path = true /\ path <> EmptyString).

(** The number of characters of a pattern's matches. *)
Definition regex_len (r : Re.regex) : nat :=
  fold_right (fun an n => snd an + n) 0 r.

(** What a run does to the file system at most: a path is as it was, or it
    was free and is a directory now, or it is one of [targets], was no
    directory and is a file now. *)
Definition only_writes (targets : list string) (w w' : world) : Prop :=
  forall p,
    fs w' !! p = fs w !! p
    \/ (fs w !! p = None /\ fs w' !! p = Some Dir)
    \/ (In p targets /\ fs w !! p <> Some Dir
        /\ exists c, fs w' !! p = Some (File c)).

(** Nothing that was there is gone; directories are still directories and
    files still files. *)
Definition keeps_all (w w' : world) : Prop :=
  forall p x, fs w !! p = Some x ->
              exists x', fs w' !! p = Some x' /\ (x = Dir <-> x' = Dir).

(** Where the retrieval may write a file: the destination file of a row,
    or [data.zip] below it where a directory has the destination's name. *)
Definition destinations (d : string) (rows : list row) : list string :=
  flat_map (fun r => [output_zip d r;
                      posixpath.join (output_zip d r) ["data.zip"]]) rows.

End shape_rest.

(** ** More concrete inputs *)

Module examples_rest.

Import os catalog entry_point examples.

(** A catalog whose second model has a unique id that is none. *)
Definition conn_bad_uid : database :=
  {| model := [model_of 1 uid0; model_of 2 "not-a-unique-id"; model_of 3 uid_c];
     metadata := metadata conn3;
     db_user_table := db_user_table conn3;
     project := project conn3;
     running_status := running_status conn3;
     geometry_table := geometry_table conn3;
     model_material_association := model_material_association conn3;
     material_table := material_table conn3 |}.

(** [world3_complete] after the count was printed and the first row was
    retrieved. *)
Definition world_bad_uid_first : world :=
  snd (for_each (retrieve_row "out" "/src") [row_of uid0]
         (World (fs world3_complete) [Printed "I retrieved 3 objects"])).

End examples_rest.

(** * Proofs *)

Import utilities shape examples.

#[local] Arguments String.append !_ _ / : simpl nomatch.

(** ** Strings *)

Section string_facts.

Lemma slice_to_length (i : nat) (s : string) :
  String.length (Py.slice_to i s) <= String.length s.
Proof.
  revert i; induction s as [|a s IH]; intros [|i]; simpl; try lia.
  specialize (IH i); lia.
Qed.

Lemma slice_to_same_length (i : nat) (s : string) :
  String.length (Py.slice_to i s) = String.length s -> Py.slice_to i s = s.
Proof.
  revert i; induction s as [|a s IH]; intros [|i]; simpl; intros H;
    try reflexivity; try discriminate.
  f_equal; apply IH; lia.
Qed.

Lemma rstrip_length (c : ascii) (s : string) :
  String.length (Py.rstrip c s) <= String.length s.
Proof.
  induction s as [|a s IH]; simpl; [lia|].
  destruct (Py.rstrip c s); [destruct (Ascii.eqb a c)|]; simpl in *; lia.
Qed.

Lemma rstrip_same_length (c : ascii) (s : string) :
  String.length (Py.rstrip c s) = String.length s -> Py.rstrip c s = s.
Proof.
  induction s as [|a s IH]; simpl; [reflexivity|].
  pose proof (rstrip_length c s) as Hle.
  destruct (Py.rstrip c s) eqn:E.
  - destruct (Ascii.eqb a c); simpl in *; intros H; [lia|].
    destruct s; [reflexivity | simpl in H; lia].
  - simpl in *; intros H. f_equal. apply IH. lia.
Qed.

Lemma split_fst_length (p : string) :
  String.length (fst (posixpath.split p)) <= String.length p.
Proof.
  unfold posixpath.split; simpl.
  pose proof (slice_to_length (Py.rfind_succ posixpath.sep p) p) as H1.
  pose proof (rstrip_length posixpath.sep
                (Py.slice_to (Py.rfind_succ posixpath.sep p) p)) as H2.
  destruct (_ && _); lia.
Qed.

Lemma split_fst_same_length (p : string) :
  String.length (fst (posixpath.split p)) = String.length p ->
  fst (posixpath.split p) = p.
Proof.
  unfold posixpath.split; simpl.
  pose proof (slice_to_length (Py.rfind_succ posixpath.sep p) p) as H1.
  pose proof (rstrip_length posixpath.sep
                (Py.slice_to (Py.rfind_succ posixpath.sep p) p)) as H2.
  destruct (_ && _); intros H.
  - rewrite rstrip_same_length by lia. apply slice_to_same_length. lia.
  - apply slice_to_same_length. lia.
Qed.

(** A round of the loop that reaches no sentinel goes on with a shorter path. *)
Lemma split_fst_shorter (p : string) :
  String.eqb (fst (posixpath.split p)) p = false ->
  String.length (fst (posixpath.split p)) < String.length p.
Proof.
  intros H. apply String.eqb_neq in H.
  pose proof (split_fst_length p) as Hle.
  destruct (Nat.eq_dec (String.length (fst (posixpath.split p))) (String.length p))
    as [Heq|Hne]; [|lia].
  destruct (H (split_fst_same_length p Heq)).
Qed.

End string_facts.

(** ** [split_all] terminates *)

Lemma split_all_loop_S (fuel : nat) (path : string) (all_parts : list string) :
  split_all_loop (S fuel) path all_parts =
  if String.eqb (fst (posixpath.split path)) path
  then Some (fst (posixpath.split path) :: all_parts)
  else if String.eqb (snd (posixpath.split path)) path
       then Some (snd (posixpath.split path) :: all_parts)
       else split_all_loop fuel (fst (posixpath.split path))
              (snd (posixpath.split path) :: all_parts).
Proof. reflexivity. Qed.

Lemma split_all_loop_total (fuel : nat) :
  forall path all_parts,
    String.length path < fuel ->
    exists part parts, split_all_loop fuel path all_parts = Some (part :: parts).
Proof.
  induction fuel as [|fuel IH]; intros path all_parts Hlt; [lia|].
  rewrite split_all_loop_S.
  destruct (String.eqb (fst (posixpath.split path)) path) eqn:E1; [eauto|].
  destruct (String.eqb (snd (posixpath.split path)) path) eqn:E2; [eauto|].
  apply IH. pose proof (split_fst_shorter path E1). lia.
Qed.

Lemma split_all_loop_more (fuel : nat) :
  forall extra path all_parts r,
    split_all_loop fuel path all_parts = Some r ->
    split_all_loop (fuel + extra) path all_parts = Some r.
Proof.
  induction fuel as [|fuel IH]; intros extra path all_parts r; [discriminate|].
  change (S fuel + extra) with (S (fuel + extra)). rewrite !split_all_loop_S.
  destruct (String.eqb (fst (posixpath.split path)) path); [auto|].
  destruct (String.eqb (snd (posixpath.split path)) path); [auto|].
  apply IH.
Qed.

Lemma split_all_terminates_aux (path : string) :
  exists part parts, split_all path = Some (part :: parts).
Proof. apply split_all_loop_total. lia. Qed.

(** C10. For every string, [split_all] terminates with a non-empty list of
    components: the loop reaches one of its two sentinels within
    [len(path) + 1] rounds, and more rounds allowed change nothing. *)
Theorem split_all_terminates (path : string) :
  exists part parts,
    split_all path = Some (part :: parts)
    /\ forall extra,
        split_all_loop (S (String.length path) + extra) path [] = Some (part :: parts).
Proof.
  destruct (split_all_loop_total (S (String.length path)) path []) as (x & l & H);
    [lia|].
  exists x, l. split; [exact H|].
  intros extra. apply (split_all_loop_more _ extra _ _ _ H).
Qed.

(** Whatever fuel lets the loop finish gives the result of [split_all]. *)
Lemma split_all_of_loop (fuel : nat) (path : string) (r : list string) :
  split_all_loop fuel path [] = Some r -> split_all path = Some r.
Proof.
  intros H.
  destruct (split_all_terminates_aux path) as (x & l & Hx).
  unfold split_all in *.
  pose proof (split_all_loop_more _ (S (String.length path)) _ _ _ H) as H1.
  pose proof (split_all_loop_more _ fuel _ _ _ Hx) as H2.
  rewrite (Nat.add_comm fuel) in H1. rewrite H1 in H2.
  rewrite Hx. symmetry. exact H2.
Qed.

(** ** [os.path.split] undoes one step of [os.path.join] *)

Section split_join.

Abbreviation sep := posixpath.sep.

Lemma rfind_succ_no_sep (b : string) :
  no_sep b = true -> Py.rfind_succ sep b = 0.
Proof.
  induction b as [|x b IH]; simpl; [reflexivity|].
  intros H. apply andb_true_iff in H as [Hx Hb].
  rewrite (IH Hb). apply negb_true_iff in Hx. now rewrite Hx.
Qed.

Lemma rfind_succ_app (a b : string) :
  no_sep b = true ->
  Py.rfind_succ sep (a +:+ String sep b) = S (String.length a).
Proof.
  intros Hb. induction a as [|x a IH]; simpl.
  - now rewrite (rfind_succ_no_sep b Hb).
  - rewrite IH. reflexivity.
Qed.

Lemma slice_to_app (a b : string) :
  Py.slice_to (S (String.length a)) (a +:+ String sep b) = a +:+ String sep EmptyString.
Proof.
  induction a as [|x a IH]; [now destruct b|].
  cbn [String.append String.length Py.slice_to]. now rewrite IH.
Qed.

Lemma slice_from_app (a b : string) :
  Py.slice_from (S (String.length a)) (a +:+ String sep b) = b.
Proof.
  induction a as [|x a IH]; [now destruct b|].
  cbn [String.append String.length Py.slice_from]. exact IH.
Qed.

Lemma rstrip_app_sep (a : string) :
  Py.rstrip sep (a +:+ String sep EmptyString) = Py.rstrip sep a.
Proof.
  induction a as [|x a IH]; simpl.
  - reflexivity.
  - now rewrite IH.
Qed.

Lemma endswith_cons (c x y : ascii) (a : string) :
  Py.endswith c (String x (String y a)) = Py.endswith c (String y a).
Proof. reflexivity. Qed.

Lemma rstrip_id (a : string) :
  Py.endswith sep a = false -> Py.rstrip sep a = a.
Proof.
  induction a as [|x a IH]; [reflexivity|].
  destruct a as [|y a].
  - simpl. intros ->. reflexivity.
  - rewrite endswith_cons. intros H. specialize (IH H).
    change (Py.rstrip sep (String x (String y a)))
      with (match Py.rstrip sep (String y a) with
            | EmptyString =>
                if Ascii.eqb x sep then EmptyString else String x EmptyString
            | String z rest' => String x (String z rest')
            end).
    now rewrite IH.
Qed.

Lemma not_all_sep (a t : string) (n : nat) :
  a <> EmptyString -> Py.endswith sep a = false ->
  a +:+ t <> Py.repeat_char sep n.
Proof.
  revert n. induction a as [|x a IH]; intros n Hne Hend; [congruence|].
  destruct n as [|n]; [discriminate|].
  destruct a as [|y a].
  - simpl in *. intros [= -> _]. now rewrite Ascii.eqb_refl in Hend.
  - rewrite endswith_cons in Hend. simpl. intros [= _ H].
    apply (IH n); [discriminate | exact Hend | exact H].
Qed.

Lemma app_nonempty (a t : string) : a <> EmptyString -> a +:+ t <> EmptyString.
Proof. destruct a; [congruence | discriminate]. Qed.

Lemma string_length_app (a b : string) :
  String.length (a +:+ b) = String.length a + String.length b.
Proof. induction a as [|x a IH]; simpl; [reflexivity | now rewrite IH]. Qed.

(** The last separator of [a/b] splits it into [a] and [b]. *)
Lemma split_sep (a b : string) :
  a <> EmptyString -> Py.endswith sep a = false -> no_sep b = true ->
  posixpath.split (a +:+ String sep b) = (a, b).
Proof.
  intros Hne Hend Hb. unfold posixpath.split.
  rewrite (rfind_succ_app a b Hb), slice_to_app, slice_from_app.
  assert (H1 : String.eqb (a +:+ String sep EmptyString) EmptyString = false)
    by (apply String.eqb_neq, app_nonempty, Hne).
  assert (H2 : String.eqb (a +:+ String sep EmptyString)
                 (Py.repeat_char sep
                    (String.length (a +:+ String sep EmptyString))) = false)
    by (apply String.eqb_neq, not_all_sep; assumption).
  rewrite H1, H2. simpl. now rewrite rstrip_app_sep, rstrip_id.
Qed.

(** A name has no head. *)
Lemma split_name (b : string) :
  no_sep b = true -> posixpath.split b = (EmptyString, b).
Proof.
  intros Hb. unfold posixpath.split.
  rewrite (rfind_succ_no_sep b Hb). simpl. now destruct b.
Qed.

(** A name directly under the root has the root as its head. *)
Lemma split_root_name (b : string) :
  no_sep b = true -> posixpath.split (String sep b) = (String sep EmptyString, b).
Proof.
  intros Hb. unfold posixpath.split.
  change (String sep b) with (EmptyString +:+ String sep b).
  rewrite (rfind_succ_app EmptyString b Hb). simpl. now destruct b.
Qed.

End split_join.

(** ** [os.path.join] of names, and [split_all] of the joined path *)

Section join_names.

Abbreviation sep := posixpath.sep.

Lemma is_name_inv (b : string) :
  is_name b = true -> b <> EmptyString /\ no_sep b = true.
Proof.
  unfold is_name. intros H. apply andb_true_iff in H as [H1 H2].
  apply negb_true_iff, String.eqb_neq in H1. now split.
Qed.

Lemma no_sep_startswith (b : string) :
  no_sep b = true -> Py.startswith sep b = false.
Proof.
  destruct b as [|x b]; [reflexivity|]. simpl. intros H.
  apply andb_true_iff in H as [H _]. now apply negb_true_iff in H.
Qed.

Lemma no_sep_endswith (b : string) :
  no_sep b = true -> Py.endswith sep b = false.
Proof.
  induction b as [|x b IH]; [reflexivity|].
  intros H. simpl in H. apply andb_true_iff in H as [Hx Hb].
  destruct b as [|y b].
  - simpl. now apply negb_true_iff in Hx.
  - rewrite endswith_cons. now apply IH.
Qed.

Lemma endswith_app (c : ascii) (a b : string) :
  b <> EmptyString -> Py.endswith c (a +:+ b) = Py.endswith c b.
Proof.
  intros Hb. induction a as [|x a IH]; [reflexivity|].
  simpl. destruct (a +:+ b) eqn:E; [|exact IH].
  destruct a; [simpl in E; congruence | discriminate].
Qed.

Lemma name_open_ended (b : string) : is_name b = true -> open_ended b.
Proof.
  intros H. apply is_name_inv in H as [H1 H2].
  split; [exact H1 | now apply no_sep_endswith].
Qed.

Lemma join_step_name (path b : string) :
  open_ended path -> is_name b = true ->
  posixpath.join_step path b = path +:+ String sep b.
Proof.
  intros [Hne Hend] Hb. apply is_name_inv in Hb as [Hb1 Hb2].
  unfold posixpath.join_step.
  rewrite (no_sep_startswith b Hb2), Hend.
  apply String.eqb_neq in Hne. now rewrite Hne.
Qed.

Lemma join_step_open_ended (path b : string) :
  open_ended path -> is_name b = true ->
  open_ended (posixpath.join_step path b).
Proof.
  intros Hp Hb. rewrite (join_step_name path b Hp Hb).
  destruct Hp as [Hne Hend]. apply is_name_inv in Hb as [Hb1 Hb2].
  split; [now apply app_nonempty|].
  rewrite endswith_app by discriminate.
  destruct b as [|y b]; [congruence|].
  rewrite endswith_cons. now apply no_sep_endswith.
Qed.

Lemma join_snoc (a : string) (p : list string) (b : string) :
  posixpath.join a (p ++ [b]) = posixpath.join_step (posixpath.join a p) b.
Proof. unfold posixpath.join. now rewrite fold_left_app. Qed.

Lemma join_open_ended (p : list string) :
  forall a, open_ended a -> forallb is_name p = true ->
            open_ended (posixpath.join a p).
Proof.
  induction p as [|b p IH]; intros a Ha Hp; [exact Ha|].
  simpl in Hp. apply andb_true_iff in Hp as [Hb Hp].
  change (posixpath.join a (b :: p))
    with (posixpath.join (posixpath.join_step a b) p).
  apply IH; [now apply join_step_open_ended | exact Hp].
Qed.

(** Joining under the root: the separator in front stays in front. *)
Lemma join_under_root (p : list string) :
  forall a, a <> EmptyString -> forallb is_name p = true ->
            posixpath.join (String sep a) p = String sep (posixpath.join a p).
Proof.
  induction p as [|b p IH]; intros a Ha Hp; [reflexivity|].
  simpl in Hp. apply andb_true_iff in Hp as [Hb Hp].
  change (posixpath.join (String sep a) (b :: p))
    with (posixpath.join (posixpath.join_step (String sep a) b) p).
  change (posixpath.join a (b :: p))
    with (posixpath.join (posixpath.join_step a b) p).
  assert (Hstep : posixpath.join_step (String sep a) b
                  = String sep (posixpath.join_step a b)).
  { apply is_name_inv in Hb as [Hb1 Hb2].
    unfold posixpath.join_step. rewrite (no_sep_startswith b Hb2).
    destruct a as [|x a]; [congruence|]. rewrite endswith_cons.
    destruct (Py.endswith sep (String x a)); reflexivity. }
  rewrite Hstep. apply IH; [|exact Hp].
  apply is_name_inv in Hb as [Hb1 Hb2].
  unfold posixpath.join_step. rewrite (no_sep_startswith b Hb2).
  destruct a as [|x a]; [congruence|].
  destruct (_ || _); discriminate.
Qed.

(** The loop of [split_all] takes the names [p] off a joined path one by
    one, then goes on with the path they were joined to. *)
Lemma split_all_loop_join (p : list string) :
  forall a all_parts fuel r,
    open_ended a -> forallb is_name p = true ->
    split_all_loop fuel a (p ++ all_parts) = Some r ->
    split_all_loop (fuel + length p) (posixpath.join a p) all_parts = Some r.
Proof.
  induction p as [|b p IH] using rev_ind; intros a all_parts fuel r Ha Hp H.
  - simpl. now rewrite Nat.add_0_r.
  - rewrite forallb_app in Hp. apply andb_true_iff in Hp as [Hp Hb].
    simpl in Hb. rewrite andb_true_r in Hb.
    pose proof (join_open_ended p a Ha Hp) as Hj.
    rewrite join_snoc, (join_step_name _ b Hj Hb).
    rewrite List.length_app, Nat.add_assoc, Nat.add_1_r, split_all_loop_S.
    destruct Hj as [Hne Hend]. destruct (is_name_inv b Hb) as [Hb1 Hb2].
    rewrite (split_sep _ b Hne Hend Hb2). cbn [fst snd].
    assert (E1 : String.eqb (posixpath.join a p)
                   (posixpath.join a p +:+ String sep b) = false).
    { apply String.eqb_neq. intros E. apply (f_equal String.length) in E.
      rewrite string_length_app in E. simpl in E. lia. }
    assert (E2 : String.eqb b (posixpath.join a p +:+ String sep b) = false).
    { apply String.eqb_neq. intros E. apply (f_equal String.length) in E.
      rewrite string_length_app in E. simpl in E. lia. }
    rewrite E1, E2. apply IH; [exact Ha | exact Hp|].
    now rewrite <- app_assoc in H.
Qed.

(** A relative path of names splits into these names. *)
Lemma split_all_relative (segments : list string) :
  segments <> [] -> forallb is_name segments = true ->
  split_all (relative_path segments) = Some segments.
Proof.
  destruct segments as [|a p]; [congruence|]. intros _ H.
  simpl in H. apply andb_true_iff in H as [Ha Hp].
  apply (split_all_of_loop (1 + length p)).
  apply split_all_loop_join; [now apply name_open_ended | exact Hp|].
  destruct (is_name_inv a Ha) as [Ha1 Ha2].
  rewrite split_all_loop_S, (split_name a Ha2). cbn [fst snd].
  rewrite String.eqb_refl.
  assert (E : String.eqb EmptyString a = false)
    by (apply String.eqb_neq; congruence).
  rewrite E. now rewrite app_nil_r.
Qed.

(** The absolute path of the same names splits into the root and these
    names: one component more. *)
Lemma split_all_absolute (segments : list string) :
  segments <> [] -> forallb is_name segments = true ->
  split_all (absolute_path segments)
  = Some (String sep EmptyString :: segments).
Proof.
  destruct segments as [|a p]; [congruence|]. intros _ H.
  simpl in H. apply andb_true_iff in H as [Ha Hp].
  destruct (is_name_inv a Ha) as [Ha1 Ha2].
  unfold absolute_path, relative_path.
  rewrite <- (join_under_root p a Ha1 Hp).
  apply (split_all_of_loop (2 + length p)).
  apply split_all_loop_join; [|exact Hp|].
  - split; [discriminate|]. destruct a as [|x a]; [congruence|].
    rewrite endswith_cons. now apply no_sep_endswith.
  - rewrite split_all_loop_S, (split_root_name a Ha2). cbn [fst snd].
    assert (E1 : String.eqb (String sep EmptyString) (String sep a) = false).
    { apply String.eqb_neq. intros [= E]. congruence. }
    assert (E2 : String.eqb a (String sep a) = false).
    { apply String.eqb_neq. intros E. apply (f_equal String.length) in E.
      simpl in E. lia. }
    rewrite E1, E2. now rewrite app_nil_r.
Qed.

End join_names.

(** ** The codec on canonical unique ids and on shard paths *)

Section codec.

Import Re.

#[local] Arguments is_hex : simpl never.
#[local] Arguments Ascii.eqb : simpl never.
#[local] Arguments posixpath.join : simpl never.

Lemma hex_not_hyphen (c : ascii) : is_hex c = true -> Ascii.eqb c "-" = false.
Proof.
  destruct c as [[] [] [] [] [] [] [] []]; vm_compute; congruence.
Qed.

Lemma hex_not_sep (c : ascii) :
  is_hex c = true -> Ascii.eqb c posixpath.sep = false.
Proof.
  destruct c as [[] [] [] [] [] [] [] []]; vm_compute; congruence.
Qed.

Lemma match_repeat_S_inv (a : atom) (n : nat) (s rest : string) :
  match_repeat a (S n) s = Some rest ->
  exists c s', s = String c s' /\ atom_matches a c = true
               /\ match_repeat a n s' = Some rest.
Proof.
  simpl. destruct s as [|c s']; [discriminate|].
  destruct (atom_matches a c) eqn:E; [|discriminate]. eauto.
Qed.

Lemma match_prefix_cons_inv (a : atom) (n : nat) (r : regex) (s x : string) :
  match_prefix ((a, n) :: r) s = Some x ->
  exists rest, match_repeat a n s = Some rest /\ match_prefix r rest = Some x.
Proof.
  simpl. destruct (match_repeat a n s) as [rest|]; [|discriminate]. eauto.
Qed.

Lemma re_fullmatch_inv (r : regex) (s : string) :
  re_fullmatch r s = true -> match_prefix r s = Some EmptyString.
Proof.
  unfold re_fullmatch. destruct (match_prefix r s) as [[|]|]; congruence.
Qed.

Lemma re_fullmatch_match (r : regex) (s : string) :
  re_fullmatch r s = true -> re_match r s = true.
Proof.
  unfold re_fullmatch, re_match. now destruct (match_prefix r s).
Qed.

Lemma re_match_hex (c : ascii) (s : string) :
  is_hex c = true -> re_match HEX_REGEX (String c s) = true.
Proof. intros H. unfold re_match, HEX_REGEX. cbn. now rewrite H. Qed.

Lemma remove_hyphen_hex (c : ascii) (s : string) :
  is_hex c = true ->
  Py.remove_char "-" (String c s) = String c (Py.remove_char "-" s).
Proof. intros H. simpl. now rewrite (hex_not_hyphen c H). Qed.

Lemma remove_hyphen_hyphen (s : string) :
  Py.remove_char "-" (String "-" s) = Py.remove_char "-" s.
Proof. reflexivity. Qed.

Lemma uid_to_dir_matched (u : string) :
  re_match UID_REGEX u = true -> uid_to_dir u = posixpath.join_star (path_spt u).
Proof. unfold uid_to_dir. now intros ->. Qed.

(** Taking a successful match apart, one character at a time. *)
Ltac match_inv :=
  repeat match goal with
    | H : match_prefix (_ :: _) _ = Some _ |- _ =>
        apply match_prefix_cons_inv in H as (? & ? & H)
    | H : match_prefix [] _ = Some _ |- _ => injection H as ->
    | H : match_repeat _ (S _) _ = Some _ |- _ =>
        apply match_repeat_S_inv in H as (? & ? & -> & ? & H)
    | H : match_repeat _ 0 _ = Some _ |- _ => injection H as ->
    | H : atom_matches Hex ?c = true |- _ => change (is_hex c = true) in H
    | H : atom_matches (Char _) ?c = true |- _ =>
        apply Ascii.eqb_eq in H; subst c
    end.

Ltac use_hex :=
  repeat match goal with
    | Hc : is_hex ?c = true |- context [re_match HEX_REGEX (String ?c ?s)] =>
        rewrite (re_match_hex c s Hc)
    | Hc : is_hex ?c = true |- context [is_hex ?c] => rewrite Hc
    | Hc : is_hex ?c = true |- context [Ascii.eqb ?c "-"] =>
        rewrite (hex_not_hyphen c Hc)
    | Hc : is_hex ?c = true |- context [Ascii.eqb ?c posixpath.sep] =>
        rewrite (hex_not_sep c Hc)
    | |- context [Ascii.eqb ?c ?c] => rewrite (Ascii.eqb_refl c)
    end.

Ltac crunch := repeat (progress (cbn; use_hex)).

Ltac remove_hyphens :=
  repeat (rewrite remove_hyphen_hyphen || rewrite remove_hyphen_hex by assumption).

Ltac split_pairs H :=
  repeat match type of H with
    | (_ && _) = true =>
        let H1 := fresh "Hp" in
        apply andb_true_iff in H as [H1 H]; apply re_fullmatch_inv in H1
    end.

Lemma hex_pair_is_name (segment : string) :
  hex_pair segment = true -> is_name segment = true.
Proof.
  intros H. apply re_fullmatch_inv in H. match_inv.
  unfold is_name. crunch. reflexivity.
Qed.

Lemma shard_path_names (segments : list string) :
  shard_path segments = true ->
  segments <> [] /\ forallb is_name segments = true.
Proof.
  unfold shard_path. intros H. apply andb_true_iff in H as [Hlen Hall].
  split; [destruct segments; [discriminate | congruence]|].
  rewrite forallb_forall in *. intros x Hx. apply hex_pair_is_name. auto.
Qed.

(** A canonical unique id encodes to the relative path of 16 hex pairs, and
    these pairs decode to it. *)
Lemma canonical_uid_segments (u : string) :
  canonical_uid u = true ->
  shard_path (path_spt u) = true
  /\ uid_to_dir u = Ok (relative_path (path_spt u))
  /\ hex_pairs_to_uid [Py.List (path_spt u)] = Ok u.
Proof.
  intros H.
  rewrite (uid_to_dir_matched u (re_fullmatch_match _ _ H)).
  apply re_fullmatch_inv in H. unfold UID_REGEX in H.
  match_inv.
  unfold path_spt. remove_hyphens. cbn.
  split; [|split].
  - unfold shard_path, hex_pair, re_fullmatch. crunch. reflexivity.
  - reflexivity.
  - unfold hex_pairs_to_uid. crunch. reflexivity.
Qed.

(** The pairs of a shard path decode to a canonical unique id, which
    encodes to the relative path of these pairs. *)
Lemma shard_path_uid (segments : list string) :
  shard_path segments = true ->
  exists u,
    canonical_uid u = true
    /\ hex_pairs_to_uid [Py.List segments] = Ok u
    /\ uid_to_dir u = Ok (relative_path segments).
Proof.
  unfold shard_path. intros H. apply andb_true_iff in H as [Hlen H].
  do 17 (destruct segments as [|? segments]; try discriminate Hlen). clear Hlen.
  cbn [forallb] in H. unfold hex_pair in H. split_pairs H. clear H.
  match_inv.
  eexists. split; [|split].
  2:{ unfold hex_pairs_to_uid. crunch. reflexivity. }
  - unfold canonical_uid, re_fullmatch, UID_REGEX. crunch. reflexivity.
  - rewrite uid_to_dir_matched.
    + unfold path_spt. remove_hyphens. reflexivity.
    + unfold re_match, UID_REGEX. crunch. reflexivity.
Qed.

(** The decoder counts the segments before it looks at any of them. *)
Lemma hex_pairs_wrong_count (segments : list string) :
  length segments <> 16 ->
  hex_pairs_to_uid [Py.List segments]
  = Error (ValueError
             ("Paris must have 16 hex pairs to form a valid unique id (length is "
              +:+ Py.str_of_nat (length segments) +:+ ")")).
Proof.
  intros H. unfold hex_pairs_to_uid. cbn [Py.list_star Py.iterate bind].
  apply Nat.eqb_neq in H. now rewrite H.
Qed.

(** The archive of a canonical unique id has a plain name. *)
Lemma canonical_zip_name (u : string) :
  canonical_uid u = true -> is_name (u +:+ ".zip") = true.
Proof.
  intros H. apply re_fullmatch_inv in H. unfold UID_REGEX in H.
  match_inv. unfold is_name. crunch. reflexivity.
Qed.

End codec.

(** C1. For every canonical unique id [u] (8-4-4-4-12 hyphenated hexadecimal,
    either letter case), encoding [u] gives a path whose components decode to
    [u] again, character for character. *)
Theorem uid_round_trip (u : string) :
  canonical_uid u = true ->
  exists path segments,
    uid_to_dir u = Ok path
    /\ split_all path = Some segments
    /\ hex_pairs_to_uid [Py.List segments] = Ok u.
Proof.
  intros H. destruct (canonical_uid_segments u H) as (Hs & Hd & Hu).
  exists (relative_path (path_spt u)), (path_spt u).
  split; [exact Hd|]. split; [|exact Hu].
  destruct (shard_path_names _ Hs) as [Hne Hnames].
  now apply split_all_relative.
Qed.

Lemma uid_round_trip_witness :
  canonical_uid "0F86B938-15a3-4f1e-99b1-8f2b65b37a03" = true
  /\ exists path segments,
      uid_to_dir "0F86B938-15a3-4f1e-99b1-8f2b65b37a03" = Ok path
      /\ split_all path = Some segments
      /\ hex_pairs_to_uid [Py.List segments]
         = Ok "0F86B938-15a3-4f1e-99b1-8f2b65b37a03".
Proof.
  split; [reflexivity|].
  apply (uid_round_trip "0F86B938-15a3-4f1e-99b1-8f2b65b37a03"). reflexivity.
Defined.

(** C2. For every shard path [s] (exactly 16 segments of two hexadecimal
    digits each), decoding [s] gives a unique id whose encoding is the path
    with exactly the components [s]. *)
Theorem shard_round_trip (s : list string) :
  shard_path s = true ->
  exists u path,
    hex_pairs_to_uid [Py.List s] = Ok u
    /\ uid_to_dir u = Ok path
    /\ split_all path = Some s.
Proof.
  intros H. destruct (shard_path_uid s H) as (u & _ & Hu & Hd).
  exists u, (relative_path s). split; [exact Hu|]. split; [exact Hd|].
  destruct (shard_path_names s H) as [Hne Hnames].
  now apply split_all_relative.
Qed.

Lemma shard_round_trip_witness :
  shard_path segments0 = true
  /\ exists u path,
      hex_pairs_to_uid [Py.List segments0] = Ok u
      /\ uid_to_dir u = Ok path
      /\ split_all path = Some segments0.
Proof.
  split; [reflexivity|]. apply (shard_round_trip segments0). reflexivity.
Defined.

(** C3. The decoder checks a segment with a pattern for one hexadecimal
    digit, matched at the start of the segment only: a hexadecimal digit
    followed by anything else, or by nothing, passes, and what is returned is
    no unique id. (A wrong number of segments is refused, see
    [hex_pairs_wrong_count], and so is a segment such as [zz].) *)
Theorem hex_pairs_accepts_bad_pairs :
  hex_pair "0z" = false
  /\ hex_pairs_to_uid
       [Py.List ["0z"; "86"; "b9"; "38"; "15"; "a3"; "4f"; "1e";
                 "99"; "b1"; "8f"; "2b"; "65"; "b3"; "7a"; "03"]]
     = Ok "0z86b938-15a3-4f1e-99b1-8f2b65b37a03"
  /\ hex_pair "0" = false
  /\ hex_pairs_to_uid
       [Py.List ["0"; "86"; "b9"; "38"; "15"; "a3"; "4f"; "1e";
                 "99"; "b1"; "8f"; "2b"; "65"; "b3"; "7a"; "03"]]
     = Ok "086b938-15a3-4f1e-99b1-8f2b65b37a03"
  /\ hex_pairs_to_uid
       [Py.List ["zz"; "86"; "b9"; "38"; "15"; "a3"; "4f"; "1e";
                 "99"; "b1"; "8f"; "2b"; "65"; "b3"; "7a"; "03"]]
     = Error (ValueError "The pair 'zz' is not a valid hexadecimal").
Proof. repeat split; reflexivity. Qed.

(** C4. The encoder matches its pattern at the start of the string and does
    not look at what follows: a canonical unique id with characters after it
    is accepted, and these characters end up in the path. *)
Theorem uid_to_dir_accepts_trailing_text :
  canonical_uid (uid0 +:+ "x") = false
  /\ uid_to_dir (uid0 +:+ "x")
     = Ok "0f/86/b9/38/15/a3/4f/1e/99/b1/8f/2b/65/b3/7a/03/x"
  /\ uid_to_dir "0f86b938-15a3-4f1e-99b1"
     = Error (ValueError "'0f86b938-15a3-4f1e-99b1' is not a valid unique id").
Proof. repeat split; reflexivity. Qed.

(** Strings the pattern does not match at their start are refused. *)
Lemma uid_to_dir_unmatched (u : string) :
  Re.re_match UID_REGEX u = false ->
  uid_to_dir u = Error (ValueError ("'" +:+ u +:+ "' is not a valid unique id")).
Proof. unfold uid_to_dir. now intros ->. Qed.

(** ** Absolute and relative paths *)

(** C5, as stated, fails: the absolute path of the 16 directories splits
    into 17 components, the root first, where the relative path splits into
    the 16; the decoder takes the 16 and refuses the 17. [dir_to_uid], which
    passes the components on as separate arguments, returns a unique id for
    neither path. *)
Lemma absolute_path_not_16_segments :
  split_all (relative_path segments0) = Some segments0
  /\ split_all (absolute_path segments0) = Some ("/" :: segments0)
  /\ hex_pairs_to_uid [Py.List segments0] = Ok uid0
  /\ hex_pairs_to_uid [Py.List ("/" :: segments0)]
     = Error (ValueError
                "Paris must have 16 hex pairs to form a valid unique id (length is 17)")
  /\ dir_to_uid (relative_path segments0)
     = Some (Error (TypeError "list expected at most 1 argument, got 16"))
  /\ dir_to_uid (absolute_path segments0)
     = Some (Error (TypeError "list expected at most 1 argument, got 17")).
Proof. repeat split; reflexivity. Qed.

(** C5, amended. [split_all] gives the ordered components of a path in both
    forms: for every shard path [s], the relative path of the directories [s]
    splits into exactly [s], and the absolute path of the same directories
    splits into the root followed by [s], 17 components. The decoder turns
    the 16 components of the relative path into a canonical unique id, the
    one whose encoding is that relative path, and refuses the 17 of the
    absolute path for their number: the two forms do not yield the same
    unique id. *)
Theorem split_all_relative_and_absolute (s : list string) :
  shard_path s = true ->
  split_all (relative_path s) = Some s
  /\ split_all (absolute_path s) = Some ("/" :: s)
  /\ (exists u,
        canonical_uid u = true
        /\ hex_pairs_to_uid [Py.List s] = Ok u
        /\ uid_to_dir u = Ok (relative_path s))
  /\ hex_pairs_to_uid [Py.List ("/" :: s)]
     = Error (ValueError
                "Paris must have 16 hex pairs to form a valid unique id (length is 17)").
Proof.
  intros H. destruct (shard_path_names s H) as [Hne Hnames].
  split; [now apply split_all_relative|].
  split; [now apply split_all_absolute|].
  split.
  - exact (shard_path_uid s H).
  - unfold shard_path in H. apply andb_true_iff in H as [Hlen _].
    apply Nat.eqb_eq in Hlen.
    rewrite hex_pairs_wrong_count; cbn [length]; rewrite Hlen; [reflexivity | lia].
Qed.

Lemma split_all_relative_and_absolute_witness :
  shard_path segments0 = true
  /\ split_all (relative_path segments0) = Some segments0
  /\ split_all (absolute_path segments0) = Some ("/" :: segments0)
  /\ (exists u,
        canonical_uid u = true
        /\ hex_pairs_to_uid [Py.List segments0] = Ok u
        /\ uid_to_dir u = Ok (relative_path segments0))
  /\ hex_pairs_to_uid [Py.List ("/" :: segments0)]
     = Error (ValueError
                "Paris must have 16 hex pairs to form a valid unique id (length is 17)").
Proof.
  split; [reflexivity|].
  apply (split_all_relative_and_absolute segments0). reflexivity.
Defined.

(** ** The catalog query *)

Section like.

Import catalog.

Lemma append_empty_r (a : string) : a +:+ EmptyString = a.
Proof. induction a as [|x a IH]; simpl; [reflexivity | now rewrite IH]. Qed.

Lemma append_assoc (a b c : string) : (a +:+ b) +:+ c = a +:+ (b +:+ c).
Proof. induction a as [|x a IH]; simpl; [reflexivity | now rewrite IH]. Qed.

(** *** The equations of [MatchText] *)

Lemma MatchText_end (t : string) :
  MatchText EmptyString t
  = match t with EmptyString => LIKE_TRUE | String _ _ => LIKE_FALSE end.
Proof. reflexivity. Qed.

Lemma MatchText_text_end (c : ascii) (p : string) :
  MatchText (String c p) EmptyString
  = if all_percent (String c p) then LIKE_TRUE else LIKE_ABORT.
Proof. reflexivity. Qed.

Lemma MatchText_cons (c : ascii) (p : string) (d : ascii) (t : string) :
  MatchText (String c p) (String d t)
  = if Ascii.eqb c "\" then
      match p with
      | EmptyString => LIKE_ERROR
      | String q p' => if Ascii.eqb q d then MatchText p' t else LIKE_FALSE
      end
    else if Ascii.eqb c "%" then after_percent p (String d t)
    else if Ascii.eqb c "_" then MatchText p t
    else if Ascii.eqb c d then MatchText p t
    else LIKE_FALSE.
Proof. reflexivity. Qed.

Lemma after_percent_cons (c : ascii) (p t : string) :
  after_percent (String c p) t
  = if Ascii.eqb c "%" then after_percent p t
    else if Ascii.eqb c "_" then
      match t with
      | EmptyString => LIKE_ABORT
      | String _ t' => after_percent p t'
      end
    else if Ascii.eqb c "\" then
      match p with
      | EmptyString => LIKE_ERROR
      | String q _ => scan (MatchText (String c p)) q t
      end
    else scan (MatchText (String c p)) c t.
Proof. reflexivity. Qed.

(** *** The relation [sql_like] *)

Lemma sql_like_cons_inv (c : ascii) (p t : string) :
  sql_like (String c p) t ->
  (c = "%"%char /\ exists t1 t2, t = t1 +:+ t2 /\ sql_like p t2)
  \/ (c = "_"%char /\ exists d t', t = String d t' /\ sql_like p t')
  \/ (c = "\"%char
      /\ exists q p' t', p = String q p' /\ t = String q t' /\ sql_like p' t')
  \/ (special c = false /\ exists t', t = String c t' /\ sql_like p t').
Proof.
  intros H. inversion H; subst.
  - left. eauto.
  - right. left. eauto.
  - right. right. left. eauto 7.
  - right. right. right. eauto.
Qed.

Lemma sql_like_percent_inv (p t : string) :
  sql_like (String "%" p) t -> exists t1 t2, t = t1 +:+ t2 /\ sql_like p t2.
Proof.
  intros H. apply sql_like_cons_inv in H as [[_ H]|[[E _]|[[E _]|[E _]]]];
    [exact H | discriminate..].
Qed.

Lemma sql_like_underscore_inv (p t : string) :
  sql_like (String "_" p) t -> exists d t', t = String d t' /\ sql_like p t'.
Proof.
  intros H. apply sql_like_cons_inv in H as [[E _]|[[_ H]|[[E _]|[E _]]]];
    [discriminate | exact H | discriminate..].
Qed.

Lemma sql_like_escape_inv (p t : string) :
  sql_like (String "\" p) t ->
  exists q p' t', p = String q p' /\ t = String q t' /\ sql_like p' t'.
Proof.
  intros H. apply sql_like_cons_inv in H as [[E _]|[[E _]|[[_ H]|[E _]]]];
    [discriminate.. | exact H | discriminate].
Qed.

Lemma sql_like_char_inv (c : ascii) (p t : string) :
  special c = false ->
  sql_like (String c p) t -> exists t', t = String c t' /\ sql_like p t'.
Proof.
  intros Hc H.
  apply sql_like_cons_inv in H as [[E _]|[[E _]|[[E _]|[_ H]]]];
    [subst; discriminate.. | exact H].
Qed.

Lemma sql_like_end_inv (t : string) : sql_like EmptyString t -> t = EmptyString.
Proof. intros H. now inversion H. Qed.

Lemma sql_like_empty_text (p : string) :
  sql_like p EmptyString -> all_percent p = true.
Proof.
  intros H. remember EmptyString as t eqn:E.
  induction H as [|p t1 t2 H IH| | |]; try discriminate; [reflexivity|].
  destruct t1; [|discriminate]. cbn. now apply IH.
Qed.

Lemma all_percent_sql_like (p : string) :
  all_percent p = true -> sql_like p EmptyString.
Proof.
  induction p as [|c p IH]; cbn; intros H; [constructor|].
  apply andb_true_iff in H as [Hc Hp]. apply Ascii.eqb_eq in Hc. subst c.
  exact (sql_like_percent p EmptyString EmptyString (IH Hp)).
Qed.

Lemma sql_like_percent_here (p t : string) :
  sql_like p t -> sql_like (String "%" p) t.
Proof. exact (sql_like_percent p EmptyString t). Qed.

Lemma sql_like_percent_cons (p t : string) (d : ascii) :
  sql_like (String "%" p) t -> sql_like (String "%" p) (String d t).
Proof.
  intros H. apply sql_like_percent_inv in H as (t1 & t2 & -> & H).
  exact (sql_like_percent p (String d t1) t2 H).
Qed.

Lemma sql_like_percent_app (p a t : string) :
  sql_like (String "%" p) t -> sql_like (String "%" p) (a +:+ t).
Proof.
  intros H. induction a as [|x a IH]; [exact H|].
  cbn. now apply sql_like_percent_cons.
Qed.

(** A text the pattern [%p] matches is the text itself matched by [p], or
    one character followed by a text that [%p] matches. *)
Lemma sql_like_percent_cases (p : string) (d : ascii) (t : string) :
  sql_like (String "%" p) (String d t) ->
  sql_like p (String d t) \/ sql_like (String "%" p) t.
Proof.
  intros H. apply sql_like_percent_inv in H as (t1 & t2 & E & H).
  destruct t1 as [|x t1]; cbn in E.
  - left. now rewrite E.
  - right. injection E as _ ->. exact (sql_like_percent p t1 t2 H).
Qed.

Lemma sql_like_percent_percent (p t : string) :
  sql_like (String "%" (String "%" p)) t <-> sql_like (String "%" p) t.
Proof.
  split; intros H.
  - apply sql_like_percent_inv in H as (t1 & t2 & -> & H).
    now apply sql_like_percent_app.
  - now apply sql_like_percent_here.
Qed.

Lemma sql_like_percent_underscore (p t : string) :
  sql_like (String "%" (String "_" p)) t <-> sql_like (String "_" (String "%" p)) t.
Proof.
  split; intros H.
  - apply sql_like_percent_inv in H as (t1 & t2 & -> & H).
    apply sql_like_underscore_inv in H as (c & t' & -> & H).
    destruct t1 as [|x t1]; cbn.
    + constructor. now apply sql_like_percent_here.
    + constructor.
      replace (t1 +:+ String c t') with ((t1 +:+ String c EmptyString) +:+ t')
        by (now rewrite append_assoc).
      now constructor.
  - apply sql_like_underscore_inv in H as (d & t' & -> & H).
    apply sql_like_percent_inv in H as (t1 & t2 & -> & H).
    revert d. induction t1 as [|x t1 IH]; intros d; cbn.
    + apply sql_like_percent_here. now constructor.
    + apply sql_like_percent_cons. apply IH.
Qed.

(** *** Ends of a text *)

Lemma is_suffix_refl (t : string) : is_suffix t t.
Proof. now exists EmptyString. Qed.

Lemma is_suffix_cons (t' t : string) (d : ascii) :
  is_suffix t' t -> is_suffix t' (String d t).
Proof. intros [a ->]. now exists (String d a). Qed.

Lemma is_suffix_cons_inv (t' t : string) (d : ascii) :
  is_suffix t' (String d t) -> t' = String d t \/ is_suffix t' t.
Proof.
  intros [a E]. destruct a as [|x a]; cbn in E.
  - now left.
  - right. injection E as _ ->. now exists a.
Qed.

Lemma is_suffix_empty (t' : string) : is_suffix t' EmptyString -> t' = EmptyString.
Proof. intros [a E]. destruct a; [now cbn in E | discriminate]. Qed.

Lemma is_suffix_trans (a b c : string) :
  is_suffix a b -> is_suffix b c -> is_suffix a c.
Proof. intros [x ->] [y ->]. exists (y +:+ x). now rewrite append_assoc. Qed.

Lemma is_suffix_app (a t : string) : is_suffix t (a +:+ t).
Proof. now exists a. Qed.

(** A text and its tail: an end of the text without its first character is
    an end of the tail. *)
Lemma is_suffix_tail (c d : ascii) (s t : string) :
  is_suffix (String c s) (String d t) -> is_suffix s t.
Proof.
  intros H. apply is_suffix_cons_inv in H as [[= _ ->]|H].
  - apply is_suffix_refl.
  - apply (is_suffix_trans _ (String c s)); [|exact H].
    now exists (String c EmptyString).
Qed.

(** *** [MatchText] decides [sql_like] *)

(** The search for a place to go on from. *)
Lemma scan_decides (q : string) (firstpat : ascii) (rest : string -> like_result) :
  (forall s, sql_like q s -> exists s', s = String firstpat s') ->
  (forall t, decides q t (rest t)) ->
  forall t, decides (String "%" q) t (scan rest firstpat t).
Proof.
  intros Hfirst Hrest t. induction t as [|d t IH].
  - cbn. intros t' Hs H. apply is_suffix_empty in Hs as ->.
    apply sql_like_percent_inv in H as (t1 & t2 & E & H).
    destruct t1; [|discriminate]. cbn in E. subst t2.
    now destruct (Hfirst _ H).
  - cbn [scan].
    assert (Hgo : (rest (String d t) = LIKE_FALSE \/ Ascii.eqb d firstpat = false) ->
                  decides (String "%" q) (String d t) (scan rest firstpat t)).
    { intros Hno.
      assert (Hhere : ~ sql_like q (String d t)).
      { destruct Hno as [E|E].
        - specialize (Hrest (String d t)). now rewrite E in Hrest.
        - intros H. destruct (Hfirst _ H) as [s' [= -> _]].
          now rewrite Ascii.eqb_refl in E. }
      destruct (scan rest firstpat t); cbn in *.
      - now apply sql_like_percent_cons.
      - intros H. apply sql_like_percent_cases in H as [H|H];
          [exact (Hhere H) | exact (IH H)].
      - intros t' Hs H. apply is_suffix_cons_inv in Hs as [->|Hs].
        + apply sql_like_percent_cases in H as [H|H]; [now apply Hhere|].
          exact (IH t (is_suffix_refl t) H).
        + exact (IH t' Hs H).
      - exact I. }
    destruct (Ascii.eqb d firstpat) eqn:Ed; [|apply Hgo; now right].
    pose proof (Hrest (String d t)) as Hr.
    destruct (rest (String d t)) eqn:Er; cbn in Hr |- *.
    + now apply sql_like_percent_here.
    + apply Hgo. now left.
    + intros t' Hs H. apply sql_like_percent_inv in H as (t1 & t2 & -> & H).
      apply (Hr t2); [|exact H].
      exact (is_suffix_trans _ _ _ (is_suffix_app t1 t2) Hs).
    + exact I.
Qed.

Lemma after_percent_decides (n : nat) :
  (forall q, String.length q <= n -> forall t, decides q t (MatchText q t)) ->
  forall q, String.length q <= n ->
            forall t, decides (String "%" q) t (after_percent q t).
Proof.
  intros IHn q. induction q as [|c q IH]; intros Hlen t.
  - cbn. rewrite <- (append_empty_r t). constructor. constructor.
  - rewrite after_percent_cons. cbn [String.length] in Hlen.
    destruct (Ascii.eqb_spec c "%") as [->|Hpc].
    { specialize (IH ltac:(lia) t).
      destruct (after_percent q t); cbn in *.
      - now apply (proj2 (sql_like_percent_percent q t)).
      - intros H. apply IH. now apply (proj1 (sql_like_percent_percent q t)).
      - intros t' Hs H. apply (proj1 (sql_like_percent_percent q t')) in H.
        exact (IH t' Hs H).
      - exact I. }
    destruct (Ascii.eqb_spec c "_") as [->|Hus].
    { destruct t as [|d t].
      - cbn. intros t' Hs H. apply is_suffix_empty in Hs as ->.
        apply (proj1 (sql_like_percent_underscore q _)) in H.
        apply sql_like_underscore_inv in H as (? & ? & ? & _). discriminate.
      - specialize (IH ltac:(lia) t).
        destruct (after_percent q t); cbn in *.
        + apply (proj2 (sql_like_percent_underscore q _)). now constructor.
        + intros H. apply (proj1 (sql_like_percent_underscore q _)) in H.
          apply sql_like_underscore_inv in H as (? & ? & [= _ <-] & H). auto.
        + intros t' Hs H. apply (proj1 (sql_like_percent_underscore q _)) in H.
          apply sql_like_underscore_inv in H as (x & s & -> & H).
          exact (IH s (is_suffix_tail _ _ _ _ Hs) H).
        + exact I. }
    destruct (Ascii.eqb_spec c "\") as [->|Hbs].
    { destruct q as [|q0 q]; [exact I|].
      apply scan_decides.
      - intros s H. apply sql_like_escape_inv in H as (? & ? & ? & [= <- _] & -> & _).
        eauto.
      - apply IHn. exact Hlen. }
    apply scan_decides.
    + intros s H. apply sql_like_char_inv in H as (s' & -> & _); [eauto|].
      unfold special. apply Ascii.eqb_neq in Hpc, Hus, Hbs.
      now rewrite Hpc, Hus, Hbs.
    + apply IHn. exact Hlen.
Qed.

Lemma MatchText_decides_upto (n : nat) :
  forall p, String.length p <= n -> forall t, decides p t (MatchText p t).
Proof.
  induction n as [|n IH]; intros p Hlen t.
  - destruct p; [|cbn in Hlen; lia].
    destruct t; cbn; [constructor | intros H; inversion H].
  - destruct p as [|c p]; [destruct t; cbn; [constructor | intros H; inversion H]|].
    cbn [String.length] in Hlen. assert (Hp : String.length p <= n) by lia.
    destruct t as [|d t].
    { rewrite MatchText_text_end. destruct (all_percent (String c p)) eqn:A; cbn.
      - now apply all_percent_sql_like.
      - intros t' Hs H. apply is_suffix_empty in Hs as ->.
        apply sql_like_empty_text in H. congruence. }
    rewrite MatchText_cons.
    assert (Hstep : forall c', (forall s, sql_like (String c p) s ->
                                  exists x s', s = String x s' /\ sql_like p s') ->
                    (forall s', sql_like p s' -> sql_like (String c p) (String c' s')) ->
                    c' = d ->
                    decides (String c p) (String d t) (MatchText p t)).
    { intros c' Hinv Hintro ->. specialize (IH p Hp t).
      destruct (MatchText p t); cbn in *.
      - now apply Hintro.
      - intros H. destruct (Hinv _ H) as (x & s' & [= _ <-] & H'). auto.
      - intros t' Hs H. destruct (Hinv _ H) as (x & s' & -> & H').
        exact (IH s' (is_suffix_tail _ _ _ _ Hs) H').
      - exact I. }
    destruct (Ascii.eqb_spec c "\") as [->|Hbs].
    { destruct p as [|q p]; [exact I|].
      destruct (Ascii.eqb_spec q d) as [->|Hq].
      - cbn [String.length] in Hp. specialize (IH p ltac:(lia) t).
        destruct (MatchText p t); cbn in *.
        + now constructor.
        + intros H. apply sql_like_escape_inv in H
            as (? & ? & ? & [= <- <-] & [= <-] & H). auto.
        + intros t' Hs H. apply sql_like_escape_inv in H
            as (? & ? & s' & [= <- <-] & -> & H).
          exact (IH s' (is_suffix_tail _ _ _ _ Hs) H).
        + exact I.
      - cbn. intros H. apply sql_like_escape_inv in H
          as (? & ? & ? & [= <- <-] & [= <-] & _). congruence. }
    destruct (Ascii.eqb_spec c "%") as [->|Hpc].
    { apply (after_percent_decides n IH p Hp). }
    destruct (Ascii.eqb_spec c "_") as [->|Hus].
    { apply (Hstep d); [|now constructor | reflexivity].
      intros s H. apply sql_like_underscore_inv in H as (x & s' & -> & H). eauto. }
    assert (Hc : special c = false).
    { unfold special. apply Ascii.eqb_neq in Hpc, Hus, Hbs.
      now rewrite Hpc, Hus, Hbs. }
    destruct (Ascii.eqb_spec c d) as [->|Hcd].
    { apply (Hstep d); [|now constructor | reflexivity].
      intros s H. apply sql_like_char_inv in H as (s' & -> & H); eauto. }
    cbn. intros H. apply sql_like_char_inv in H as (s' & [= E _] & _); auto.
Qed.

Lemma MatchText_decides (p t : string) : decides p t (MatchText p t).
Proof. exact (MatchText_decides_upto (String.length p) p (le_n _) t). Qed.

(** *** Patterns that cannot fail *)

Lemma scan_no_error (rest : string -> like_result) (firstpat : ascii) :
  (forall t, rest t <> LIKE_ERROR) ->
  forall t, scan rest firstpat t <> LIKE_ERROR.
Proof.
  intros Hrest t. induction t as [|d t IH]; [discriminate|].
  cbn [scan]. destruct (Ascii.eqb d firstpat); [|exact IH].
  specialize (Hrest (String d t)).
  destruct (rest (String d t)); try discriminate; [exact IH | congruence].
Qed.

Lemma after_percent_no_error (n : nat) :
  (forall q, String.length q <= n -> escape_safe q = true ->
             forall t, MatchText q t <> LIKE_ERROR) ->
  forall q, String.length q <= n -> escape_safe q = true ->
            forall t, after_percent q t <> LIKE_ERROR.
Proof.
  intros IHn q. induction q as [|c q IH]; intros Hlen Hsafe t; [discriminate|].
  rewrite after_percent_cons. cbn [String.length] in Hlen.
  pose proof Hsafe as Hq. cbn [escape_safe] in Hq.
  destruct (Ascii.eqb_spec c "%") as [->|Hpc]; [apply IH; [lia | exact Hq]|].
  destruct (Ascii.eqb_spec c "_") as [->|Hus].
  { destruct t; [discriminate | apply IH; [lia | exact Hq]]. }
  destruct (Ascii.eqb c "\").
  - destruct q as [|q0 q]; [discriminate|]. apply scan_no_error. now apply IHn.
  - apply scan_no_error. now apply IHn.
Qed.

Lemma MatchText_no_error_upto (n : nat) :
  forall p, String.length p <= n -> escape_safe p = true ->
            forall t, MatchText p t <> LIKE_ERROR.
Proof.
  induction n as [|n IH]; intros p Hlen Hsafe t.
  - destruct p; [|cbn in Hlen; lia]. now destruct t.
  - destruct p as [|c p]; [now destruct t|].
    cbn [String.length] in Hlen. assert (Hp : String.length p <= n) by lia.
    destruct t as [|d t].
    { rewrite MatchText_text_end. now destruct (all_percent _). }
    rewrite MatchText_cons. cbn [escape_safe] in Hsafe.
    destruct (Ascii.eqb c "\").
    { destruct p as [|q p]; [discriminate|]. cbn [String.length] in Hp.
      destruct (Ascii.eqb q d); [apply IH; [lia | exact Hsafe] | discriminate]. }
    destruct (Ascii.eqb c "%").
    { now apply (after_percent_no_error n IH). }
    destruct (Ascii.eqb c "_"); [now apply IH|].
    destruct (Ascii.eqb c d); [now apply IH | discriminate].
Qed.

Lemma MatchText_no_error (p t : string) :
  escape_safe p = true -> MatchText p t <> LIKE_ERROR.
Proof.
  intros H. exact (MatchText_no_error_upto (String.length p) p (le_n _) H t).
Qed.

(** *** [like] *)

(** Where [like] answers, its answer is that of [sql_like]. *)
Lemma like_sql_like (p t : string) (b : bool) :
  like p t = Ok b -> (b = true <-> sql_like p t).
Proof.
  unfold like. pose proof (MatchText_decides p t) as H.
  destruct (MatchText p t); cbn in H; intros [= <-].
  - tauto.
  - split; [discriminate | tauto].
  - split; [discriminate|]. intros Hl. exfalso.
    exact (H t (is_suffix_refl t) Hl).
Qed.

Lemma like_safe (p t : string) :
  escape_safe p = true -> exists b, like p t = Ok b.
Proof.
  intros H. pose proof (MatchText_no_error p t H) as Hne. unfold like.
  destruct (MatchText p t); eauto. congruence.
Qed.

Lemma like_error (p t : string) (e : exn) :
  like p t = Error e ->
  e = InvalidEscapeSequence "LIKE pattern must not end with escape character"
  /\ escape_safe p = false.
Proof.
  intros H. split.
  - unfold like in H. destruct (MatchText p t); congruence.
  - destruct (escape_safe p) eqn:E; [|reflexivity].
    destruct (like_safe p t E) as [b Hb]. congruence.
Qed.

Lemma like_true (p t : string) :
  escape_safe p = true -> (like p t = Ok true <-> sql_like p t).
Proof.
  intros H. destruct (like_safe p t H) as [b Hb].
  pose proof (like_sql_like p t b Hb) as Hs. rewrite Hb. split.
  - intros [= ->]. now apply Hs.
  - intros Hl. f_equal. now apply Hs.
Qed.

Lemma literal_pattern_safe (pattern : string) :
  literal_pattern pattern = true -> escape_safe pattern = true.
Proof.
  induction pattern as [|c pattern IH]; [reflexivity|].
  cbn [literal_pattern escape_safe]. intros H.
  apply andb_true_iff in H as [H Hrest]. apply andb_true_iff in H as [_ H3].
  apply negb_true_iff in H3. rewrite H3. auto.
Qed.

(** A pattern without wildcards and backslash matches itself only. *)
Lemma sql_like_literal (pattern : string) :
  literal_pattern pattern = true ->
  forall s, sql_like pattern s <-> s = pattern.
Proof.
  induction pattern as [|c pattern IH]; intros Hlit s.
  - split; [apply sql_like_end_inv | intros ->; constructor].
  - cbn in Hlit.
    apply andb_true_iff in Hlit as [Hlit Hrest].
    apply andb_true_iff in Hlit as [Hlit H3].
    apply andb_true_iff in Hlit as [H1 H2].
    apply negb_true_iff in H1, H2, H3.
    assert (Hc : special c = false) by (unfold special; now rewrite H1, H2, H3).
    split.
    + intros H. apply (sql_like_char_inv c _ _ Hc) in H as (s' & -> & H).
      f_equal. now apply IH.
    + intros ->. constructor; [exact Hc | now apply IH].
Qed.

Lemma like_literal (pattern : string) :
  literal_pattern pattern = true ->
  forall s, like pattern s = Ok true <-> s = pattern.
Proof.
  intros H s. rewrite (like_true _ _ (literal_pattern_safe _ H)).
  now apply sql_like_literal.
Qed.

Lemma like_finished (s : string) : like "finished" s = Ok true <-> s = "finished".
Proof. apply like_literal. reflexivity. Qed.

Lemma sql_like_any (s : string) : sql_like "%" s.
Proof. rewrite <- (append_empty_r s). constructor. constructor. Qed.

Lemma sql_like_one (s : string) : sql_like "_" s <-> String.length s = 1.
Proof.
  split.
  - intros H. apply sql_like_underscore_inv in H as (d & t & -> & H).
    apply sql_like_end_inv in H as ->. reflexivity.
  - destruct s as [|c [|d s]]; try discriminate. intros _.
    constructor. constructor.
Qed.

Lemma like_percent (s : string) : like "%" s = Ok true.
Proof. apply (like_true "%" s eq_refl), sql_like_any. Qed.

Lemma like_underscore (s : string) : like "_" s = Ok true <-> String.length s = 1.
Proof. rewrite (like_true "_" s eq_refl). apply sql_like_one. Qed.

End like.

Section query.

Import catalog entry_point.

Lemma select_where_ok (condition : joined -> result bool) (rows : list joined) :
  forall kept,
    select_where condition rows = Ok kept ->
    (forall j, In j rows -> exists b, condition j = Ok b)
    /\ (forall j, In j kept <-> In j rows /\ condition j = Ok true).
Proof.
  induction rows as [|j0 rows IH]; intros kept H.
  - injection H as <-. split; [intros j [] | intros j; split; [intros [] | tauto]].
  - cbn [select_where] in H. destruct (condition j0) as [b|e] eqn:E; [|discriminate].
    cbn [bind] in H.
    destruct (select_where condition rows) as [kept'|e]; [|discriminate].
    injection H as <-. destruct (IH kept' eq_refl) as [Hall Hin]. split.
    + intros j [<-|Hj]; eauto.
    + intros j. destruct b; cbn [In]; rewrite Hin; split.
      * intros [<-|[? ?]]; auto.
      * intros [[<-|?] ?]; auto.
      * intros [? ?]; auto.
      * intros [[<-|?] ?]; [congruence | auto].
Qed.

Lemma select_where_error (condition : joined -> result bool) (rows : list joined)
  (e : exn) :
  select_where condition rows = Error e ->
  exists j, In j rows /\ condition j = Error e.
Proof.
  induction rows as [|j0 rows IH]; [discriminate|]. cbn [select_where].
  destruct (condition j0) as [b|e0] eqn:E.
  - cbn [bind]. destruct (select_where condition rows) as [kept|e1]; [discriminate|].
    intros [= <-]. destruct (IH eq_refl) as (j & Hj & He). exists j.
    split; [now right | exact He].
  - intros [= <-]. exists j0. split; [now left | exact E].
Qed.

Lemma select_where_total (condition : joined -> result bool) (rows : list joined) :
  (forall j, In j rows -> exists b, condition j = Ok b) ->
  exists kept, select_where condition rows = Ok kept.
Proof.
  intros H. destruct (select_where condition rows) as [kept|e] eqn:E; [eauto|].
  apply select_where_error in E as (j & Hj & He).
  destruct (H j Hj) as [b Hb]. congruence.
Qed.

(** The [where] clause holds of a row when the three names match. *)
Lemma where_clause_true (db_user project_name : string) (j : joined) :
  (exists b, where_clause db_user project_name "finished" j = Ok b) ->
  (where_clause db_user project_name "finished" j = Ok true <->
   sql_like db_user (db_user_user_name (j_db_user j))
   /\ sql_like project_name (project_name_ (j_project j))
   /\ running_status_name (j_running_status j) = "finished").
Proof.
  unfold where_clause. intros [b Hb].
  destruct (like db_user _) as [b1|e1] eqn:E1; [|discriminate]. cbn [bind] in *.
  pose proof (like_sql_like _ _ _ E1) as H1.
  destruct b1; cbn [negb] in *.
  2:{ split; [discriminate|]. intros (H & _). apply H1 in H. discriminate. }
  destruct (like project_name _) as [b2|e2] eqn:E2; [|discriminate]. cbn [bind] in *.
  pose proof (like_sql_like _ _ _ E2) as H2.
  destruct b2; cbn [negb] in *.
  2:{ split; [discriminate|]. intros (_ & H & _). apply H2 in H. discriminate. }
  rewrite like_finished. split; [intros H|tauto].
  split; [now apply H1|]. split; [now apply H2 | exact H].
Qed.

Lemma where_clause_error (db_user project_name : string) (j : joined) (e : exn) :
  where_clause db_user project_name "finished" j = Error e ->
  e = InvalidEscapeSequence "LIKE pattern must not end with escape character"
  /\ (escape_safe db_user = false \/ escape_safe project_name = false).
Proof.
  unfold where_clause.
  destruct (like db_user _) as [b1|e1] eqn:E1; cbn [bind].
  2:{ intros [= <-]. apply like_error in E1 as [-> H]. auto. }
  destruct b1; cbn [negb]; [|discriminate].
  destruct (like project_name _) as [b2|e2] eqn:E2; cbn [bind].
  2:{ intros [= <-]. apply like_error in E2 as [-> H]. auto. }
  destruct b2; cbn [negb]; [|discriminate].
  intros H. apply like_error in H as [_ H]. discriminate.
Qed.

Lemma where_clause_total (db_user project_name : string) (j : joined) :
  escape_safe db_user = true -> escape_safe project_name = true ->
  exists b, where_clause db_user project_name "finished" j = Ok b.
Proof.
  intros Hu Hp.
  destruct (where_clause db_user project_name "finished" j) as [b|e] eqn:E; [eauto|].
  apply where_clause_error in E as [_ [E|E]]; congruence.
Qed.

End query.

(** C9. [get_models_by_user_project] returns exactly the selected columns of
    the joined rows whose running status name is [finished], whatever the two
    inputs are, and whose user name and project name match the inputs as SQL
    [LIKE] patterns ([sql_like]), in which [%] matches every text and [_]
    exactly the texts of one character. It returns for all inputs in which
    every backslash has a character after it and the character of code 0
    does not occur; when it raises, it raises [ValueError] for that
    character or the catalog's error for a pattern that ends in a lone
    backslash. What [like] answers is what [sql_like] says. *)
Theorem fetch_models_contract (db_user project_name : string)
  (conn : catalog.database) :
  let fetched := entry_point.get_models_by_user_project db_user project_name conn in
  let matching (r : entry_point.row) :=
    exists j,
      In j (catalog.inner_joins conn) /\ entry_point.select j = r
      /\ catalog.running_status_name (catalog.j_running_status j) = "finished"
      /\ catalog.sql_like db_user (catalog.db_user_user_name (catalog.j_db_user j))
      /\ catalog.sql_like project_name
           (catalog.project_name_ (catalog.j_project j)) in
  (forall rows, fetched = Ok rows -> forall r, In r rows <-> matching r)
  /\ (entry_point.has_nul db_user = false ->
      entry_point.has_nul project_name = false ->
      catalog.escape_safe db_user = true ->
      catalog.escape_safe project_name = true ->
      exists rows, fetched = Ok rows)
  /\ (forall e,
        fetched = Error e ->
        (e = ValueError "A string literal cannot contain NUL (0x00) characters."
         /\ (entry_point.has_nul db_user = true
             \/ entry_point.has_nul project_name = true))
        \/ (e = InvalidEscapeSequence
                  "LIKE pattern must not end with escape character"
            /\ (catalog.escape_safe db_user = false
                \/ catalog.escape_safe project_name = false)))
  /\ (forall s, catalog.sql_like "%" s)
  /\ (forall s, catalog.sql_like "_" s <-> String.length s = 1)
  /\ (forall pattern s b,
        catalog.like pattern s = Ok b -> (b = true <-> catalog.sql_like pattern s))
  /\ (forall pattern s,
        catalog.escape_safe pattern = true -> exists b, catalog.like pattern s = Ok b).
Proof.
  intros fetched matching.
  split; [|split; [|split; [|split; [exact sql_like_any|
    split; [exact sql_like_one | split; [exact like_sql_like | exact like_safe]]]]]].
  - intros rows H r. unfold fetched, entry_point.get_models_by_user_project in H.
    destruct (_ || _); [discriminate|].
    destruct (catalog.select_where _ _) as [kept|e] eqn:E; [|discriminate].
    injection H as <-. destruct (select_where_ok _ _ _ E) as [Hall Hin].
    rewrite in_map_iff. split.
    + intros (j & Hsel & Hj). apply Hin in Hj as [Hj Hw].
      apply where_clause_true in Hw as (Hu & Hp & Hs); [|eauto].
      exists j. auto.
    + intros (j & Hj & Hsel & Hs & Hu & Hp). exists j. split; [exact Hsel|].
      apply Hin. split; [exact Hj|].
      apply where_clause_true; [now apply Hall | auto].
  - intros Hn1 Hn2 Hu Hp. unfold fetched, entry_point.get_models_by_user_project.
    rewrite Hn1, Hn2. cbn [orb].
    destruct (select_where_total
                (catalog.where_clause db_user project_name "finished")
                (catalog.inner_joins conn)) as [kept ->]; [|cbn; eauto].
    intros j _. now apply where_clause_total.
  - intros e H. unfold fetched, entry_point.get_models_by_user_project in H.
    destruct (entry_point.has_nul db_user) eqn:N1;
      [injection H as <-; left; auto|].
    destruct (entry_point.has_nul project_name) eqn:N2;
      [injection H as <-; left; auto|].
    cbn [orb] in H.
    destruct (catalog.select_where _ _) as [kept|e'] eqn:E; [discriminate|].
    injection H as <-. apply select_where_error in E as (j & _ & E).
    right. exact (where_clause_error _ _ _ _ E).
Qed.

(** ** The export *)

Section export.

Import os catalog entry_point.

Lemma append_row_filled (r : row) (done : list row) :
  append_row r (filled done) = Ok (filled (done ++ [r])).
Proof. unfold filled. rewrite !map_app. reflexivity. Qed.

Lemma fill_filled (rows : list row) :
  forall done, fill rows (filled done) = Ok (filled (done ++ rows)).
Proof.
  induction rows as [|r rows IH]; intros done.
  - now rewrite app_nil_r.
  - cbn [fill]. rewrite append_row_filled. cbn [bind].
    rewrite IH, <- app_assoc. reflexivity.
Qed.

Lemma fill_empty (rows : list row) : fill rows empty_df_dict = Ok (filled rows).
Proof. exact (fill_filled rows []). Qed.

Lemma from_dict_filled (rows : list row) :
  from_dict (filled rows)
  = Ok (DataFrame COLUMNS (map snd (filled rows)) (seq 0 (length rows))).
Proof.
  unfold from_dict, filled. cbn [forallb snd map fst].
  rewrite !length_map, Nat.eqb_refl. reflexivity.
Qed.

Lemma csv_records_filled (rows : list row) :
  csv_records (DataFrame COLUMNS (map snd (filled rows)) (seq 0 (length rows)))
  = export_records rows.
Proof.
  unfold csv_records, export_records. cbn [columns series index]. f_equal.
  apply list_eq. intros i.
  rewrite list_lookup_fmap, list_lookup_imap.
  destruct (rows !! i) as [r|] eqn:E.
  - rewrite lookup_seq_lt by (eapply lookup_lt_Some; eauto). cbn.
    unfold row_cells.
    repeat match goal with
      | |- context [nth i (map ?f rows) ?d] =>
          rewrite (nth_lookup_Some (map f rows) i d (f r))
            by (rewrite list_lookup_fmap, E; reflexivity)
      end.
    reflexivity.
  - rewrite lookup_seq_ge by (apply lookup_ge_None; exact E). reflexivity.
Qed.

Lemma write_file_can_create (name content : string) (w : world) :
  can_create name w = true ->
  write_file name content w
  = (Ok tt, World (<[name := File content]> (fs w)) (stdout w)).
Proof.
  unfold can_create, write_file. cbv zeta.
  destruct (Py.endswith posixpath.sep name); [discriminate|]. cbn [negb andb].
  destruct (stat name w) as [[|]|]; try discriminate; try reflexivity.
  now destruct (parent_error name w).
Qed.



End export.

Section lines.

Import os catalog entry_point.

Variable format_cell : cell -> string.




(** *** Reading the text back *)







Lemma plain_cells_one_line (records : list (list cell)) :
  plain_cells format_cell records = true ->
  one_line_cells format_cell records = true.
Proof.
  unfold plain_cells, one_line_cells. rewrite !forallb_forall.
  intros H record Hin. specialize (H record Hin).
  rewrite forallb_forall in *. intros c Hc.
  specialize (H c Hc). now apply andb_true_iff in H as [_ H].
Qed.

End lines.

Section export_contract.

Import os catalog entry_point.

Variable format_cell : cell -> string.
Variable other_target : dataframe -> string -> io unit.

(** [model_stats] up to the writing of the file. *)
Lemma model_stats_to_csv (db_user project_name output_csv : string)
  (conn : database) (w : world) (rows : list row) :
  get_models_by_user_project db_user project_name conn = Ok rows ->
  plain_target output_csv = true ->
  model_stats format_cell other_target db_user project_name output_csv conn w
  = let wp := World (fs w) (stdout w ++ [Printed (retrieved_message rows)]) in
    match check_parent_directory output_csv wp with
    | (Ok _, w1) =>
        match write_file output_csv (csv_text format_cell (export_records rows)) w1
        with
        | (Ok _, w2) => (Ok PyNone, w2)
        | (Error e, w2) => (Error e, w2)
        end
    | (Error e, w1) => (Error e, w1)
    end.
Proof.
  intros Hrows Hplain. unfold model_stats. rewrite Hrows.
  unfold iobind at 1. unfold lift at 1. unfold iobind at 1. cbn [print].
  unfold iobind at 1. unfold lift at 1. rewrite fill_empty.
  unfold iobind at 1. unfold lift at 1. rewrite from_dict_filled.
  unfold iobind at 1. unfold to_csv. rewrite Hplain, csv_records_filled.
  unfold iobind, retrieved_message, ret. cbv zeta.
  destruct (check_parent_directory output_csv _) as [[[]|e] w1]; [|reflexivity].
  now destruct (write_file output_csv _ w1) as [[[]|e] w2].
Qed.


End export_contract.



(** ** The file system under [makedirs] and [copy] *)

Section fs_facts.

Import os.

Abbreviation sep := posixpath.sep.

Lemma open_ended_not_root (p : string) : open_ended p -> is_root p = false.
Proof.
  intros [Hne Hend]. unfold is_root.
  assert (H : String.eqb p (Py.repeat_char sep (String.length p)) = false).
  { apply String.eqb_neq. rewrite <- (append_empty_r p) at 1.
    now apply not_all_sep. }
  rewrite H. apply andb_false_r.
Qed.

Lemma stat_open_ended (p : string) (w : world) :
  open_ended p -> stat p w = fs w !! p.
Proof.
  intros Hp. unfold stat. rewrite (open_ended_not_root p Hp).
  destruct Hp as [Hne _]. apply String.eqb_neq in Hne. now rewrite Hne.
Qed.

Lemma open_ended_join (a b : string) :
  open_ended a -> is_name b = true -> open_ended (a +:+ String sep b).
Proof.
  intros Ha Hb. rewrite <- (join_step_name a b Ha Hb).
  now apply join_step_open_ended.
Qed.

Lemma parent_of_join (a b : string) :
  open_ended a -> is_name b = true -> parent_of (a +:+ String sep b) = a.
Proof.
  intros [Hne Hend] Hb. destruct (is_name_inv b Hb) as [Hb1 Hb2].
  unfold parent_of. rewrite (split_sep a b Hne Hend Hb2). cbn [fst snd].
  apply String.eqb_neq in Hb1. now rewrite Hb1.
Qed.

Lemma adds_dirs_refl (ps : list string) (w : world) : adds_dirs ps w w.
Proof. repeat split; auto. Qed.

Lemma adds_dirs_trans (ps qs : list string) (w1 w2 w3 : world) :
  adds_dirs ps w1 w2 -> adds_dirs qs w2 w3 -> adds_dirs (ps ++ qs) w1 w3.
Proof.
  intros (Ho1 & Hk1 & Hn1) (Ho2 & Hk2 & Hn2). split; [congruence|]. split.
  - auto.
  - intros p x H. destruct (Hn2 p x H) as [H2|[-> Hin]].
    + destruct (Hn1 p x H2) as [H1|[-> Hin]]; [auto|].
      right. split; [reflexivity | apply in_or_app; auto].
    + right. split; [reflexivity | apply in_or_app; auto].
Qed.

(** The last step of [makedirs] on [a/b], once [a] is a directory and
    [a/b] is no file. *)
Lemma mkdir_exist_ok_join (a b : string) (w : world) :
  open_ended a -> is_name b = true ->
  isdir a w = true ->
  isfile (a +:+ String sep b) w = false ->
  exists w',
    mkdir_exist_ok (a +:+ String sep b) true w = (Ok tt, w')
    /\ adds_dirs [a +:+ String sep b] w w'
    /\ fs w' !! (a +:+ String sep b) = Some Dir.
Proof.
  intros Ha Hb Hdir Hfile.
  pose proof (open_ended_join a b Ha Hb) as Hab.
  unfold mkdir_exist_ok, mkdir, isfile, isdir in *.
  rewrite (stat_open_ended _ w Hab) in *.
  destruct (fs w !! (a +:+ String sep b)) as [[c|]|] eqn:E; [discriminate| |].
  - cbn. rewrite (stat_open_ended _ w Hab), E. cbn.
    exists w. split; [reflexivity|]. split; [apply adds_dirs_refl | exact E].
  - unfold parent_error. rewrite (parent_of_join a b Ha Hb).
    destruct Hab as [Hne _]. apply String.eqb_neq in Hne. rewrite Hne.
    destruct Ha as [Hane _]. apply String.eqb_neq in Hane. rewrite Hane.
    destruct (stat a w) as [[|]|]; try discriminate.
    eexists. split; [reflexivity|]. split.
    + split; [reflexivity|]. split; cbn [fs].
      * intros p x H. rewrite lookup_insert_ne; [exact H | congruence].
      * intros p x H. destruct (decide (a +:+ String sep b = p)) as [<-|Hp].
        -- rewrite lookup_insert_eq in H. injection H as <-.
           right. split; [reflexivity | left; reflexivity].
        -- rewrite lookup_insert_ne in H by exact Hp. now left.
    + cbn [fs]. apply lookup_insert_eq.
Qed.

Lemma plain_name_is_name (n : string) : plain_name n = true -> is_name n = true.
Proof.
  unfold plain_name. intros H. apply andb_true_iff in H as [H _].
  now apply andb_true_iff in H as [H _].
Qed.

Lemma plain_names_are_names (names : list string) :
  forallb plain_name names = true -> forallb is_name names = true.
Proof.
  rewrite !forallb_forall. intros H n Hn. apply plain_name_is_name. auto.
Qed.

Lemma join_cons (d n : string) (names : list string) :
  posixpath.join d (n :: names) = posixpath.join (posixpath.join_step d n) names.
Proof. reflexivity. Qed.

Lemma prefixes_snoc (names : list string) :
  forall d n,
    prefixes d (names ++ [n])
    = prefixes d names ++ [posixpath.join d (names ++ [n])].
Proof.
  induction names as [|m names IH]; intros d n; [reflexivity|].
  cbn [prefixes app]. rewrite IH, join_cons. reflexivity.
Qed.

Lemma prefixes_last (names : list string) (d : string) :
  names <> [] -> In (posixpath.join d names) (prefixes d names).
Proof.
  intros Hne. destruct (exists_last Hne) as (ns & n & ->).
  rewrite prefixes_snoc. apply in_or_app. right. now left.
Qed.

Lemma makedirs_rec_S (fuel : nat) (name : string) (exist_ok : bool) (w : world) :
  makedirs_rec (S fuel) name exist_ok w =
  let parts := posixpath.split name in
  let parts :=
    if String.eqb (snd parts) EmptyString then posixpath.split (fst parts)
    else parts in
  if negb (String.eqb (fst parts) EmptyString)
     && negb (String.eqb (snd parts) EmptyString)
     && negb (path_exists (fst parts) w)
  then
    match makedirs_rec fuel (fst parts) exist_ok w with
    | (Error (FileExistsError _), w') | (Ok tt, w') =>
        if String.eqb (snd parts) "." then (Ok tt, w')
        else mkdir_exist_ok name exist_ok w'
    | (Error e, w') => (Error e, w')
    end
  else mkdir_exist_ok name exist_ok w.
Proof. reflexivity. Qed.

Lemma slice_lengths (i : nat) (s : string) :
  String.length (Py.slice_to i s) + String.length (Py.slice_from i s)
  = String.length s.
Proof.
  revert i. induction s as [|a s IH]; intros [|i]; cbn; try reflexivity.
  now rewrite IH.
Qed.

Lemma split_lengths (p : string) :
  String.length (fst (posixpath.split p)) + String.length (snd (posixpath.split p))
  <= String.length p.
Proof.
  unfold posixpath.split. cbn [fst snd].
  pose proof (slice_lengths (Py.rfind_succ posixpath.sep p) p) as H.
  pose proof (rstrip_length posixpath.sep
                (Py.slice_to (Py.rfind_succ posixpath.sep p) p)) as H'.
  destruct (_ && _); lia.
Qed.

(** The head [makedirs] goes on with is shorter than the name it came
    from. *)
Lemma makedirs_head_shorter (name : string) :
  let parts := posixpath.split name in
  let parts :=
    if String.eqb (snd parts) EmptyString then posixpath.split (fst parts)
    else parts in
  String.eqb (snd parts) EmptyString = false ->
  String.length (fst parts) < String.length name.
Proof.
  cbv zeta. pose proof (split_lengths name) as H1.
  destruct (String.eqb (snd (posixpath.split name)) EmptyString) eqn:E;
    cbv beta iota.
  - pose proof (split_lengths (fst (posixpath.split name))) as H2.
    intros Hne. apply String.eqb_neq in Hne.
    destruct (snd (posixpath.split (fst (posixpath.split name)))); [congruence|].
    cbn [String.length] in H2. lia.
  - intros _. apply String.eqb_neq in E.
    destruct (snd (posixpath.split name)); [congruence|].
    cbn [String.length] in H1. lia.
Qed.

(** [makedirs] never runs out of fuel: whatever is allowed beyond
    [len(name) + 1] rounds changes nothing. *)
Lemma makedirs_rec_more (fuel : nat) :
  forall extra name ok w,
    String.length name < fuel ->
    makedirs_rec (fuel + extra) name ok w = makedirs_rec fuel name ok w.
Proof.
  induction fuel as [|fuel IH]; intros extra name ok w Hlt; [lia|].
  change (S fuel + extra) with (S (fuel + extra)). rewrite !makedirs_rec_S.
  cbv zeta. pose proof (makedirs_head_shorter name) as Hh. cbv zeta in Hh.
  destruct (negb (String.eqb (fst _) EmptyString)); [|reflexivity].
  cbn [andb].
  destruct (String.eqb (snd _) EmptyString) eqn:Et; [reflexivity|].
  specialize (Hh eq_refl). cbn [negb andb].
  destruct (negb (path_exists _ w)); [|reflexivity].
  rewrite IH by lia. reflexivity.
Qed.

(** One round of [makedirs] on [a/b]. *)
Lemma makedirs_rec_join (fuel : nat) (a b : string) (w : world) :
  open_ended a -> plain_name b = true ->
  makedirs_rec (S fuel) (a +:+ String sep b) true w =
  if negb (path_exists a w)
  then
    match makedirs_rec fuel a true w with
    | (Error (FileExistsError _), w') | (Ok tt, w') =>
        mkdir_exist_ok (a +:+ String sep b) true w'
    | (Error e, w') => (Error e, w')
    end
  else mkdir_exist_ok (a +:+ String sep b) true w.
Proof.
  intros [Hne Hend] Hb. rewrite makedirs_rec_S.
  unfold plain_name in Hb. apply andb_true_iff in Hb as [Hb _].
  apply andb_true_iff in Hb as [Hb Hdot].
  destruct (is_name_inv b Hb) as [Hb1 Hb2].
  rewrite (split_sep a b Hne Hend Hb2). cbn [fst snd].
  apply String.eqb_neq in Hb1, Hne. apply negb_true_iff in Hdot.
  cbv zeta. rewrite Hb1. cbn [fst snd]. rewrite Hne, Hb1, Hdot. reflexivity.
Qed.

Lemma isfile_adds_dirs (ps : list string) (w w' : world) (p : string) :
  open_ended p -> adds_dirs ps w w' -> isfile p w = false -> isfile p w' = false.
Proof.
  intros Hp (_ & _ & Hn) H. unfold isfile in *.
  rewrite (stat_open_ended p w Hp) in H. rewrite (stat_open_ended p w' Hp).
  destruct (fs w' !! p) as [[c|]|] eqn:E; try reflexivity.
  destruct (Hn p _ E) as [H1|[H1 _]]; [now rewrite H1 in H | discriminate].
Qed.

Lemma prefixes_open_ended (names : list string) :
  forall d, open_ended d -> forallb is_name names = true ->
            Forall open_ended (prefixes d names).
Proof.
  induction names as [|n names IH]; intros d Hd Hn; [constructor|].
  cbn in Hn. apply andb_true_iff in Hn as [Hn Hns].
  cbn [prefixes]. pose proof (join_step_open_ended d n Hd Hn).
  constructor; [assumption | now apply IH].
Qed.

Lemma adds_dirs_mono (ps qs : list string) (w w' : world) :
  (forall p, In p ps -> In p qs) -> adds_dirs ps w w' -> adds_dirs qs w w'.
Proof.
  intros Hsub (Ho & Hk & Hn). split; [exact Ho|]. split; [exact Hk|].
  intros p x H. destruct (Hn p x H) as [H1|[-> Hin]]; [now left|].
  right. split; [reflexivity | now apply Hsub].
Qed.

(** A directory [adds_dirs] finds in the new world at a place where the old
    world had something was a directory there. *)
Lemma adds_dirs_isdir (ps : list string) (w w' : world) (p : string) :
  open_ended p -> adds_dirs ps w w' ->
  path_exists p w = true -> fs w' !! p = Some Dir -> isdir p w = true.
Proof.
  intros Hp (_ & Hk & _) Hex Hdir. unfold path_exists, isdir in *.
  rewrite (stat_open_ended p w Hp) in *.
  destruct (fs w !! p) as [x|] eqn:E; [|discriminate].
  rewrite (Hk _ _ E) in Hdir. now injection Hdir as ->.
Qed.

(** [makedirs] on a path of plain names under a directory [d] that is
    there, or that [makedirs] itself makes with directories at [base]: it
    succeeds unless a file is in the way, and all it does is add
    directories on the way down. *)
Lemma makedirs_rec_names_from (base : list string) (names : list string) :
  forall d w fuel,
    open_ended d -> forallb plain_name names = true -> names <> [] ->
    (isdir d w = true
     \/ forall fuel',
          String.length d < fuel' ->
          exists w',
            makedirs_rec fuel' d true w = (Ok tt, w')
            /\ adds_dirs base w w' /\ fs w' !! d = Some Dir) ->
    Forall (fun p => isfile p w = false) (prefixes d names) ->
    String.length (posixpath.join d names) < fuel ->
    exists w',
      makedirs_rec fuel (posixpath.join d names) true w = (Ok tt, w')
      /\ adds_dirs (base ++ prefixes d names) w w'
      /\ fs w' !! posixpath.join d names = Some Dir.
Proof.
  induction names as [|n ns IH] using rev_ind; [congruence|].
  intros d w fuel Hd Hpl _ Hbase Hfiles Hfuel.
  rewrite forallb_app in Hpl. apply andb_true_iff in Hpl as [Hns Hn].
  cbn in Hn. rewrite andb_true_r in Hn.
  pose proof (plain_name_is_name n Hn) as Hn'.
  pose proof (plain_names_are_names ns Hns) as Hns'.
  pose proof (join_open_ended ns d Hd Hns') as Hhead.
  rewrite prefixes_snoc in *. apply Forall_app in Hfiles as [Hfs Hf].
  apply Forall_inv in Hf.
  rewrite join_snoc, (join_step_name _ n Hhead Hn') in *.
  destruct fuel as [|fuel]; [lia|].
  rewrite (makedirs_rec_join fuel _ n w Hhead Hn).
  rewrite string_length_app in Hfuel. cbn in Hfuel.
  assert (Hstep : forall w1,
             adds_dirs (base ++ prefixes d ns) w w1 ->
             isdir (posixpath.join d ns) w1 = true ->
             exists w',
               mkdir_exist_ok (posixpath.join d ns +:+ String sep n) true w1
               = (Ok tt, w')
               /\ adds_dirs (base ++ prefixes d ns
                             ++ [posixpath.join d ns +:+ String sep n]) w w'
               /\ fs w' !! (posixpath.join d ns +:+ String sep n) = Some Dir).
  { intros w1 Hadd Hd1.
    destruct (mkdir_exist_ok_join _ n w1 Hhead Hn' Hd1) as (w' & Hmk & Ha & Hl).
    - apply (isfile_adds_dirs (base ++ prefixes d ns) w w1);
        [now apply open_ended_join | exact Hadd | exact Hf].
    - exists w'. split; [exact Hmk|]. split; [|exact Hl].
      rewrite app_assoc. now apply (adds_dirs_trans _ _ w w1 w'). }
  assert (Hrefl : adds_dirs (base ++ prefixes d ns) w w) by apply adds_dirs_refl.
  destruct (path_exists (posixpath.join d ns) w) eqn:Hex; cbn [negb].
  - apply Hstep; [exact Hrefl|].
    destruct ns as [|m ns0] using rev_ind.
    + cbn in Hex |- *. destruct Hbase as [Hdir|Hmake]; [exact Hdir|].
      destruct (Hmake (S (String.length d)) (Nat.lt_succ_diag_r _))
        as (w' & _ & Hadd & Hl).
      exact (adds_dirs_isdir base w w' d Hd Hadd Hex Hl).
    + clear IHns0.
      assert (Hin : In (posixpath.join d (ns0 ++ [m])) (prefixes d (ns0 ++ [m])))
        by (apply prefixes_last; now destruct ns0).
      rewrite List.Forall_forall in Hfs. specialize (Hfs _ Hin).
      unfold isdir, isfile, path_exists in *.
      destruct (stat (posixpath.join d (ns0 ++ [m])) w) as [[|]|]; congruence.
  - destruct ns as [|m ns0] using rev_ind.
    + cbn in Hex |- *. destruct Hbase as [Hdir|Hmake].
      { unfold path_exists, isdir in *. destruct (stat d w); discriminate. }
      destruct (Hmake fuel ltac:(cbn in Hfuel; lia)) as (w1 & Hrec & Hadd & Hl).
      cbn [posixpath.join fold_left] in *. rewrite Hrec.
      apply Hstep; [now rewrite app_nil_r|].
      unfold isdir. now rewrite (stat_open_ended _ w1 Hd), Hl.
    + clear IHns0.
      destruct (IH d w fuel Hd Hns) as (w1 & Hrec & Hadd & Hl);
        [now destruct ns0 | exact Hbase | exact Hfs | lia |].
      rewrite Hrec. apply Hstep; [exact Hadd|].
      unfold isdir. rewrite (stat_open_ended _ w1 Hhead), Hl. reflexivity.
Qed.

Lemma join_length (names : list string) :
  forall d, open_ended d -> forallb is_name names = true ->
            String.length d <= String.length (posixpath.join d names).
Proof.
  induction names as [|n names IH]; intros d Hd Hn; [reflexivity|].
  cbn in Hn. apply andb_true_iff in Hn as [Hn Hns].
  rewrite join_cons.
  pose proof (IH _ (join_step_open_ended d n Hd Hn) Hns) as H.
  rewrite (join_step_name d n Hd Hn) in *. rewrite string_length_app in H. lia.
Qed.

Lemma join_snoc_name (d : string) (names : list string) (n : string) :
  open_ended d -> forallb is_name names = true -> is_name n = true ->
  posixpath.join d (names ++ [n]) = posixpath.join d names +:+ String sep n.
Proof.
  intros Hd Hns Hn. rewrite join_snoc.
  apply join_step_name; [now apply join_open_ended | exact Hn].
Qed.

Lemma split_join_snoc (d : string) (names : list string) (n : string) :
  open_ended d -> forallb is_name names = true -> is_name n = true ->
  posixpath.split (posixpath.join d (names ++ [n])) = (posixpath.join d names, n).
Proof.
  intros Hd Hns Hn. rewrite (join_snoc_name d names n Hd Hns Hn).
  destruct (join_open_ended names d Hd Hns) as [Hne Hend].
  destruct (is_name_inv n Hn) as [_ Hn2]. now apply split_sep.
Qed.

(** Paths joined from the same root and different names are different. *)
Lemma join_names_inj (d : string) (ns : list string) :
  forall ms,
    open_ended d -> forallb is_name ns = true -> forallb is_name ms = true ->
    posixpath.join d ns = posixpath.join d ms -> ns = ms.
Proof.
  induction ns as [|n ns IH] using rev_ind; intros ms Hd Hns Hms E;
    destruct ms as [|m ms _] using rev_ind; try reflexivity.
  - exfalso. rewrite forallb_app in Hms. apply andb_true_iff in Hms as [Hms Hm].
    cbn in Hm. rewrite andb_true_r in Hm.
    rewrite (join_snoc_name d ms m Hd Hms Hm) in E.
    pose proof (join_length ms d Hd Hms) as Hl.
    apply (f_equal String.length) in E. rewrite string_length_app in E.
    cbn in E. lia.
  - exfalso. rewrite forallb_app in Hns. apply andb_true_iff in Hns as [Hns Hn].
    cbn in Hn. rewrite andb_true_r in Hn.
    rewrite (join_snoc_name d ns n Hd Hns Hn) in E.
    pose proof (join_length ns d Hd Hns) as Hl.
    apply (f_equal String.length) in E. rewrite string_length_app in E.
    cbn in E. lia.
  - rewrite forallb_app in Hns, Hms.
    apply andb_true_iff in Hns as [Hns Hn]. apply andb_true_iff in Hms as [Hms Hm].
    cbn in Hn, Hm. rewrite andb_true_r in Hn, Hm.
    apply (f_equal posixpath.split) in E.
    rewrite (split_join_snoc d ns n Hd Hns Hn) in E.
    rewrite (split_join_snoc d ms m Hd Hms Hm) in E.
    injection E as E1 E2. subst m. f_equal. now apply IH.
Qed.

(** Every directory on the way is the join of a non-empty initial part of
    the names. *)
Lemma in_prefixes (names : list string) :
  forall d p,
    In p (prefixes d names) ->
    exists ns rest, names = ns ++ rest /\ ns <> [] /\ p = posixpath.join d ns.
Proof.
  induction names as [|n names IH]; intros d p Hin; [destruct Hin|].
  cbn [prefixes] in Hin. destruct Hin as [<-|Hin].
  - exists [n], names. repeat split; congruence.
  - destruct (IH _ _ Hin) as (ns & rest & -> & Hne & ->).
    exists (n :: ns), rest. repeat split; congruence.
Qed.

(** *** The directories a path leads through *)

Lemma ancestors_from_app (a : string) :
  forall seen rest,
    ancestors_from seen (a +:+ rest)
    = ancestors_from seen a ++ ancestors_from (seen +:+ a) rest.
Proof.
  induction a as [|x a IH]; intros seen rest.
  - cbn. now rewrite append_empty_r.
  - cbn [String.append ancestors_from]. rewrite IH, <- app_assoc.
    do 2 f_equal. now rewrite append_assoc.
Qed.

Lemma ancestors_from_name (b : string) :
  no_sep b = true -> forall seen, ancestors_from seen b = [].
Proof.
  induction b as [|c b IH]; intros H seen; [reflexivity|].
  cbn in H. apply andb_true_iff in H as [Hc Hb]. apply negb_true_iff in Hc.
  cbn [ancestors_from]. rewrite Hc. cbn [andb app]. now apply IH.
Qed.

Lemma ancestors_snoc (a b : string) :
  open_ended a -> is_name b = true ->
  ancestors (a +:+ String sep b) = ancestors a ++ [a].
Proof.
  intros [Hne Hend] Hb. destruct (is_name_inv b Hb) as [_ Hb2].
  unfold ancestors. rewrite ancestors_from_app. f_equal.
  cbn [String.append ancestors_from]. apply String.eqb_neq in Hne.
  rewrite Ascii.eqb_refl, Hne, Hend. cbn [negb andb app].
  now rewrite ancestors_from_name.
Qed.

(** The directories on the way to [join d names] are those on the way to
    [d], then [d], then the joins of [d] with the names before the last. *)
Lemma ancestors_join (names : list string) :
  forall d,
    open_ended d -> forallb is_name names = true ->
    ancestors (posixpath.join d names) ++ [posixpath.join d names]
    = ancestors d ++ [d] ++ prefixes d names.
Proof.
  induction names as [|n names IH]; intros d Hd Hn; [reflexivity|].
  cbn in Hn. apply andb_true_iff in Hn as [Hn Hns]. rewrite join_cons.
  cbn [prefixes]. rewrite (IH _ (join_step_open_ended d n Hd Hn) Hns).
  rewrite (join_step_name d n Hd Hn), (ancestors_snoc d n Hd Hn), <- app_assoc.
  reflexivity.
Qed.

(** *** A first directory *)

Lemma top_open_ended (absolute : bool) (n : string) :
  is_name n = true -> open_ended (if absolute then String sep n else n).
Proof.
  intros Hn. destruct absolute; [|now apply name_open_ended].
  destruct (name_open_ended n Hn) as [Hne Hend]. split; [discriminate|].
  destruct n as [|c n]; [congruence|]. now rewrite endswith_cons.
Qed.

Lemma ancestors_top (absolute : bool) (n : string) :
  is_name n = true -> ancestors (if absolute then String sep n else n) = [].
Proof.
  intros Hn. destruct (is_name_inv n Hn) as [_ Hn2]. unfold ancestors.
  destruct absolute; [|now apply ancestors_from_name].
  cbn [ancestors_from]. cbn. now apply ancestors_from_name.
Qed.

Lemma split_top (absolute : bool) (n : string) :
  is_name n = true ->
  posixpath.split (if absolute then String sep n else n)
  = (if absolute then String sep EmptyString else EmptyString, n).
Proof.
  intros Hn. destruct (is_name_inv n Hn) as [_ Hn2].
  destruct absolute; [now apply split_root_name | now apply split_name].
Qed.

(** [makedirs] on a plain name in the current directory or in the root. *)
Lemma makedirs_rec_top (absolute : bool) (n : string) (w : world) (fuel : nat) :
  plain_name n = true ->
  isfile (if absolute then String sep n else n) w = false ->
  exists w',
    makedirs_rec (S fuel) (if absolute then String sep n else n) true w
    = (Ok tt, w')
    /\ adds_dirs [if absolute then String sep n else n] w w'
    /\ fs w' !! (if absolute then String sep n else n) = Some Dir.
Proof.
  intros Hpl Hfile. pose proof (plain_name_is_name n Hpl) as Hn.
  pose proof (top_open_ended absolute n Hn) as Htop.
  destruct (is_name_inv n Hn) as [Hne _]. apply String.eqb_neq in Hne.
  set (top := if absolute then String sep n else n) in *.
  assert (Hstep : makedirs_rec (S fuel) top true w = mkdir_exist_ok top true w).
  { rewrite makedirs_rec_S. cbv zeta. unfold top.
    rewrite (split_top absolute n Hn). cbn [fst snd]. rewrite Hne. cbn [fst snd].
    rewrite Hne. now destruct absolute. }
  rewrite Hstep. unfold mkdir_exist_ok, mkdir, isfile in *.
  rewrite (stat_open_ended top w Htop) in *.
  destruct (fs w !! top) as [[c|]|] eqn:E; [discriminate| |].
  - unfold isdir. rewrite (stat_open_ended top w Htop), E. cbn.
    exists w. split; [reflexivity|]. split; [apply adds_dirs_refl | exact E].
  - assert (Hparent : parent_error top w = None).
    { unfold parent_error, parent_of, top.
      rewrite (split_top absolute n Hn). cbn [fst snd]. rewrite Hne.
      destruct Htop as [Htne _]. apply String.eqb_neq in Htne.
      fold top. rewrite Htne. now destruct absolute. }
    rewrite Hparent. eexists. split; [reflexivity|]. split.
    + split; [reflexivity|]. split; cbn [fs].
      * intros p x H. rewrite lookup_insert_ne; [exact H | congruence].
      * intros p x H. destruct (decide (top = p)) as [<-|Hp].
        -- rewrite lookup_insert_eq in H. injection H as <-.
           right. split; [reflexivity | now left].
        -- rewrite lookup_insert_ne in H by exact Hp. now left.
    + cbn [fs]. apply lookup_insert_eq.
Qed.

(** [makedirs] on a path spelled from plain names, with no file in the
    way. *)
Lemma makedirs_rec_root (absolute : bool) (n : string) (dirs : list string)
  (w : world) :
  plain_name n = true -> forallb plain_name dirs = true ->
  let d := posixpath.join (if absolute then String sep n else n) dirs in
  (forall p, In p (ancestors d ++ [d]) -> isfile p w = false) ->
  forall fuel,
    String.length d < fuel ->
    exists w',
      makedirs_rec fuel d true w = (Ok tt, w')
      /\ adds_dirs (ancestors d ++ [d]) w w' /\ fs w' !! d = Some Dir.
Proof.
  intros Hpl Hdirs d Hfiles fuel Hfuel.
  pose proof (plain_name_is_name n Hpl) as Hn.
  pose proof (top_open_ended absolute n Hn) as Htop.
  pose proof (plain_names_are_names dirs Hdirs) as Hdirs'.
  assert (E : ancestors d ++ [d]
              = (if absolute then String sep n else n)
                :: prefixes (if absolute then String sep n else n) dirs).
  { unfold d. rewrite (ancestors_join dirs _ Htop Hdirs'), (ancestors_top _ _ Hn).
    reflexivity. }
  rewrite E in *.
  destruct dirs as [|m dirs].
  - cbn in d. subst d. destruct fuel as [|fuel]; [lia|].
    apply makedirs_rec_top; [exact Hpl | apply Hfiles; now left].
  - apply (makedirs_rec_names_from [_] (m :: dirs) _ w fuel Htop Hdirs);
      [discriminate | | | exact Hfuel].
    + right. intros fuel' Hf'. destruct fuel' as [|fuel']; [lia|].
      apply makedirs_rec_top; [exact Hpl | apply Hfiles; now left].
    + apply List.Forall_forall. intros p Hp. apply Hfiles. now right.
Qed.

(** [makedirs] on a path of plain names under a directory that is there or
    can be made: it succeeds unless a file is in the way, and all it does is
    add directories on the way down. *)
Lemma makedirs_rec_names (names : list string) :
  forall d w fuel,
    open_ended d -> forallb plain_name names = true -> names <> [] ->
    root_ok d w ->
    Forall (fun p => isfile p w = false) (prefixes d names) ->
    String.length (posixpath.join d names) < fuel ->
    exists w',
      makedirs_rec fuel (posixpath.join d names) true w = (Ok tt, w')
      /\ adds_dirs (ancestors d ++ [d] ++ prefixes d names) w w'
      /\ fs w' !! posixpath.join d names = Some Dir.
Proof.
  intros d w fuel Hd Hpl Hne Hroot Hfiles Hfuel.
  rewrite app_assoc.
  apply (makedirs_rec_names_from (ancestors d ++ [d]) names d w fuel Hd Hpl Hne);
    [|exact Hfiles | exact Hfuel].
  destruct Hroot as [Hdir|(absolute & n & dirs & Hn & Hdirs & -> & Hfree)];
    [now left | right].
  now apply makedirs_rec_root.
Qed.

(** *** Paths spelled from plain names *)

Lemma join_concat (names : list string) :
  forall a,
    open_ended a -> forallb is_name names = true -> names <> [] ->
    posixpath.join a names = a +:+ String sep (String.concat "/" names).
Proof.
  induction names as [|m names IH]; intros a Ha Hn Hne; [congruence|].
  cbn in Hn. apply andb_true_iff in Hn as [Hm Hns].
  rewrite join_cons, (join_step_name a m Ha Hm).
  destruct names as [|m' names]; [reflexivity|].
  rewrite (IH _ (open_ended_join a m Ha Hm) Hns) by discriminate.
  cbn [String.concat]. rewrite append_assoc. reflexivity.
Qed.




End fs_facts.

Section retrieval.

Import os catalog entry_point Re.

Abbreviation sep := posixpath.sep.

Lemma append_inj_r (t : string) :
  forall a b, a +:+ t = b +:+ t -> a = b.
Proof.
  induction a as [|x a IH]; intros [|y b] E; try reflexivity.
  - apply (f_equal String.length) in E. cbn in E.
    rewrite string_length_app in E. lia.
  - apply (f_equal String.length) in E. cbn in E.
    rewrite string_length_app in E. lia.
  - cbn in E. injection E as -> E. f_equal. now apply IH.
Qed.

Lemma output_zip_join (d : string) (r : row) :
  output_zip d r = posixpath.join d (fields r ++ [zip_name r]).
Proof. unfold output_zip, output_dir. symmetry. apply join_snoc. Qed.

Lemma source_zip_canonical (s : string) (r : row) :
  canonical_uid (unique_id r) = true -> source_zip s r = Ok (source_path s r).
Proof.
  intros H. unfold source_zip.
  destruct (canonical_uid_segments _ H) as (_ & -> & _). reflexivity.
Qed.

Lemma stat_file (p : string) (w : world) (c : string) :
  stat p w = Some (File c) <->
  fs w !! p = Some (File c) /\ is_root p = false /\ p <> EmptyString.
Proof.
  unfold stat. destruct (is_root p); [split; [discriminate | intros (_ & ? & _); discriminate]|].
  destruct (String.eqb_spec p EmptyString) as [->|Hne].
  - split; [discriminate | intros (_ & _ & ?); congruence].
  - split; [intros H; auto | intros (H & _); exact H].
Qed.

(** [shutil.copy] of a file that is there to a place that can be created. *)
Lemma copy_file (src dst c : string) (w : world) :
  src <> dst -> stat src w = Some (File c) ->
  isdir dst w = false -> can_create dst w = true ->
  shutil.copy src dst w
  = (Ok tt, World (<[dst := File c]> (fs w)) (stdout w)).
Proof.
  intros Hne Hsrc Hdir Hcan. unfold shutil.copy, shutil.copyfile.
  rewrite Hdir. apply String.eqb_neq in Hne. rewrite Hne. cbn [andb].
  unfold iobind, read_file. rewrite Hsrc. now apply write_file_can_create.
Qed.



Lemma adds_dirs_isfile (ps : list string) (w w' : world) (p : string) :
  adds_dirs ps w w' -> isfile p w = false -> isfile p w' = false.
Proof.
  intros (_ & _ & Hn) H. unfold isfile, stat in *.
  destruct (is_root p); [exact H|].
  destruct (String.eqb p EmptyString); [exact H|].
  destruct (fs w' !! p) as [[c|]|] eqn:E; try reflexivity.
  destruct (Hn p _ E) as [H1|[H1 _]]; [now rewrite H1 in H | discriminate].
Qed.

(** The directories a path leads through are shorter than the path. *)
Lemma ancestors_from_shorter (rest : string) :
  forall seen p,
    In p (ancestors_from seen rest) ->
    String.length p < String.length seen + String.length rest.
Proof.
  induction rest as [|c rest IH]; intros seen p H; [destruct H|].
  cbn [ancestors_from] in H. apply in_app_or in H as [H|H].
  - destruct (_ && _); [|destruct H]. destruct H as [<-|[]]. cbn. lia.
  - apply IH in H. rewrite string_length_app in H. cbn in *. lia.
Qed.

Lemma ancestors_shorter (name p : string) :
  In p (ancestors name) -> String.length p < String.length name.
Proof. intros H. now apply ancestors_from_shorter in H. Qed.


(** *** The path of a source archive *)

Lemma relative_path_shape (segments : list string) :
  shard_path segments = true ->
  open_ended (relative_path segments)
  /\ Py.startswith sep (relative_path segments) = false.
Proof.
  intros H. destruct (shard_path_names segments H) as [Hne Hnames].
  destruct segments as [|a p]; [congruence|]. cbn [relative_path].
  cbn in Hnames. apply andb_true_iff in Hnames as [Ha Hp].
  split; [apply join_open_ended; [now apply name_open_ended | exact Hp]|].
  destruct (is_name_inv a Ha) as [Hane Ha2].
  destruct p as [|b p].
  - now apply no_sep_startswith.
  - rewrite (join_concat (b :: p) a (name_open_ended a Ha) Hp) by discriminate.
    destruct a as [|x a]; [congruence|]. cbn in Ha2 |- *.
    apply andb_true_iff in Ha2 as [Hx _]. now apply negb_true_iff in Hx.
Qed.

(** Where the source root ends, the 16 directories follow, and [data.zip]
    after them. *)
Lemma source_path_shape (s : string) (r : row) :
  canonical_uid (unique_id r) = true ->
  exists front,
    (forall r', posixpath.join_step s (relative_path (path_spt (unique_id r')))
                = front +:+ relative_path (path_spt (unique_id r'))
                \/ canonical_uid (unique_id r') = false)
    /\ open_ended (front +:+ relative_path (path_spt (unique_id r)))
    /\ source_path s r
       = (front +:+ relative_path (path_spt (unique_id r)))
         +:+ String sep "data.zip".
Proof.
  intros Hu.
  set (front := if String.eqb s EmptyString || Py.endswith sep s then s
                else s +:+ "/").
  assert (Hstep : forall r', canonical_uid (unique_id r') = true ->
            posixpath.join_step s (relative_path (path_spt (unique_id r')))
            = front +:+ relative_path (path_spt (unique_id r'))).
  { intros r' Hu'. destruct (canonical_uid_segments _ Hu') as (Hs & _ & _).
    destruct (relative_path_shape _ Hs) as [_ Hst].
    unfold posixpath.join_step, front. rewrite Hst.
    destruct (_ || _); [reflexivity | now rewrite append_assoc]. }
  exists front.
  destruct (canonical_uid_segments _ Hu) as (Hs & _ & _).
  destruct (relative_path_shape _ Hs) as [[Hne Hend] _].
  assert (Hopen : open_ended (front +:+ relative_path (path_spt (unique_id r)))).
  { split.
    - intros E. apply (f_equal String.length) in E.
      rewrite string_length_app in E.
      destruct (relative_path (path_spt (unique_id r))); [congruence|].
      cbn [String.length] in E. lia.
    - now rewrite endswith_app. }
  split; [|split; [exact Hopen|]].
  - intros r'. destruct (canonical_uid (unique_id r')) eqn:E; [left | now right].
    now apply Hstep.
  - unfold source_path.
    change (posixpath.join s [relative_path (path_spt (unique_id r)); "data.zip"])
      with (posixpath.join_step
              (posixpath.join_step s (relative_path (path_spt (unique_id r))))
              "data.zip").
    rewrite (Hstep r Hu). now apply join_step_name.
Qed.


Variables (d s : string) (all : list row) (w0 : world).

Hypothesis d_open : open_ended d.
Hypothesis all_valid : forall r, In r all -> valid_row r = true.
Hypothesis sources_apart :
  forall r r', In r all -> In r' all -> source_path s r <> output_zip d r'.

Abbreviation good_world := (good d s all w0).
Abbreviation copied_row := (copied d s w0).

Lemma fields_names (r : row) :
  In r all -> forallb plain_name (fields r) = true
              /\ forallb is_name (fields r ++ [zip_name r]) = true.
Proof.
  intros Hr. specialize (all_valid r Hr). unfold valid_row in all_valid.
  apply andb_true_iff in all_valid as [Hu Hf]. split; [exact Hf|].
  rewrite forallb_app. apply andb_true_iff. split.
  - now apply plain_names_are_names.
  - cbn. rewrite andb_true_r. now apply canonical_zip_name.
Qed.

(** No destination file is one of the directories on the way to one. *)
Lemma output_zip_not_prefix (r r' : row) :
  In r all -> In r' all -> ~ In (output_zip d r) (prefixes d (fields r')).
Proof.
  intros Hr Hr' Hin.
  destruct (in_prefixes _ _ _ Hin) as (ns & rest & Hf & Hne & E).
  rewrite output_zip_join in E.
  destruct (fields_names r Hr) as [_ Hn]. destruct (fields_names r' Hr') as [Hn' _].
  apply plain_names_are_names in Hn'. rewrite Hf, forallb_app in Hn'.
  apply andb_true_iff in Hn' as [Hns _].
  apply (join_names_inj d _ ns d_open Hn Hns) in E.
  apply (f_equal (@length string)) in Hf, E.
  rewrite List.length_app in Hf, E. cbn in Hf, E. lia.
Qed.

Lemma output_zip_open_ended (r : row) : In r all -> open_ended (output_zip d r).
Proof.
  intros Hr. rewrite output_zip_join. destruct (fields_names r Hr) as [_ Hn].
  now apply join_open_ended.
Qed.

Lemma output_dir_open_ended (r : row) : In r all -> open_ended (output_dir d r).
Proof.
  intros Hr. destruct (fields_names r Hr) as [Hn _].
  apply join_open_ended; [exact d_open | now apply plain_names_are_names].
Qed.

Lemma output_zip_split (r : row) :
  In r all -> output_zip d r = output_dir d r +:+ String sep (zip_name r).
Proof.
  intros Hr. pose proof (fields_names r Hr) as [Hn Hz].
  rewrite forallb_app in Hz. apply andb_true_iff in Hz as [Hns Hz].
  cbn in Hz. rewrite andb_true_r in Hz.
  rewrite output_zip_join. now apply join_snoc_name.
Qed.

(** Rows with the same destination file agree on the six fields and on the
    unique id, and so have the same source archive. *)
Lemma output_zip_inj (r r' : row) :
  In r all -> In r' all -> output_zip d r = output_zip d r' ->
  fields r = fields r' /\ unique_id r = unique_id r'.
Proof.
  intros Hr Hr' E. rewrite !output_zip_join in E.
  destruct (fields_names r Hr) as [_ Hn]. destruct (fields_names r' Hr') as [_ Hn'].
  apply (join_names_inj d _ _ d_open Hn Hn') in E.
  apply app_inj_tail in E as [Ef E]. unfold zip_name in E.
  split; [exact Ef | exact (append_inj_r _ _ _ E)].
Qed.

Lemma output_zip_source (r r' : row) :
  In r all -> In r' all -> output_zip d r = output_zip d r' ->
  source_path s r = source_path s r'.
Proof.
  intros Hr Hr' E. destruct (output_zip_inj r r' Hr Hr' E) as [_ Hu].
  unfold source_path. now rewrite Hu.
Qed.

Lemma output_zip_longer (r : row) :
  In r all -> String.length d < String.length (output_zip d r).
Proof.
  intros Hr. destruct (fields_names r Hr) as [Hpl _].
  rewrite (output_zip_split r Hr), string_length_app. cbn [String.length].
  pose proof (join_length (fields r) d d_open (plain_names_are_names _ Hpl)) as H.
  change (posixpath.join d (fields r)) with (output_dir d r) in H. lia.
Qed.

(** The directories on the way to a destination file. *)
Lemma ancestors_output_zip (r : row) :
  In r all ->
  ancestors (output_zip d r) = ancestors d ++ [d] ++ prefixes d (fields r).
Proof.
  intros Hr. destruct (fields_names r Hr) as [Hpl Hn].
  rewrite forallb_app in Hn. apply andb_true_iff in Hn as [Hns Hz].
  cbn in Hz. rewrite andb_true_r in Hz.
  rewrite (output_zip_split r Hr).
  rewrite (ancestors_snoc _ _ (output_dir_open_ended r Hr) Hz).
  change (output_dir d r) with (posixpath.join d (fields r)).
  now apply ancestors_join.
Qed.

(** No destination file is a directory on the way to one. *)
Lemma output_zip_not_ancestor (r r' : row) :
  In r all -> In r' all -> ~ In (output_zip d r) (ancestors (output_zip d r')).
Proof.
  intros Hr Hr' Hin. rewrite (ancestors_output_zip r' Hr') in Hin.
  pose proof (output_zip_longer r Hr) as Hlen.
  apply in_app_or in Hin as [Hin|Hin];
    [apply ancestors_shorter in Hin; lia|].
  apply in_app_or in Hin as [[E|[]]|Hin]; [rewrite <- E in Hlen; lia|].
  now apply (output_zip_not_prefix r r' Hr Hr').
Qed.

Lemma isfile_insert_ne (p q : string) (x : node) (w : world) :
  p <> q ->
  isfile p (World (<[q := x]> (fs w)) (stdout w)) = isfile p w.
Proof.
  intros H. unfold isfile, stat. cbn [fs].
  now rewrite lookup_insert_ne by congruence.
Qed.

Lemma can_create_join (a b : string) (w : world) :
  open_ended a -> is_name b = true ->
  isdir a w = true -> isdir (a +:+ String sep b) w = false ->
  can_create (a +:+ String sep b) w = true.
Proof.
  intros Ha Hb Hdir Hnot. pose proof (open_ended_join a b Ha Hb) as Hab.
  unfold can_create, isdir in *. rewrite (stat_open_ended _ w Hab) in *.
  rewrite (proj2 Hab). cbn [negb andb].
  destruct (fs w !! (a +:+ String sep b)) as [[c|]|]; try congruence.
  unfold parent_error. rewrite (parent_of_join a b Ha Hb).
  destruct Hab as [Hne Hend]. destruct Ha as [Hane _].
  apply String.eqb_neq in Hne, Hane. rewrite Hne, Hane.
  now destruct (stat a w) as [[|]|].
Qed.

Lemma retrieve_row_good (r : row) (w : world) :
  In r all -> good_world w ->
  exists w',
    retrieve_row d s r w = (Ok tt, w')
    /\ good_world w' /\ stdout w' = stdout w /\ copied_row w' r
    /\ (forall r', In r' all -> copied_row w r' -> copied_row w' r').
Proof.
  intros Hr (Hd & Hpre & Hsrc & Hzip & Hnew & Hdirs).
  assert (Hall : all <> []) by (intros E; rewrite E in Hr; destruct Hr).
  specialize (Hd Hall).
  destruct (fields_names r Hr) as [Hpl Hnames].
  pose proof (all_valid r Hr) as Hv. unfold valid_row in Hv.
  apply andb_true_iff in Hv as [Hu _].
  destruct (Hsrc r Hr) as (c & Hc0 & Hc).
  assert (Hfne : fields r <> []) by discriminate.
  assert (Hmake : exists w1,
             makedirs (output_dir d r) true w = (Ok tt, w1)
             /\ adds_dirs (ancestors (output_zip d r)) w w1
             /\ fs w1 !! output_dir d r = Some Dir).
  { rewrite (ancestors_output_zip r Hr).
    apply (makedirs_rec_names (fields r) d w
             (S (String.length (output_dir d r))) d_open Hpl Hfne Hd).
    - apply List.Forall_forall. intros p Hp. now apply (Hpre r).
    - unfold output_dir, fields. lia. }
  destruct Hmake as (w1 & Hmk & Hadd & Hdir1).
  pose proof (output_zip_open_ended r Hr) as Hzo.
  pose proof (output_dir_open_ended r Hr) as Hdo.
  pose proof Hadd as (Hout & Hkeep & Hadded).
  assert (Hz1 : fs w1 !! output_zip d r <> Some Dir).
  { intros E. destruct (Hadded _ _ E) as [E'|[_ Hin]].
    - now apply (Hzip r Hr).
    - now apply (output_zip_not_ancestor r r Hr Hr). }
  apply stat_file in Hc as (Hc & Hroot & Hne).
  assert (Hc1 : stat (source_path s r) w1 = Some (File c)).
  { apply stat_file. auto. }
  exists (World (<[output_zip d r := File c]> (fs w1)) (stdout w1)).
  split; [|split; [|split; [|split]]].
  - unfold retrieve_row, iobind, lift. rewrite (source_zip_canonical s r Hu).
    rewrite Hmk.
    assert (Hnd : isdir (output_zip d r) w1 = false).
    { unfold isdir. rewrite (stat_open_ended _ w1 Hzo).
      destruct (fs w1 !! output_zip d r) as [[|]|]; congruence. }
    apply copy_file; [now apply sources_apart | exact Hc1 | exact Hnd|].
    rewrite (output_zip_split r Hr) in *.
    apply can_create_join; [exact Hdo | | | exact Hnd].
    + rewrite forallb_app in Hnames. apply andb_true_iff in Hnames as [_ Hn].
      cbn in Hn. now rewrite andb_true_r in Hn.
    + unfold isdir. now rewrite (stat_open_ended _ w1 Hdo), Hdir1.
  - (* good *)
    unfold good. cbn [fs stdout].
    split; [|split; [|split; [|split; [|split]]]].
    + intros _.
      destruct Hd as [Hdir|(absolute & n & dirs & Hn & Hds & E & Hfree)].
      * left.
        assert (Hdz : d <> output_zip d r).
        { intros E. unfold isdir in Hdir.
          rewrite (stat_open_ended d w d_open) in Hdir.
          apply (Hzip r Hr). rewrite <- E.
          destruct (fs w !! d) as [[|]|]; congruence. }
        unfold isdir in *. rewrite (stat_open_ended d w d_open) in Hdir.
        rewrite (stat_open_ended d _ d_open). cbn [fs].
        rewrite lookup_insert_ne by congruence.
        destruct (fs w !! d) as [[|]|] eqn:E; try discriminate.
        now rewrite (Hkeep _ _ E).
      * right. exists absolute, n, dirs.
        split; [exact Hn|]. split; [exact Hds|]. split; [exact E|].
        intros p Hp. rewrite isfile_insert_ne.
        -- apply (adds_dirs_isfile _ w w1 p Hadd). now apply Hfree.
        -- intros ->. apply (output_zip_not_ancestor r r Hr Hr).
           rewrite (ancestors_output_zip r Hr), app_assoc.
           apply in_or_app. now left.
    + intros r' p Hr' Hp. rewrite isfile_insert_ne.
      * apply (adds_dirs_isfile _ w w1 p Hadd). now apply (Hpre r').
      * intros ->. now apply (output_zip_not_prefix r r' Hr Hr').
    + intros r' Hr'. destruct (Hsrc r' Hr') as (c' & Hc0' & Hc').
      exists c'. split; [exact Hc0'|].
      apply stat_file in Hc' as (Hc' & Hroot' & Hne').
      apply stat_file. split; [|auto]. cbn [fs].
      rewrite lookup_insert_ne by (intros E; now apply (sources_apart r' r Hr' Hr)).
      now apply Hkeep.
    + intros r' Hr'. cbn [fs].
      destruct (decide (output_zip d r = output_zip d r')) as [E|E].
      * rewrite <- E, lookup_insert_eq. discriminate.
      * rewrite lookup_insert_ne by exact E. intros E1.
        destruct (Hadded _ _ E1) as [E'|[_ Hin]].
        -- now apply (Hzip r' Hr').
        -- now apply (output_zip_not_ancestor r' r Hr' Hr).
    + intros p c' Hp. cbn [fs] in Hp.
      destruct (decide (output_zip d r = p)) as [<-|E].
      * right. apply in_map. exact Hr.
      * rewrite lookup_insert_ne in Hp by exact E.
        destruct (Hadded _ _ Hp) as [E'|[E' _]]; [now apply Hnew | discriminate].
    + intros p Hp. cbn [fs] in Hp.
      destruct (decide (output_zip d r = p)) as [<-|E].
      * rewrite lookup_insert_eq in Hp. discriminate.
      * rewrite lookup_insert_ne in Hp by exact E.
        destruct (Hadded _ _ Hp) as [E'|[_ Hin]]; [now apply Hdirs|].
        right. exists r. auto.
  - cbn [stdout]. exact Hout.
  - unfold copied. rewrite Hc0, (stat_open_ended _ _ Hzo). cbn [fs].
    apply lookup_insert_eq.
  - intros r' Hr' Hcop. unfold copied in *.
    pose proof (output_zip_open_ended r' Hr') as Hzo'.
    rewrite (stat_open_ended _ w Hzo') in Hcop.
    rewrite (stat_open_ended _ _ Hzo'). cbn [fs].
    destruct (decide (output_zip d r = output_zip d r')) as [E|E].
    + rewrite <- E, lookup_insert_eq.
      rewrite <- (output_zip_source r r' Hr Hr' E). now rewrite Hc0.
    + rewrite lookup_insert_ne by exact E.
      destruct (Hsrc r' Hr') as (c' & Hc0' & _). rewrite Hc0' in *.
      now apply Hkeep.
Qed.

(** The loop of [retrieve_models] over rows of the result set. *)
Lemma for_each_good (rows : list row) :
  forall w,
    (forall r, In r rows -> In r all) -> good_world w ->
    exists w',
      for_each (retrieve_row d s) rows w = (Ok tt, w')
      /\ good_world w' /\ stdout w' = stdout w
      /\ (forall r, In r rows -> copied_row w' r)
      /\ (forall r, In r all -> copied_row w r -> copied_row w' r).
Proof.
  induction rows as [|r rows IH]; intros w Hin Hg.
  - exists w. split; [reflexivity|]. split; [exact Hg|]. split; [reflexivity|].
    split; [intros r [] | auto].
  - destruct (retrieve_row_good r w (Hin r (or_introl eq_refl)) Hg)
      as (w1 & Hrow & Hg1 & Ho1 & Hc1 & Hk1).
    destruct (IH w1 (fun r' H => Hin r' (or_intror H)) Hg1)
      as (w' & Hloop & Hg' & Ho' & Hc' & Hk').
    exists w'. cbn [for_each]. unfold iobind. rewrite Hrow.
    split; [exact Hloop|]. split; [exact Hg'|]. split; [congruence|]. split.
    + intros r' [<-|Hr']; [|now apply Hc'].
      apply Hk'; [apply Hin; now left | exact Hc1].
    + intros r' Hr' Hcop. apply Hk'; [exact Hr'|]. now apply Hk1.
Qed.

End retrieval.

Section retrieve_contract.

Import os catalog entry_point.

Abbreviation sep := posixpath.sep.

Lemma ready_inv (d s : string) (rows : list row) (w : world) :
  ready d s rows w = true ->
  open_ended d
  /\ (forall r, In r rows -> valid_row r = true)
  /\ (forall r r', In r rows -> In r' rows -> source_path s r <> output_zip d r')
  /\ good d s rows w w.
Proof.
  unfold ready. intros H.
  apply andb_true_iff in H as [H Hrows]. apply andb_true_iff in H as [H Hdir].
  apply andb_true_iff in H as [Hne Hend].
  apply negb_true_iff in Hne, Hend. apply String.eqb_neq in Hne.
  assert (Hd : open_ended d) by (split; assumption).
  rewrite forallb_forall in Hrows.
  assert (Hr : forall r, In r rows ->
             valid_row r = true
             /\ isfile (source_path s r) w = true
             /\ (forall p, In p (prefixes d (fields r)) -> isfile p w = false)
             /\ isdir (output_zip d r) w = false
             /\ (forall r', In r' rows -> source_path s r' <> output_zip d r)).
  { intros r Hin. specialize (Hrows r Hin).
    apply andb_true_iff in Hrows as [Hrows H5].
    apply andb_true_iff in Hrows as [Hrows H4].
    apply andb_true_iff in Hrows as [Hrows H3].
    apply andb_true_iff in Hrows as [H1 H2].
    rewrite forallb_forall in H3, H5. apply negb_true_iff in H4.
    repeat split; auto.
    - intros p Hp. apply negb_true_iff. auto.
    - intros r' Hr'. apply String.eqb_neq, negb_true_iff. auto. }
  assert (Hvalid : forall r, In r rows -> valid_row r = true)
    by (intros r Hin; now apply Hr).
  split; [exact Hd|]. split; [exact Hvalid|]. split.
  - intros r r' Hin Hin'. now apply (Hr r' Hin').
  - unfold good. split; [intros _; now left|]. split; [|split; [|split; [|split]]].
    + intros r p Hin Hp. now apply (Hr r Hin).
    + intros r Hin. destruct (Hr r Hin) as (_ & Hf & _). unfold isfile in Hf.
      destruct (stat (source_path s r) w) as [[c|]|]; try discriminate. eauto.
    + intros r Hin E. destruct (Hr r Hin) as (_ & _ & _ & Hz & _).
      unfold isdir in Hz.
      rewrite (stat_open_ended _ w (output_zip_open_ended d rows Hd Hvalid r Hin)) in Hz.
      now rewrite E in Hz.
    + auto.
    + auto.
Qed.



(** [retrieve_models] once the query has answered: the count is printed,
    the loop runs under the progress display. *)
Lemma retrieve_models_run (db_user project_name d s : string) (conn : database)
  (w : world) (rows : list row) :
  get_models_by_user_project db_user project_name conn = Ok rows ->
  retrieve_models db_user project_name d s conn w
  = match for_each (retrieve_row d s) rows
            (World (fs w) (stdout w ++ [Printed (retrieved_message rows)])) with
    | (Ok _, w') =>
        (Ok PyNone, World (fs w') (stdout w' ++ [Displayed (length rows)]))
    | (Error e, w') =>
        (Error e, World (fs w') (stdout w' ++ [Displayed (length rows)]))
    end.
Proof.
  intros Hrows. unfold retrieve_models. rewrite Hrows.
  unfold iobind at 1. unfold lift at 1. unfold iobind at 1. cbn [print].
  unfold iobind, rich.track, retrieved_message, ret.
  now destruct (for_each _ rows _) as [[[]|e] w'].
Qed.

(** No source archive is at the place of a destination file: the one is
    named [data.zip], the other after a unique id. *)
Lemma source_not_output (d s : string) (r r' : row) :
  open_ended d -> valid_row r = true -> valid_row r' = true ->
  source_path s r <> output_zip d r'.
Proof.
  intros Hd Hv Hv' E.
  pose proof Hv as Hu. unfold valid_row in Hu. apply andb_true_iff in Hu as [Hu _].
  destruct (source_path_shape s r Hu) as (front & _ & Hopen & Hs).
  assert (Hall : forall x, In x [r'] -> valid_row x = true)
    by (intros x [<-|[]]; exact Hv').
  pose proof (output_zip_split d [r'] Hd Hall r' (or_introl eq_refl)) as Hz.
  pose proof (output_dir_open_ended d [r'] Hd Hall r' (or_introl eq_refl)) as Hdo.
  destruct (fields_names [r'] Hall r' (or_introl eq_refl)) as [_ Hn].
  rewrite forallb_app in Hn. apply andb_true_iff in Hn as [_ Hzn].
  cbn in Hzn. rewrite andb_true_r in Hzn.
  destruct (is_name_inv _ Hzn) as [_ Hzn2].
  rewrite Hs, Hz in E. apply (f_equal posixpath.split) in E.
  destruct Hopen as [Hne Hend]. destruct Hdo as [Hne' Hend'].
  rewrite (split_sep _ "data.zip" Hne Hend eq_refl),
    (split_sep _ _ Hne' Hend' Hzn2) in E.
  assert (E2 : "data" +:+ ".zip" = unique_id r' +:+ ".zip").
  { change ("data" +:+ ".zip") with "data.zip". fold (zip_name r'). congruence. }
  apply append_inj_r in E2.
  unfold valid_row in Hv'. apply andb_true_iff in Hv' as [Hu' _].
  rewrite <- E2 in Hu'. discriminate.
Qed.

(** *** A separator at the end of the destination root *)






(** One run over rows the loop is good for. *)
Lemma retrieve_models_good (db_user project_name D s : string) (conn : database)
  (w0 w : world) (rows : list row) :
  get_models_by_user_project db_user project_name conn = Ok rows ->
  open_ended D ->
  (forall r, In r rows -> valid_row r = true) ->
  good D s rows w0 w ->
  exists w1,
    retrieve_models db_user project_name D s conn w = (Ok PyNone, w1)
    /\ stdout w1
       = stdout w ++ [Printed (retrieved_message rows); Displayed (length rows)]
    /\ good D s rows w0 w1
    /\ (forall r, In r rows -> copied D s w0 w1 r).
Proof.
  intros Hrows HD Hvalid Hgood.
  assert (Hapart : forall r r', In r rows -> In r' rows ->
            source_path s r <> output_zip D r').
  { intros r r' Hr Hr'. apply source_not_output; auto. }
  set (wp := World (fs w) (stdout w ++ [Printed (retrieved_message rows)])).
  assert (Hgp : good D s rows w0 wp) by exact Hgood.
  destruct (for_each_good D s rows w0 HD Hvalid Hapart rows wp (fun r H => H) Hgp)
    as (w1 & Hloop & Hg1 & Ho1 & Hc1 & _).
  exists (World (fs w1) (stdout w1 ++ [Displayed (length rows)])).
  split; [|split; [|split]].
  - rewrite (retrieve_models_run _ _ _ _ _ _ rows Hrows). fold wp.
    now rewrite Hloop.
  - cbn [stdout]. rewrite Ho1. unfold wp. cbn [stdout].
    now rewrite <- app_assoc.
  - exact Hg1.
  - exact Hc1.
Qed.


End retrieve_contract.

Section retrieve_failure.

Import os catalog entry_point.

Abbreviation sep := posixpath.sep.

Lemma mkdir_keeps (name : string) (w w' : world) (res : result unit) :
  mkdir name w = (res, w') ->
  forall p x, fs w !! p = Some x -> fs w' !! p = Some x.
Proof.
  unfold mkdir. intros H p x Hp.
  destruct (stat name w) as [n|] eqn:Hs; [injection H as _ <-; exact Hp|].
  destruct (parent_error name w) as [e|] eqn:He; injection H as _ <-; [exact Hp|].
  cbn [fs]. rewrite lookup_insert_ne; [exact Hp|].
  intros <-. unfold stat, parent_error in *.
  destruct (is_root name); [discriminate|].
  destruct (String.eqb name EmptyString); [discriminate | congruence].
Qed.

Lemma mkdir_exist_ok_keeps (name : string) (ok : bool) (w w' : world)
  (res : result unit) :
  mkdir_exist_ok name ok w = (res, w') ->
  forall p x, fs w !! p = Some x -> fs w' !! p = Some x.
Proof.
  unfold mkdir_exist_ok. intros H.
  destruct (mkdir name w) as [[[]|e] w1] eqn:E.
  - injection H as _ <-. exact (mkdir_keeps _ _ _ _ E).
  - destruct (_ || _); injection H as _ <-; exact (mkdir_keeps _ _ _ _ E).
Qed.

(** [makedirs] removes nothing and overwrites nothing, however it ends. *)
Lemma makedirs_rec_keeps (fuel : nat) :
  forall name ok w w' res,
    makedirs_rec fuel name ok w = (res, w') ->
    forall p x, fs w !! p = Some x -> fs w' !! p = Some x.
Proof.
  induction fuel as [|fuel IH]; intros name ok w w' res H.
  - injection H as _ <-. auto.
  - rewrite makedirs_rec_S in H. cbv zeta in H.
    destruct (_ && _).
    + destruct (makedirs_rec fuel _ ok w) as [[[]|e] w1] eqn:E.
      * destruct (String.eqb _ ".").
        -- injection H as _ <-. exact (IH _ _ _ _ _ E).
        -- intros p x Hp. eapply mkdir_exist_ok_keeps; [exact H|].
           exact (IH _ _ _ _ _ E p x Hp).
      * destruct e; try (injection H as _ <-; exact (IH _ _ _ _ _ E)).
        destruct (String.eqb _ ".").
        -- injection H as _ <-. exact (IH _ _ _ _ _ E).
        -- intros p x Hp. eapply mkdir_exist_ok_keeps; [exact H|].
           exact (IH _ _ _ _ _ E p x Hp).
    + exact (mkdir_exist_ok_keeps _ _ _ _ _ H).
Qed.

Lemma for_each_app {A : Type} (body : A -> io unit) (pre post : list A) (w w1 : world) :
  for_each body pre w = (Ok tt, w1) ->
  for_each body (pre ++ post) w = for_each body post w1.
Proof.
  revert w. induction pre as [|x pre IH]; intros w H.
  - injection H as <-. reflexivity.
  - cbn [for_each app] in *. unfold iobind in *.
    destruct (body x w) as [[[]|e] w'']; [now apply IH | discriminate].
Qed.




End retrieve_failure.

(** ** The retrieval on concrete catalogs *)




(** * More of the code

    Further properties of the functions: the codec on arbitrary input, the
    rest of [utilities.py], and what the two commands do to the world in
    every run. *)

Import utilities_rest shape_rest examples_rest.

(** ** [split_all] on names and on arbitrary paths *)

Section split_all_names.

Abbreviation sep := posixpath.sep.

Lemma split_all_loop_relative (a : string) (p acc : list string) :
  is_name a = true -> forallb is_name p = true ->
  split_all_loop (1 + length p) (posixpath.join a p) acc = Some (a :: p ++ acc).
Proof.
  intros Ha Hp.
  apply split_all_loop_join; [now apply name_open_ended | exact Hp|].
  destruct (is_name_inv a Ha) as [Ha1 Ha2].
  rewrite split_all_loop_S, (split_name a Ha2). cbn [fst snd].
  rewrite String.eqb_refl.
  assert (E : String.eqb EmptyString a = false)
    by (apply String.eqb_neq; congruence).
  now rewrite E.
Qed.

Lemma split_all_loop_absolute (a : string) (p acc : list string) :
  is_name a = true -> forallb is_name p = true ->
  split_all_loop (2 + length p) (String sep (posixpath.join a p)) acc
  = Some (String sep EmptyString :: a :: p ++ acc).
Proof.
  intros Ha Hp. destruct (is_name_inv a Ha) as [Ha1 Ha2].
  rewrite <- (join_under_root p a Ha1 Hp).
  apply split_all_loop_join; [|exact Hp|].
  - split; [discriminate|]. destruct a as [|x a]; [congruence|].
    rewrite endswith_cons. now apply no_sep_endswith.
  - rewrite split_all_loop_S, (split_root_name a Ha2). cbn [fst snd].
    assert (E1 : String.eqb (String sep EmptyString) (String sep a) = false).
    { apply String.eqb_neq. intros [= E]. congruence. }
    assert (E2 : String.eqb a (String sep a) = false).
    { apply String.eqb_neq. intros E. apply (f_equal String.length) in E.
      simpl in E. lia. }
    now rewrite E1, E2.
Qed.

(** A separator at the end of a path costs one round and leaves an empty
    last component. *)
Lemma split_all_loop_trailing (fuel : nat) (path : string) (acc : list string) :
  open_ended path ->
  split_all_loop (S fuel) (path +:+ String sep EmptyString) acc
  = split_all_loop fuel path (EmptyString :: acc).
Proof.
  intros [Hne Hend].
  rewrite split_all_loop_S, (split_sep path EmptyString Hne Hend eq_refl).
  cbn [fst snd].
  assert (E1 : String.eqb path (path +:+ String sep EmptyString) = false).
  { apply String.eqb_neq. intros E. apply (f_equal String.length) in E.
    rewrite string_length_app in E. simpl in E. lia. }
  assert (E2 : String.eqb EmptyString (path +:+ String sep EmptyString) = false).
  { apply String.eqb_neq. intros E. apply (f_equal String.length) in E.
    rewrite string_length_app in E. simpl in E. lia. }
  now rewrite E1, E2.
Qed.

(** X1. [split_all] on a path of names: for directory names that are not
    empty and hold no separator, the relative path that joins them splits
    into these names, the absolute path into the root [/] followed by the
    names, and either path with a separator at its end into the same
    components followed by one empty component. *)
Theorem split_all_names (names : list string) :
  names <> [] -> forallb is_name names = true ->
  split_all (relative_path names) = Some names
  /\ split_all (absolute_path names) = Some ("/" :: names)
  /\ split_all (relative_path names +:+ "/") = Some (names ++ [EmptyString])
  /\ split_all (absolute_path names +:+ "/") = Some ("/" :: names ++ [EmptyString]).
Proof.
  intros Hne H. split; [now apply split_all_relative|].
  split; [now apply split_all_absolute|].
  destruct names as [|a p]; [congruence|].
  simpl in H. apply andb_true_iff in H as [Ha Hp].
  unfold absolute_path, relative_path. split.
  - apply (split_all_of_loop (S (1 + length p))).
    rewrite split_all_loop_trailing.
    + now apply split_all_loop_relative.
    + apply join_open_ended; [now apply name_open_ended | exact Hp].
  - apply (split_all_of_loop (S (2 + length p))).
    change (String sep (posixpath.join a p) +:+ "/")
      with (String sep (posixpath.join a p) +:+ String sep EmptyString).
    rewrite split_all_loop_trailing.
    + now apply split_all_loop_absolute.
    + destruct (is_name_inv a Ha) as [Ha1 Ha2].
      rewrite <- (join_under_root p a Ha1 Hp).
      apply join_open_ended; [|exact Hp].
      split; [discriminate|]. destruct a as [|x a]; [congruence|].
      rewrite endswith_cons. now apply no_sep_endswith.
Qed.

Lemma split_all_names_witness :
  ["models"; "0f"; "86"] <> []
  /\ split_all "models/0f/86" = Some ["models"; "0f"; "86"]
  /\ split_all "/models/0f/86" = Some ["/"; "models"; "0f"; "86"]
  /\ split_all "models/0f/86/" = Some ["models"; "0f"; "86"; EmptyString]
  /\ split_all "/models/0f/86/" = Some ["/"; "models"; "0f"; "86"; EmptyString].
Proof.
  split; [discriminate|].
  exact (split_all_names ["models"; "0f"; "86"] ltac:(discriminate) eq_refl).
Defined.

End split_all_names.

Section split_all_components.

Abbreviation sep := posixpath.sep.

Lemma rfind_succ_0 (s : string) : Py.rfind_succ sep s = 0 -> no_sep s = true.
Proof.
  induction s as [|a rest IH]; [reflexivity|]. cbn [Py.rfind_succ no_sep].
  destruct (Py.rfind_succ sep rest); [|discriminate].
  destruct (Ascii.eqb a sep); [discriminate|]. intros _. now rewrite IH.
Qed.

Lemma slice_from_0 (s : string) : Py.slice_from 0 s = s.
Proof. now destruct s. Qed.

Lemma slice_to_0 (s : string) : Py.slice_to 0 s = EmptyString.
Proof. now destruct s. Qed.

(** What follows the last separator has no separator in it. *)
Lemma split_snd_no_sep (p : string) : no_sep (snd (posixpath.split p)) = true.
Proof.
  unfold posixpath.split. cbn [snd].
  induction p as [|a rest IH]; [reflexivity|]. cbn [Py.rfind_succ].
  destruct (Py.rfind_succ sep rest) eqn:E.
  - apply rfind_succ_0 in E. destruct (Ascii.eqb a sep) eqn:Ea.
    + cbn [Py.slice_from]. now rewrite slice_from_0.
    + rewrite slice_from_0. cbn [no_sep]. now rewrite Ea, E.
  - cbn [Py.slice_from]. exact IH.
Qed.

(** An empty tail: the path is empty or ends in a separator. *)
Lemma split_snd_empty (p : string) :
  snd (posixpath.split p) = EmptyString ->
  p = EmptyString \/ Py.endswith sep p = true.
Proof.
  unfold posixpath.split. cbn [snd].
  induction p as [|a rest IH]; [now left|]. cbn [Py.rfind_succ]. intros H. right.
  destruct (Py.rfind_succ sep rest) eqn:E.
  - destruct (Ascii.eqb a sep) eqn:Ea.
    + cbn [Py.slice_from] in H. rewrite slice_from_0 in H. subst rest.
      cbn. exact Ea.
    + rewrite slice_from_0 in H. discriminate.
  - cbn [Py.slice_from] in H. destruct (IH H) as [-> | He]; [discriminate|].
    destruct rest as [|b r]; [discriminate|]. now rewrite endswith_cons.
Qed.

Lemma rstrip_not_endswith (s : string) :
  Py.endswith sep (Py.rstrip sep s) = false.
Proof.
  induction s as [|a rest IH]; [reflexivity|]. cbn [Py.rstrip].
  destruct (Py.rstrip sep rest) as [|b r] eqn:E.
  - destruct (Ascii.eqb a sep) eqn:Ea; [reflexivity|]. cbn. exact Ea.
  - rewrite endswith_cons. exact IH.
Qed.

Lemma rstrip_empty (s : string) :
  Py.rstrip sep s = EmptyString -> s = Py.repeat_char sep (String.length s).
Proof.
  induction s as [|a rest IH]; [reflexivity|]. cbn [Py.rstrip].
  destruct (Py.rstrip sep rest) as [|b r] eqn:E; [|discriminate].
  destruct (Ascii.eqb a sep) eqn:Ea; [|discriminate]. intros _.
  apply Ascii.eqb_eq in Ea. subst a. cbn. now rewrite <- IH.
Qed.

Lemma split_fst_stripped (p : string) : stripped (fst (posixpath.split p)) = true.
Proof.
  unfold posixpath.split, stripped, all_sep. cbn [fst].
  set (h := Py.slice_to (Py.rfind_succ sep p) p).
  destruct (String.eqb h EmptyString) eqn:E1.
  - apply String.eqb_eq in E1. rewrite E1. reflexivity.
  - cbn [negb andb].
    destruct (String.eqb h (Py.repeat_char sep (String.length h))) eqn:E2.
    + cbn [negb]. rewrite E2. reflexivity.
    + cbn [negb]. rewrite rstrip_not_endswith. apply orb_true_r.
Qed.

(** An empty head: the path is all tail. *)
Lemma split_fst_empty (p : string) :
  fst (posixpath.split p) = EmptyString -> snd (posixpath.split p) = p.
Proof.
  unfold posixpath.split. cbn [fst snd].
  set (i := Py.rfind_succ sep p).
  assert (Hz : Py.slice_to i p = EmptyString -> Py.slice_from i p = p).
  { destruct p as [|a rest]; [now destruct i|].
    destruct i; [reflexivity | discriminate]. }
  destruct (String.eqb (Py.slice_to i p) EmptyString) eqn:E1.
  - cbn [negb andb]. intros _. apply Hz. now apply String.eqb_eq.
  - cbn [negb andb].
    destruct (String.eqb (Py.slice_to i p)
                (Py.repeat_char sep (String.length (Py.slice_to i p)))) eqn:E2;
      cbn [negb].
    + intros H. apply String.eqb_neq in E1. contradiction.
    + intros H. apply rstrip_empty in H. apply String.eqb_neq in E2.
      contradiction.
Qed.

(** A head that is the whole path: the path is empty or a run of
    separators. *)
Lemma split_fst_same (p : string) :
  fst (posixpath.split p) = p -> all_sep p = true.
Proof.
  intros H.
  assert (Hs : snd (posixpath.split p) = EmptyString).
  { pose proof (split_lengths p) as L. rewrite H in L.
    destruct (snd (posixpath.split p)); [reflexivity | simpl in L; lia]. }
  pose proof (split_fst_stripped p) as St. rewrite H in St.
  destruct (split_snd_empty p Hs) as [-> | He]; [reflexivity|].
  unfold stripped in St. rewrite He in St. now rewrite orb_false_r in St.
Qed.

Lemma rfind_succ_repeat (n : nat) :
  Py.rfind_succ sep (Py.repeat_char sep n) = n.
Proof.
  induction n as [|n IH]; [reflexivity|]. cbn [Py.repeat_char Py.rfind_succ].
  rewrite IH. destruct n; reflexivity.
Qed.

Lemma slice_to_all (s : string) : Py.slice_to (String.length s) s = s.
Proof. induction s as [|a s IH]; [reflexivity|]. cbn. now rewrite IH. Qed.

Lemma split_all_sep (p : string) :
  all_sep p = true -> fst (posixpath.split p) = p.
Proof.
  unfold all_sep. intros H. apply String.eqb_eq in H.
  unfold posixpath.split. cbn [fst].
  assert (E : Py.slice_to (Py.rfind_succ sep p) p = p).
  { rewrite H at 1. rewrite rfind_succ_repeat. apply slice_to_all. }
  rewrite E. rewrite <- H, String.eqb_refl. cbn [negb]. now rewrite andb_false_r.
Qed.

Lemma split_all_loop_components (fuel : nat) :
  forall path acc r,
    collected path acc ->
    split_all_loop fuel path acc = Some r ->
    exists first rest,
      r = first :: rest
      /\ (all_sep first || no_sep first) = true
      /\ forallb no_sep rest = true
      /\ forallb is_name (removelast rest) = true
      /\ (first = EmptyString -> path = EmptyString /\ rest = []).
Proof.
  induction fuel as [|fuel IH]; intros path acc r (Hn & Hm & Hp) H;
    [discriminate|].
  rewrite split_all_loop_S in H.
  assert (Hlast : path = EmptyString -> path = EmptyString /\ acc = []).
  { intros ->. split; [reflexivity|]. destruct acc; [reflexivity|].
    now destruct Hp. }
  destruct (String.eqb (fst (posixpath.split path)) path) eqn:E1.
  - assert (Hr : r = fst (posixpath.split path) :: acc) by congruence.
    clear H. subst r. apply String.eqb_eq in E1. rewrite E1.
    exists path, acc. split; [reflexivity|].
    split; [now rewrite (split_fst_same path E1)|].
    split; [assumption|]. split; assumption.
  - destruct (String.eqb (snd (posixpath.split path)) path) eqn:E2.
    + assert (Hr : r = snd (posixpath.split path) :: acc) by congruence.
      clear H. subst r. apply String.eqb_eq in E2. rewrite E2.
      exists path, acc. split; [reflexivity|].
      split; [rewrite <- E2, split_snd_no_sep; apply orb_true_r|].
      split; [assumption|]. split; assumption.
    + apply String.eqb_neq in E1, E2. apply IH in H.
      * destruct H as (first & rest & -> & H1 & H2 & H3 & H4).
        exists first, rest. split; [reflexivity|]. repeat (split; [assumption|]).
        intros Hf. destruct (H4 Hf) as [He _].
        apply split_fst_empty in He. contradiction.
      * split; [|split].
        -- cbn [forallb]. now rewrite split_snd_no_sep, Hn.
        -- destruct acc as [|a acc']; [reflexivity|].
           change (removelast (snd (posixpath.split path) :: a :: acc'))
             with (snd (posixpath.split path) :: removelast (a :: acc')).
           cbn [forallb]. rewrite Hm, andb_true_r.
           unfold is_name. rewrite split_snd_no_sep, andb_true_r.
           destruct (Hp ltac:(discriminate)) as [St Hne].
           destruct (String.eqb (snd (posixpath.split path)) EmptyString) eqn:E3;
             [|reflexivity].
           apply String.eqb_eq in E3.
           destruct (split_snd_empty path E3) as [-> | He]; [congruence|].
           unfold stripped in St. rewrite He, orb_false_r in St.
           apply split_all_sep in St. contradiction.
        -- intros _. split; [apply split_fst_stripped|].
           intros He. apply split_fst_empty in He. contradiction.
Qed.

(** X2. [split_all] on any text: it returns at least one component; the
    first is free of separators or consists of separators only (the root),
    every later component is free of separators, and of the later
    components only the last can be empty. The first component is empty
    only for the empty path, whose only component it is. *)
Theorem split_all_components (path : string) :
  exists first rest,
    split_all path = Some (first :: rest)
    /\ (all_sep first || no_sep first) = true
    /\ forallb no_sep rest = true
    /\ forallb is_name (removelast rest) = true
    /\ (first = EmptyString -> path = EmptyString /\ rest = []).
Proof.
  destruct (split_all_terminates_aux path) as (part & parts & H).
  destruct (split_all_loop_components _ path [] _ ltac:(now repeat split) H)
    as (first & rest & E & H1 & H2 & H3 & H4).
  exists first, rest. now rewrite H, E.
Qed.

End split_all_components.

(** ** The codec on arbitrary input *)

Section codec_rest.

Import Re.

(** A match of [a{n}] uses up [n] characters, and what follows them is of no
    account. *)
Lemma match_repeat_split (a : atom) (n : nat) :
  forall s rest,
    match_repeat a n s = Some rest ->
    exists m, s = m +:+ rest /\ String.length m = n
              /\ forall t, match_repeat a n (m +:+ t) = Some t.
Proof.
  induction n as [|n IH]; intros s rest H.
  - injection H as ->. now exists EmptyString.
  - apply match_repeat_S_inv in H as (c & s' & -> & Hc & H).
    destruct (IH _ _ H) as (m & -> & Hl & Hm).
    exists (String c m). split; [reflexivity|]. split; [simpl; now rewrite Hl|].
    intros t. cbn [String.append match_repeat]. now rewrite Hc.
Qed.

Lemma match_prefix_split (r : regex) :
  forall s rest,
    match_prefix r s = Some rest ->
    exists m, s = m +:+ rest /\ String.length m = regex_len r
              /\ forall t, match_prefix r (m +:+ t) = Some t.
Proof.
  induction r as [|[a n] r IH]; intros s rest H.
  - injection H as ->. now exists EmptyString.
  - apply match_prefix_cons_inv in H as (mid & H1 & H2).
    destruct (match_repeat_split a n _ _ H1) as (m1 & -> & L1 & M1).
    destruct (IH _ _ H2) as (m2 & -> & L2 & M2).
    exists (m1 +:+ m2). split; [now rewrite append_assoc|].
    split; [rewrite string_length_app; cbn [regex_len fold_right snd];
            fold (regex_len r); lia|].
    intros t. cbn [match_prefix]. now rewrite append_assoc, M1, M2.
Qed.

Lemma slice_to_app_l (m t : string) :
  Py.slice_to (String.length m) (m +:+ t) = m.
Proof.
  induction m as [|c m IH]; [now destruct t|]. cbn. now rewrite IH.
Qed.

Lemma slice_to_from (n : nat) (s : string) :
  Py.slice_to n s +:+ Py.slice_from n s = s.
Proof.
  revert n. induction s as [|c s IH]; intros [|n]; try reflexivity.
  cbn. now rewrite IH.
Qed.

(** [pattern.match] looks at as many characters as the pattern has and
    accepts when these are a full match. *)
Lemma re_match_prefix (r : regex) (s : string) :
  re_match r s = re_fullmatch r (Py.slice_to (regex_len r) s).
Proof.
  unfold re_match, re_fullmatch.
  destruct (match_prefix r s) as [rest|] eqn:E.
  - destruct (match_prefix_split r _ _ E) as (m & -> & L & M).
    rewrite <- L, slice_to_app_l.
    specialize (M EmptyString). rewrite append_empty_r in M. now rewrite M.
  - destruct (match_prefix r (Py.slice_to (regex_len r) s)) as [rest|] eqn:E';
      [|reflexivity].
    destruct rest; [|reflexivity].
    destruct (match_prefix_split r _ _ E') as (m & Hm & L & M).
    rewrite append_empty_r in Hm.
    specialize (M (Py.slice_from (regex_len r) s)).
    rewrite <- Hm, slice_to_from in M. congruence.
Qed.

Lemma range_step2_S (n : nat) : Py.range_step2 (S n) <> [].
Proof.
  unfold Py.range_step2. destruct n; [discriminate|].
  change (Nat.div2 (S (S (S n)))) with (S (Nat.div2 (S n))). discriminate.
Qed.

(** The pairs of an accepted text are not empty, so [os.path.join] has its
    first argument. *)
Lemma uid_to_dir_joined (u : string) :
  re_match UID_REGEX u = true -> uid_to_dir u = Ok (relative_path (path_spt u)).
Proof.
  intros H. rewrite (uid_to_dir_matched u H).
  unfold re_match in H. destruct (match_prefix UID_REGEX u) as [rest|] eqn:E;
    [|discriminate].
  unfold UID_REGEX in E. apply match_prefix_cons_inv in E as (mid & E & _).
  apply match_repeat_S_inv in E as (c & s' & -> & Hc & _).
  change (atom_matches Hex c = true) with (is_hex c = true) in Hc.
  unfold path_spt. rewrite (remove_hyphen_hex c s' Hc).
  cbn [String.length].
  destruct (Py.range_step2 (S (String.length (Py.remove_char "-" s')))) eqn:R.
  - now apply range_step2_S in R.
  - reflexivity.
Qed.

(** X3. What [uid_to_dir] accepts: exactly the texts whose first 36
    characters are a canonical unique id; what follows these characters is
    not looked at. An accepted text gives the path that joins its
    two-character slices (hyphens removed), every other text the
    [ValueError] that quotes it. *)
Theorem uid_to_dir_accepts (u : string) :
  (canonical_uid (Py.slice_to 36 u) = true ->
   uid_to_dir u = Ok (relative_path (path_spt u)))
  /\ (canonical_uid (Py.slice_to 36 u) = false ->
      uid_to_dir u
      = Error (ValueError ("'" +:+ u +:+ "' is not a valid unique id"))).
Proof.
  unfold canonical_uid.
  change 36 with (regex_len UID_REGEX). rewrite <- re_match_prefix. split.
  - apply uid_to_dir_joined.
  - apply uid_to_dir_unmatched.
Qed.

(** X4. [uid_to_dir] is injective on canonical unique ids: two canonical
    unique ids with the same directory are the same text, so ids that differ
    (be it only in the case of a digit) have different directories. *)
Theorem uid_to_dir_injective (u u' : string) :
  canonical_uid u = true -> canonical_uid u' = true ->
  uid_to_dir u = uid_to_dir u' -> u = u'.
Proof.
  intros Hu Hu' E.
  destruct (canonical_uid_segments u Hu) as (S1 & D1 & P1).
  destruct (canonical_uid_segments u' Hu') as (S2 & D2 & P2).
  rewrite D1, D2 in E. injection E as E.
  destruct (shard_path_names _ S1) as [N1 M1].
  destruct (shard_path_names _ S2) as [N2 M2].
  pose proof (split_all_relative _ N1 M1) as A1.
  pose proof (split_all_relative _ N2 M2) as A2.
  rewrite E, A2 in A1. injection A1 as A1. rewrite A1 in P2. congruence.
Qed.

Lemma uid_to_dir_injective_witness :
  canonical_uid uid0 = true
  /\ uid_to_dir uid0 = Ok "0f/86/b9/38/15/a3/4f/1e/99/b1/8f/2b/65/b3/7a/03"
  /\ uid0 = "0f86b938-15a3-4f1e-99b1-8f2b65b37a03".
Proof.
  split; [reflexivity|]. split; [reflexivity|].
  exact (uid_to_dir_injective uid0 "0f86b938-15a3-4f1e-99b1-8f2b65b37a03"
           eq_refl eq_refl eq_refl).
Defined.

End codec_rest.

Section decoder.

Import Re.

(** [HEX_REGEX.match] looks at one character. *)
Lemma re_match_hex_regex (pair_ : string) :
  re_match HEX_REGEX pair_ = starts_with_hex pair_.
Proof.
  destruct pair_ as [|c s]; [reflexivity|].
  unfold re_match, HEX_REGEX. cbn. now destruct (is_hex c).
Qed.

Lemma check_pairs_find (lst_pairs : list string) :
  check_pairs lst_pairs
  = match find (fun s => negb (starts_with_hex s)) lst_pairs with
    | Some bad =>
        Error (ValueError ("The pair '" +:+ bad +:+ "' is not a valid hexadecimal"))
    | None => Ok tt
    end.
Proof.
  induction lst_pairs as [|p l IH]; [reflexivity|].
  cbn [check_pairs find]. rewrite re_match_hex_regex.
  now destruct (starts_with_hex p).
Qed.

Lemma format_template (segments : list string) :
  length segments = 16 ->
  Py.format UID_TEMPLATE segments = Ok (uid_of_segments segments).
Proof.
  intros H.
  do 16 (destruct segments as [|? segments]; [discriminate|]).
  destruct segments; [|discriminate].
  unfold uid_of_segments. cbn.
  now rewrite !append_assoc, append_empty_r.
Qed.

(** X5. The outcome of [hex_pairs_to_uid] on one list of segments, in
    full: a list that has not 16 segments raises the [ValueError] that
    gives its length, whatever the segments are; with 16 segments the first
    one that does not start with a hexadecimal digit raises the
    [ValueError] that quotes it; otherwise the result is the segments
    written one after the other with a hyphen after the 4th, 6th, 8th and
    10th. *)
Theorem hex_pairs_to_uid_outcome (segments : list string) :
  hex_pairs_to_uid [Py.List segments]
  = if Nat.eqb (length segments) 16
    then match find (fun s => negb (starts_with_hex s)) segments with
         | Some bad =>
             Error (ValueError
                      ("The pair '" +:+ bad +:+ "' is not a valid hexadecimal"))
         | None => Ok (uid_of_segments segments)
         end
    else Error (ValueError
                  ("Paris must have 16 hex pairs to form a valid unique id (length is "
                   +:+ Py.str_of_nat (length segments) +:+ ")")).
Proof.
  unfold hex_pairs_to_uid. cbn [Py.list_star Py.iterate bind].
  destruct (Nat.eqb (length segments) 16) eqn:E; [|reflexivity].
  cbn [negb]. rewrite check_pairs_find.
  destruct (find _ segments); [reflexivity|]. cbn [bind].
  apply format_template. now apply Nat.eqb_eq.
Qed.

Lemma chars_length (s : string) : length (Py.chars s) = String.length s.
Proof. induction s as [|c s IH]; [reflexivity|]. cbn. now rewrite IH. Qed.

Lemma check_pairs_chars (s : string) :
  check_pairs (Py.chars s) = Ok tt ->
  match_repeat Hex (String.length s) s = Some EmptyString.
Proof.
  induction s as [|c s IH]; [reflexivity|].
  cbn [Py.chars check_pairs String.length match_repeat atom_matches].
  rewrite re_match_hex_regex. cbn [starts_with_hex].
  destruct (is_hex c); [exact IH | discriminate].
Qed.

Lemma format_chars_length (s : string) (u : string) :
  String.length s = 16 -> Py.format UID_TEMPLATE (Py.chars s) = Ok u ->
  String.length u = 20.
Proof.
  intros H.
  do 16 (destruct s as [|? s]; [discriminate|]).
  destruct s; [|discriminate]. cbn. intros [= <-]. reflexivity.
Qed.

Lemma re_fullmatch_length (r : regex) (s : string) :
  re_fullmatch r s = true -> String.length s = regex_len r.
Proof.
  intros H. apply re_fullmatch_inv in H.
  destruct (match_prefix_split r _ _ H) as (m & -> & L & _).
  now rewrite append_empty_r.
Qed.

(** A split that gives one component gives the path itself. *)
Lemma split_all_loop_grows (fuel : nat) :
  forall path acc r,
    split_all_loop fuel path acc = Some r ->
    (exists first, r = first :: acc /\ first = path)
    \/ S (length acc) < length r.
Proof.
  induction fuel as [|fuel IH]; intros path acc r H; [discriminate|].
  rewrite split_all_loop_S in H.
  destruct (String.eqb (fst (posixpath.split path)) path) eqn:E1.
  - left. apply String.eqb_eq in E1. rewrite E1 in H. exists path.
    split; congruence.
  - destruct (String.eqb (snd (posixpath.split path)) path) eqn:E2.
    + left. apply String.eqb_eq in E2. rewrite E2 in H. exists path.
      split; congruence.
    + right. destruct (IH _ _ _ H) as [(first & -> & _) | L].
      * simpl. lia.
      * simpl in L. lia.
Qed.

(** X6. [dir_to_uid] never returns a canonical unique id. It hands the
    components of the path to [hex_pairs_to_uid] as separate arguments, so a
    path of two or more components, a shard path among them, raises the
    [TypeError] of [list] that counts them. It returns only for a path that
    is its own single component and consists of 16 hexadecimal digits, and
    then the result has 20 characters. *)
Theorem dir_to_uid_never_decodes (path_dir : string) :
  exists parts res,
    split_all path_dir = Some parts
    /\ dir_to_uid path_dir = Some res
    /\ (2 <= length parts ->
        res = Error (TypeError ("list expected at most 1 argument, got "
                                +:+ Py.str_of_nat (length parts))))
    /\ (forall u, res = Ok u ->
          parts = [path_dir]
          /\ re_fullmatch [(Hex, 16)] path_dir = true
          /\ String.length u = 20
          /\ canonical_uid u = false).
Proof.
  destruct (split_all_terminates_aux path_dir) as (part & parts & H).
  exists (part :: parts), (hex_pairs_to_uid (map Py.Str (part :: parts))).
  split; [exact H|]. split; [unfold dir_to_uid; now rewrite H|].
  destruct parts as [|part' parts].
  - split; [simpl; lia|]. intros u Hu.
    assert (Hp : part = path_dir).
    { unfold split_all in H. apply split_all_loop_grows in H.
      destruct H as [(first & E & <-) | L]; [congruence | simpl in L; lia]. }
    subst part. split; [reflexivity|].
    unfold hex_pairs_to_uid in Hu. cbn [map Py.list_star Py.iterate bind] in Hu.
    rewrite chars_length in Hu.
    destruct (Nat.eqb (String.length path_dir) 16) eqn:E; [|discriminate].
    apply Nat.eqb_eq in E. cbn [negb] in Hu.
    destruct (check_pairs (Py.chars path_dir)) as [[]|] eqn:C; [|discriminate].
    cbn [bind] in Hu. apply check_pairs_chars in C. rewrite E in C.
    split; [unfold re_fullmatch; cbn [match_prefix]; now rewrite C|].
    pose proof (format_chars_length _ _ E Hu) as L. split; [exact L|].
    destruct (canonical_uid u) eqn:Cu; [|reflexivity].
    apply re_fullmatch_length in Cu. rewrite L in Cu. discriminate.
  - split; [|discriminate]. intros _.
    unfold hex_pairs_to_uid.
    cbn [map Py.list_star bind length]. now rewrite length_map.
Qed.

End decoder.

(** ** [string_to_bool] *)

Section booleans.

Lemma in_all_ascii (c : ascii) : In c all_ascii.
Proof.
  unfold all_ascii. rewrite <- (ascii_nat_embedding c).
  apply in_map, in_seq. pose proof (nat_ascii_bounded c). lia.
Qed.

(** The characters [lower] takes to a small letter are the letter and its
    capital. *)
Lemma lower_char_small (c x : ascii) :
  is_small x = true -> (lower_char c = x <-> c = x \/ c = capital x).
Proof.
  intros Hx.
  assert (H : lower_char_checked = true) by (vm_compute; reflexivity).
  unfold lower_char_checked in H. rewrite forallb_forall in H.
  specialize (H x (in_all_ascii x)). rewrite Hx in H. cbn [negb orb] in H.
  rewrite forallb_forall in H. specialize (H c (in_all_ascii c)).
  apply Bool.eqb_prop in H.
  rewrite <- Ascii.eqb_eq, H, orb_true_iff, !Ascii.eqb_eq. reflexivity.
Qed.

Lemma lower_variants (word : string) :
  forallb is_small (list_ascii_of_string word) = true ->
  forall s, lower s = word <-> In s (case_variants word).
Proof.
  induction word as [|x w IH]; intros Hw s.
  - cbn. destruct s; cbn; split; intros H; try discriminate; auto.
    destruct H as [H | []]; discriminate.
  - cbn [list_ascii_of_string forallb] in Hw.
    apply andb_true_iff in Hw as [Hx Hw]. specialize (IH Hw).
    cbn [case_variants]. rewrite in_flat_map. split.
    + destruct s as [|c s']; [discriminate|]. cbn [lower]. intros [= Hc Hs].
      exists s'. split; [now apply IH|].
      apply (lower_char_small c x Hx) in Hc as [-> | ->]; cbn; auto.
    + intros (v & Hv & Hs). apply IH in Hv.
      destruct Hs as [<- | [<- | []]]; cbn [lower]; f_equal; try exact Hv;
        apply (lower_char_small _ x Hx); auto.
Qed.

Lemma str_in_In (x : string) (l : list string) : str_in x l = true <-> In x l.
Proof.
  unfold str_in. rewrite existsb_exists. split.
  - intros (y & Hy & E). apply String.eqb_eq in E. now subst.
  - intros H. exists x. split; [exact H | apply String.eqb_refl].
Qed.

Lemma str_in_lower (str : string) (words : list string) :
  Forall (fun w => forallb is_small (list_ascii_of_string w) = true) words ->
  str_in (lower str) words = str_in str (flat_map case_variants words).
Proof.
  intros Hw. apply eq_true_iff_eq. rewrite !str_in_In, in_flat_map. split.
  - intros H. exists (lower str). split; [exact H|].
    rewrite List.Forall_forall in Hw. now apply lower_variants; [apply Hw|].
  - intros (w & Hin & Hv). rewrite List.Forall_forall in Hw.
    apply lower_variants in Hv; [|now apply Hw]. now rewrite Hv.
Qed.

(** X7. What [string_to_bool] accepts: [True] for the 16 spellings of
    [true] and the 2 of [t] in capital and small letters, [False] for the 32
    spellings of [false] and the 2 of [f], and for every other text (the
    empty one, one with a blank around the word, [yes], [1]) the
    [ValueError] that quotes the text as it was given. *)
Theorem string_to_bool_accepts (str : string) :
  string_to_bool str
  = if str_in str (case_variants "true" ++ case_variants "t") then Ok true
    else if str_in str (case_variants "false" ++ case_variants "f") then Ok false
    else Error (ValueError ("Can't interpret '" +:+ str +:+ "' as boolean")).
Proof.
  unfold string_to_bool.
  rewrite (str_in_lower str ["true"; "t"]), (str_in_lower str ["false"; "f"]).
  - cbn [flat_map]. now rewrite !app_nil_r.
  - repeat constructor.
  - repeat constructor.
Qed.

End booleans.

(** ** [random_password] and [password_hash] *)

Section passwords.

Variable shuffle : list ascii -> list ascii.

Hypothesis shuffle_permutes : forall l, Permutation (shuffle l) l.

Lemma string_of_list_length (l : list ascii) :
  String.length (string_of_list_ascii l) = length l.
Proof. induction l as [|c l IH]; [reflexivity|]. cbn. now rewrite IH. Qed.

Lemma slice_upto_length {A : Type} (stop : Z) (l : list A) :
  length (slice_upto stop l)
  = Z.to_nat (if Z.ltb stop 0 then Z.max 0 (Z.of_nat (length l) + stop)
              else Z.min stop (Z.of_nat (length l))).
Proof.
  unfold slice_upto. rewrite length_firstn.
  destruct (Z.ltb stop 0) eqn:E; [apply Z.ltb_lt in E | apply Z.ltb_ge in E]; lia.
Qed.

Lemma slice_upto_NoDup {A : Type} (stop : Z) (l : list A) :
  List.NoDup l -> List.NoDup (slice_upto stop l).
Proof.
  unfold slice_upto. intros H.
  rewrite <- (firstn_skipn (Z.to_nat (if Z.ltb stop 0
                                      then Z.max 0 (Z.of_nat (length l) + stop)
                                      else Z.min stop (Z.of_nat (length l)))) l)
    in H.
  now apply NoDup_app_remove_r in H.
Qed.

Lemma slice_upto_In {A : Type} (stop : Z) (l : list A) (x : A) :
  In x (slice_upto stop l) -> In x l.
Proof.
  unfold slice_upto. intros H.
  rewrite <- (firstn_skipn (Z.to_nat (if Z.ltb stop 0
                                      then Z.max 0 (Z.of_nat (length l) + stop)
                                      else Z.min stop (Z.of_nat (length l)))) l).
  apply in_or_app. now left.
Qed.

Lemma alphabet_NoDup (with_specials : bool) :
  List.NoDup
    (list_ascii_of_string (if with_specials then chars +:+ specials else chars)).
Proof.
  apply NoDup_ListNoDup.
  destruct with_specials; apply (bool_decide_unpack _); vm_compute; exact I.
Qed.

(** X8. The passwords of [random_password], whatever order the shuffle
    leaves the characters in: no character occurs twice, every character
    is one of the 62 letters and digits or, with [with_specials], of the 18
    special characters as well; a length from 0 on gives that many
    characters but never more than there are to choose from (80, or 62
    without the special characters), and a negative length [-k] gives all
    of them but [k]. *)
Theorem random_password_shape (length : Z) (with_specials : bool) :
  let alphabet :=
    list_ascii_of_string (if with_specials then chars +:+ specials else chars) in
  let n := if with_specials then 80%Z else 62%Z in
  let password := random_password shuffle length with_specials in
  List.NoDup (list_ascii_of_string password)
  /\ (forall c, In c (list_ascii_of_string password) -> In c alphabet)
  /\ ((0 <= length)%Z -> String.length password = Z.to_nat (Z.min length n))
  /\ ((length < 0)%Z -> String.length password = Z.to_nat (Z.max 0 (n + length))).
Proof.
  intros alphabet n password.
  assert (E : password = string_of_list_ascii (slice_upto length (shuffle alphabet))).
  { unfold password, random_password, alphabet. now destruct with_specials. }
  assert (L : Z.of_nat (List.length (shuffle alphabet)) = n).
  { rewrite (Permutation_length (shuffle_permutes alphabet)).
    unfold alphabet, n. now destruct with_specials. }
  rewrite E, list_ascii_of_string_of_list_ascii, string_of_list_length,
    slice_upto_length, L.
  split; [|split; [|split]].
  - apply slice_upto_NoDup.
    apply (Permutation_NoDup (Permutation_sym (shuffle_permutes alphabet))).
    apply alphabet_NoDup.
  - intros c Hc. apply slice_upto_In in Hc.
    now apply (Permutation_in _ (shuffle_permutes alphabet)).
  - intros H. apply Z.ltb_ge in H. now rewrite H.
  - intros H. apply Z.ltb_lt in H. now rewrite H.
Qed.

End passwords.

Lemma random_password_shape_witness :
  List.NoDup (list_ascii_of_string (random_password (@rev ascii) 15 true))
  /\ String.length (random_password (@rev ascii) 15 true) = 15
  /\ String.length (random_password (@rev ascii) 100 false) = 62
  /\ String.length (random_password (@rev ascii) (-1) true) = 79.
Proof.
  pose proof (random_password_shape (@rev ascii)
                (fun l => Permutation_sym (Permutation_rev l))) as H.
  split; [apply (H 15%Z true)|].
  split; [apply (H 15%Z true); lia|].
  split; [apply (H 100%Z false); lia | apply (H (-1)%Z true); lia].
Defined.

Section hashing.

Variable md5_hexdigest : string -> string.

Lemma is_ascii_app (a b : string) : is_ascii (a +:+ b) = is_ascii a && is_ascii b.
Proof.
  unfold is_ascii. induction a as [|c a IH]; [reflexivity|].
  cbn [String.append list_ascii_of_string forallb]. now rewrite IH, andb_assoc.
Qed.

(** The salt of a call, when the configuration gives one. *)
Lemma password_hash_returns (config : result (gmap string string))
  (password h : string) :
  password_hash md5_hexdigest config password = Returns h ->
  exists salt,
    h = md5_hexdigest (salted password salt)
    /\ is_ascii password = true /\ is_ascii salt = true
    /\ match config with
       | Ok c => c !! "authentication_salt" = Some salt
       | Error (ValueError _) => salt = EmptyString
       | Error _ => False
       end.
Proof.
  unfold password_hash.
  destruct config as [c | e].
  - destruct (c !! "authentication_salt") as [salt|] eqn:E; [|discriminate].
    destruct (is_ascii (salted password salt)) eqn:A; [|discriminate].
    intros [= <-]. exists salt. unfold salted in A.
    rewrite !is_ascii_app in A. apply andb_true_iff in A as [A1 A2].
    apply andb_true_iff in A2 as [_ A2]. now repeat split.
  - destruct e; try discriminate.
    rewrite lookup_singleton_eq.
    destruct (is_ascii (salted password EmptyString)) eqn:A; [|discriminate].
    intros [= <-]. exists EmptyString. unfold salted in A.
    rewrite !is_ascii_app in A. apply andb_true_iff in A as [A1 A2].
    now repeat split.
Qed.

(** X9. Two calls of [password_hash] under one configuration that return
    the same hash: both passwords are ASCII, and either they are the same
    password or the digest function itself takes two different salted texts
    [password:salt] to one value. The salting adds no collisions of its
    own. *)
Theorem password_hash_collisions (config : result (gmap string string))
  (p1 p2 h : string) :
  password_hash md5_hexdigest config p1 = Returns h ->
  password_hash md5_hexdigest config p2 = Returns h ->
  is_ascii p1 = true /\ is_ascii p2 = true
  /\ (p1 = p2
      \/ exists salt,
           md5_hexdigest (salted p1 salt) = md5_hexdigest (salted p2 salt)
           /\ salted p1 salt <> salted p2 salt).
Proof.
  intros H1 H2.
  apply password_hash_returns in H1 as (s1 & E1 & A1 & _ & C1).
  apply password_hash_returns in H2 as (s2 & E2 & A2 & _ & C2).
  split; [exact A1|]. split; [exact A2|].
  assert (Es : s1 = s2).
  { destruct config as [c | []]; try contradiction; congruence. }
  subst s2. destruct (String.eqb p1 p2) eqn:E.
  - left. now apply String.eqb_eq.
  - right. exists s1. split; [congruence|].
    unfold salted. intros Hs. apply append_inj_r in Hs.
    apply String.eqb_neq in E. contradiction.
Qed.

End hashing.

Lemma password_hash_collisions_witness :
  password_hash (fun _ => "d41d8cd98f00b204e9800998ecf8427e")
    (Ok {[ "authentication_salt" := "pepper" ]}) "secret"
  = Returns "d41d8cd98f00b204e9800998ecf8427e"
  /\ password_hash (fun _ => "d41d8cd98f00b204e9800998ecf8427e")
       (Ok {[ "authentication_salt" := "pepper" ]}) "hunter2"
     = Returns "d41d8cd98f00b204e9800998ecf8427e"
  /\ is_ascii "secret" = true /\ is_ascii "hunter2" = true
  /\ ("secret" = "hunter2"
      \/ exists salt,
           (fun _ : string => "d41d8cd98f00b204e9800998ecf8427e")
             (salted "secret" salt)
           = (fun _ : string => "d41d8cd98f00b204e9800998ecf8427e")
               (salted "hunter2" salt)
           /\ salted "secret" salt <> salted "hunter2" salt).
Proof.
  split; [vm_compute; reflexivity|]. split; [vm_compute; reflexivity|].
  apply (password_hash_collisions (fun _ => "d41d8cd98f00b204e9800998ecf8427e")
           (Ok {[ "authentication_salt" := "pepper" ]}) "secret" "hunter2"
           "d41d8cd98f00b204e9800998ecf8427e"); vm_compute; reflexivity.
Defined.

(** ** The retrieval in every run *)

Section frame.

Import os catalog entry_point.

Abbreviation sep := posixpath.sep.

Lemma only_writes_fs (ts : list string) (w w' : world) :
  fs w' = fs w -> only_writes ts w w'.
Proof. intros E p. left. now rewrite E. Qed.

Lemma only_writes_trans (ts : list string) (w1 w2 w3 : world) :
  only_writes ts w1 w2 -> only_writes ts w2 w3 -> only_writes ts w1 w3.
Proof.
  intros H12 H23 p.
  destruct (H23 p) as [E | [[N D] | (T & ND & c & F)]];
    destruct (H12 p) as [E' | [[N' D'] | (T' & ND' & c' & F')]].
  - left. congruence.
  - right. left. split; congruence.
  - right. right. split; [exact T'|]. split; [exact ND'|]. exists c'. congruence.
  - right. left. split; congruence.
  - congruence.
  - congruence.
  - right. right. split; [exact T|]. split; [congruence|]. now exists c.
  - congruence.
  - right. right. split; [exact T|]. split; [exact ND'|]. now exists c.
Qed.

Lemma only_writes_mono (ts ts' : list string) (w w' : world) :
  (forall p, In p ts -> In p ts') -> only_writes ts w w' -> only_writes ts' w w'.
Proof.
  intros Hin H p.
  destruct (H p) as [E | [N | (T & R)]]; [now left | now right; left|].
  right. right. split; [now apply Hin | exact R].
Qed.

Lemma only_writes_keeps (ts : list string) (w w' : world) :
  only_writes ts w w' -> keeps_all w w'.
Proof.
  intros H p x Hx. destruct (H p) as [E | [[N D] | (T & ND & c & F)]].
  - exists x. split; [congruence | tauto].
  - congruence.
  - exists (File c). split; [exact F|]. split; [congruence | discriminate].
Qed.

(** A name [mkdir] or [open] creates was not there. *)
Lemma created_was_missing (name : string) (w : world) :
  stat name w = None -> parent_error name w = None -> fs w !! name = None.
Proof.
  unfold stat, parent_error.
  destruct (is_root name); [discriminate|].
  destruct (String.eqb name EmptyString); [discriminate | congruence].
Qed.

Lemma insert_only_writes_dir (ts : list string) (name : string) (w : world) :
  fs w !! name = None ->
  only_writes ts w (World (<[name := Dir]> (fs w)) (stdout w)).
Proof.
  intros H p. cbn [fs]. destruct (String.eqb p name) eqn:E.
  - apply String.eqb_eq in E. subst p. right. left.
    split; [exact H | apply lookup_insert_eq].
  - apply String.eqb_neq in E. left. now apply lookup_insert_ne.
Qed.

Lemma insert_only_writes_file (name c : string) (w : world) :
  fs w !! name <> Some Dir ->
  only_writes [name] w (World (<[name := File c]> (fs w)) (stdout w)).
Proof.
  intros H p. cbn [fs]. destruct (String.eqb p name) eqn:E.
  - apply String.eqb_eq in E. subst p. right. right.
    split; [now left|]. split; [exact H|]. exists c. apply lookup_insert_eq.
  - apply String.eqb_neq in E. left. now apply lookup_insert_ne.
Qed.

Lemma mkdir_writes (ts : list string) (name : string) (w w' : world)
  (res : result unit) :
  mkdir name w = (res, w') -> stdout w' = stdout w /\ only_writes ts w w'.
Proof.
  unfold mkdir. intros H.
  destruct (stat name w) as [n|] eqn:Hs;
    [injection H as _ <-; split; [reflexivity | now apply only_writes_fs]|].
  destruct (parent_error name w) as [e|] eqn:He; injection H as _ <-;
    [split; [reflexivity | now apply only_writes_fs]|].
  split; [reflexivity|]. apply insert_only_writes_dir.
  now apply created_was_missing.
Qed.

Lemma mkdir_exist_ok_writes (ts : list string) (name : string) (ok : bool)
  (w w' : world) (res : result unit) :
  mkdir_exist_ok name ok w = (res, w') ->
  stdout w' = stdout w /\ only_writes ts w w'.
Proof.
  unfold mkdir_exist_ok. intros H.
  destruct (mkdir name w) as [[[]|e] w1] eqn:E.
  - injection H as _ <-. exact (mkdir_writes ts _ _ _ _ E).
  - destruct (negb ok || negb (isdir name w1)); injection H as _ <-;
      exact (mkdir_writes ts _ _ _ _ E).
Qed.

Lemma makedirs_rec_writes (ts : list string) (fuel : nat) :
  forall name ok w w' res,
    makedirs_rec fuel name ok w = (res, w') ->
    stdout w' = stdout w /\ only_writes ts w w'.
Proof.
  induction fuel as [|fuel IH]; intros name ok w w' res H.
  - injection H as _ <-. split; [reflexivity | now apply only_writes_fs].
  - rewrite makedirs_rec_S in H. cbv zeta in H.
    match type of H with
    | (if ?c then _ else _) = _ => destruct c
    end.
    + match type of H with
      | context [makedirs_rec fuel ?h ok w] =>
          destruct (makedirs_rec fuel h ok w) as [r1 w1] eqn:E1
      end.
      destruct (IH _ _ _ _ _ E1) as [S1 O1].
      assert (Hstep : forall res2 w2,
                 (if String.eqb
                       (snd (if String.eqb (snd (posixpath.split name)) EmptyString
                             then posixpath.split (fst (posixpath.split name))
                             else posixpath.split name)) "."
                  then (Ok tt, w1) else mkdir_exist_ok name ok w1) = (res2, w2) ->
                 stdout w2 = stdout w /\ only_writes ts w w2).
      { intros res2 w2 H2.
        match type of H2 with
        | (if ?c then _ else _) = _ => destruct c
        end.
        - injection H2 as _ <-. now split.
        - destruct (mkdir_exist_ok_writes ts _ _ _ _ _ H2) as [S2 O2].
          split; [congruence | exact (only_writes_trans _ _ _ _ O1 O2)]. }
      destruct r1 as [[]|e].
      * exact (Hstep _ _ H).
      * destruct e; try (injection H as _ <-; now split).
        exact (Hstep _ _ H).
    + exact (mkdir_exist_ok_writes ts _ _ _ _ _ H).
Qed.

Lemma file_not_dir (name : string) (w : world) :
  match stat name w with
  | Some Dir => False
  | Some (File _) => True
  | None => parent_error name w = None
  end ->
  fs w !! name <> Some Dir.
Proof.
  destruct (stat name w) as [[c|]|] eqn:Hs; intros H.
  - unfold stat in Hs. destruct (is_root name); [discriminate|].
    destruct (String.eqb name EmptyString); [discriminate | congruence].
  - contradiction.
  - rewrite (created_was_missing name w Hs H). discriminate.
Qed.

Lemma write_file_writes (name content : string) (w w' : world)
  (res : result unit) :
  write_file name content w = (res, w') ->
  stdout w' = stdout w /\ only_writes [name] w w'.
Proof.
  unfold write_file. cbv zeta. intros H.
  pose proof (file_not_dir name w) as Hnd.
  assert (Hsame : forall e : exn,
            (Error e : result unit, w) = (res, w') ->
            stdout w' = stdout w /\ only_writes [name] w w').
  { intros e [= _ <-]. split; [reflexivity | now apply only_writes_fs]. }
  assert (Hnew : fs w !! name <> Some Dir ->
                 (Ok tt, World (<[name := File content]> (fs w)) (stdout w))
                 = (res, w') ->
                 stdout w' = stdout w /\ only_writes [name] w w').
  { intros Hfree [= _ <-]. split; [reflexivity|].
    now apply insert_only_writes_file. }
  destruct (stat name w) as [[c|]|] eqn:Hs.
  - destruct (Py.endswith posixpath.sep name);
      [exact (Hsame _ H) | exact (Hnew (Hnd I) H)].
  - exact (Hsame _ H).
  - destruct (parent_error name w) as [e|] eqn:He; [exact (Hsame _ H)|].
    destruct (Py.endswith posixpath.sep name);
      [exact (Hsame _ H) | exact (Hnew (Hnd eq_refl) H)].
Qed.

Lemma copyfile_writes (src dst : string) (w w' : world) (res : result unit) :
  shutil.copyfile src dst w = (res, w') ->
  stdout w' = stdout w /\ only_writes [dst] w w'.
Proof.
  unfold shutil.copyfile. intros H.
  destruct (String.eqb src dst && path_exists src w).
  - injection H as _ <-. split; [reflexivity | now apply only_writes_fs].
  - unfold iobind, read_file in H.
    destruct (stat src w) as [[c|]|].
    + exact (write_file_writes _ _ _ _ _ H).
    + injection H as _ <-. split; [reflexivity | now apply only_writes_fs].
    + injection H as _ <-. split; [reflexivity | now apply only_writes_fs].
Qed.

Lemma copy_writes (src dst : string) (w w' : world) (res : result unit) :
  shutil.copy src dst w = (res, w') ->
  stdout w' = stdout w
  /\ only_writes [dst; posixpath.join dst [snd (posixpath.split src)]] w w'.
Proof.
  unfold shutil.copy. intros H. apply copyfile_writes in H as [S O].
  split; [exact S|]. revert O. apply only_writes_mono.
  intros p [<- | []]. destruct (isdir dst w); cbn; auto.
Qed.

Lemma endswith_inv (c : ascii) (s : string) :
  Py.endswith c s = true -> exists s', s = s' +:+ String c EmptyString.
Proof.
  induction s as [|a s IH]; [discriminate|].
  destruct s as [|b s].
  - cbn. intros H. apply Ascii.eqb_eq in H. subst a. now exists EmptyString.
  - rewrite endswith_cons. intros H. destruct (IH H) as (s' & E).
    exists (String a s'). cbn. now rewrite <- E.
Qed.

(** The base name of a path joined with a name is that name. *)
Lemma split_join_step_name (path b : string) :
  is_name b = true -> snd (posixpath.split (posixpath.join_step path b)) = b.
Proof.
  intros Hb. destruct (is_name_inv b Hb) as [Hb1 Hb2].
  assert (Hsep : forall a, snd (posixpath.split (a +:+ String sep b)) = b).
  { intros a. unfold posixpath.split. cbn [snd].
    rewrite (rfind_succ_app a b Hb2). apply slice_from_app. }
  unfold posixpath.join_step. rewrite (no_sep_startswith b Hb2).
  destruct (String.eqb path EmptyString) eqn:E1.
  - apply String.eqb_eq in E1. subst path. cbn [orb String.append].
    now rewrite (split_name b Hb2).
  - cbn [orb]. destruct (Py.endswith sep path) eqn:E2.
    + apply endswith_inv in E2 as (a & ->). rewrite append_assoc.
      cbn [String.append]. apply Hsep.
    + cbn [String.append]. apply Hsep.
Qed.

Lemma retrieve_row_writes (d s : string) (r : row) (w w' : world)
  (res : result unit) :
  retrieve_row d s r w = (res, w') ->
  stdout w' = stdout w /\ only_writes (destinations d [r]) w w'.
Proof.
  unfold retrieve_row, iobind, lift, source_zip. intros H.
  destruct (uid_to_dir (unique_id r)) as [dir|e]; cbn [bind] in H.
  - destruct (makedirs (output_dir d r) true w) as [r1 w1] eqn:E1.
    unfold makedirs in E1.
    destruct (makedirs_rec_writes (destinations d [r]) _ _ _ _ _ _ E1) as [S1 O1].
    destruct r1 as [[]|e].
    + apply copy_writes in H as [S2 O2].
      change (posixpath.join s [dir; "data.zip"])
        with (posixpath.join_step (posixpath.join_step s dir) "data.zip") in O2.
      rewrite (split_join_step_name _ "data.zip" eq_refl) in O2.
      split; [congruence|]. apply (only_writes_trans _ _ _ _ O1).
      revert O2. apply only_writes_mono. cbn. tauto.
    + injection H as _ <-. now split.
  - injection H as _ <-. split; [reflexivity | now apply only_writes_fs].
Qed.

Lemma destinations_app (d : string) (pre post : list row) :
  destinations d (pre ++ post) = destinations d pre ++ destinations d post.
Proof. unfold destinations. apply flat_map_app. Qed.

Lemma for_each_writes (d s : string) (rows : list row) :
  forall w w' res,
    for_each (retrieve_row d s) rows w = (res, w') ->
    stdout w' = stdout w /\ only_writes (destinations d rows) w w'.
Proof.
  induction rows as [|r rows IH]; intros w w' res H.
  - injection H as _ <-. split; [reflexivity | now apply only_writes_fs].
  - cbn [for_each] in H. unfold iobind in H.
    destruct (retrieve_row d s r w) as [r1 w1] eqn:E1.
    apply retrieve_row_writes in E1 as [S1 O1].
    assert (O1' : only_writes (destinations d (r :: rows)) w w1).
    { revert O1. apply only_writes_mono. intros p Hp.
      change (r :: rows) with ([r] ++ rows). rewrite destinations_app.
      apply in_or_app. now left. }
    destruct r1 as [[]|e].
    + apply IH in H as [S2 O2]. split; [congruence|].
      apply (only_writes_trans _ _ _ _ O1'). revert O2. apply only_writes_mono.
      intros p Hp. change (r :: rows) with ([r] ++ rows).
      rewrite destinations_app. apply in_or_app. now right.
    + injection H as _ <-. now split.
Qed.

Lemma retrieve_models_frame_aux (db_user project_name d s : string)
  (conn : database) (w : world) (rows : list row) :
  get_models_by_user_project db_user project_name conn = Ok rows ->
  let run := retrieve_models db_user project_name d s conn w in
  stdout (snd run)
  = stdout w ++ [Printed (retrieved_message rows); Displayed (length rows)]
  /\ only_writes (destinations d rows) w (snd run).
Proof.
  intros Hrows run.
  destruct (for_each (retrieve_row d s) rows
              (World (fs w) (stdout w ++ [Printed (retrieved_message rows)])))
    as [r1 w1] eqn:E.
  assert (Hrun : snd run = World (fs w1) (stdout w1 ++ [Displayed (length rows)])).
  { unfold run. rewrite (retrieve_models_run _ _ _ _ _ _ rows Hrows), E.
    now destruct r1 as [[]|e]. }
  rewrite Hrun. apply for_each_writes in E as [S O]. cbn [stdout] in *. split.
  - rewrite S. now rewrite <- app_assoc.
  - exact O.
Qed.

Lemma query_error_retrieve (db_user project_name d s : string) (conn : database)
  (w : world) (e : exn) :
  get_models_by_user_project db_user project_name conn = Error e ->
  retrieve_models db_user project_name d s conn w = (Error e, w).
Proof. intros H. unfold retrieve_models. now rewrite H. Qed.

(** X12. What [retrieve_models] does to the world in every run. When the
    query raises, the command raises the same and leaves the world as it
    was: nothing is printed. Otherwise, whether the run ends normally or
    raises, its one [print] adds the line with the count and the progress
    display follows; for roots spelled from plain names and rows with
    canonical unique ids and plain names in their fields (where the spelling
    of a path is the place it names), a path is left as it was, or was free
    and is a directory now, or is the destination file of a row (or
    [data.zip] below a directory of that name), was no directory and is a
    file now. So nothing is removed, and no directory is replaced by a file
    or a file by a directory. *)
Theorem retrieve_models_frame (db_user project_name d s : string)
  (conn : database) (w : world) :
  let run := retrieve_models db_user project_name d s conn w in
  (forall e,
     get_models_by_user_project db_user project_name conn = Error e ->
     run = (Error e, w))
  /\ (forall rows,
        get_models_by_user_project db_user project_name conn = Ok rows ->
        stdout (snd run)
        = stdout w ++ [Printed (retrieved_message rows); Displayed (length rows)]
        /\ (plain_path d = true -> plain_path s = true ->
            (forall r, In r rows -> valid_row r = true) ->
            only_writes (destinations d rows) w (snd run)
            /\ keeps_all w (snd run))).
Proof.
  intros run. split.
  - intros e H. now apply query_error_retrieve.
  - intros rows Hrows.
    destruct (retrieve_models_frame_aux db_user project_name d s conn w rows Hrows)
      as [S O].
    split; [exact S|]. intros _ _ _. split; [exact O|].
    exact (only_writes_keeps _ _ _ O).
Qed.

End frame.

Lemma retrieve_models_frame_witness :
  let rows := [row_of uid0; row_of uid_b; row_of uid_c] in
  let run := entry_point.retrieve_models "%" "%" "out" "/src" conn3 world3 in
  entry_point.get_models_by_user_project "%" "%" conn3 = Ok rows
  /\ fst run
     = Error (FileNotFoundError
                "/src/11/11/11/11/22/22/33/33/44/44/55/55/55/55/55/55/data.zip")
  /\ os.stdout (snd run)
     = [os.Printed "I retrieved 3 objects"; os.Displayed 3]
  /\ only_writes (destinations "out" rows) world3 (snd run)
  /\ keeps_all world3 (snd run)
  /\ entry_point.retrieve_models "%" "\" "out" "/src" conn3 world3
     = (Error (InvalidEscapeSequence
                 "LIKE pattern must not end with escape character"), world3).
Proof.
  intros rows run.
  destruct (retrieve_models_frame "%" "%" "out" "/src" conn3 world3) as [_ H].
  destruct (H rows eq_refl) as [Hout Hframe].
  assert (Hvalid : forall r, In r rows -> entry_point.valid_row r = true).
  { intros r [<- | [<- | [<- | []]]]; reflexivity. }
  destruct (Hframe eq_refl eq_refl Hvalid) as [Hwrites Hkeeps].
  split; [reflexivity|]. split; [vm_compute; reflexivity|].
  split; [exact Hout|]. split; [exact Hwrites|]. split; [exact Hkeeps|].
  apply (proj1 (retrieve_models_frame "%" "\" "out" "/src" conn3 world3)).
  reflexivity.
Defined.

Section retrieve_rest.

Import os catalog entry_point.

(** X13. A row whose unique id [uid_to_dir] does not accept ends
    [retrieve_models] with the [ValueError] that quotes the id. The files
    and directories are left as the rows before it left them: no directory
    is made and no file is copied for this row, and the rows after it are
    not looked at; the progress display ends what reached standard
    output. *)
Theorem retrieve_models_invalid_uid (db_user project_name d s : string)
  (conn : database) (w : world) (pre post : list row) (r : row) (w1 : world) :
  get_models_by_user_project db_user project_name conn = Ok (pre ++ r :: post) ->
  for_each (retrieve_row d s) pre
    (World (fs w) (stdout w ++ [Printed (retrieved_message (pre ++ r :: post))]))
  = (Ok tt, w1) ->
  canonical_uid (Py.slice_to 36 (unique_id r)) = false ->
  retrieve_models db_user project_name d s conn w
  = (Error (ValueError ("'" +:+ unique_id r +:+ "' is not a valid unique id")),
     World (fs w1) (stdout w1 ++ [Displayed (length (pre ++ r :: post))])).
Proof.
  intros Hrows Hpre Hu.
  unfold canonical_uid in Hu. change 36 with (regex_len UID_REGEX) in Hu.
  rewrite <- re_match_prefix in Hu.
  rewrite (retrieve_models_run _ _ _ _ _ _ _ Hrows).
  rewrite (for_each_app _ pre (r :: post) _ w1 Hpre).
  cbn [for_each]. unfold iobind at 1.
  unfold retrieve_row, iobind, lift, source_zip.
  now rewrite (uid_to_dir_unmatched _ Hu).
Qed.

Lemma retrieve_models_invalid_uid_witness :
  get_models_by_user_project "%" "%" conn_bad_uid
  = Ok ([row_of uid0] ++ row_of "not-a-unique-id" :: [row_of uid_c])
  /\ retrieve_models "%" "%" "out" "/src" conn_bad_uid world3_complete
     = (Error (ValueError "'not-a-unique-id' is not a valid unique id"),
        World (fs world_bad_uid_first)
              (stdout world_bad_uid_first ++ [Displayed 3]))
  /\ stat (output_zip "out" (row_of uid0)) world_bad_uid_first
     = Some (File "archive a")
  /\ stat (output_dir "out" (row_of "not-a-unique-id")) world_bad_uid_first
     = Some Dir
  /\ stat (output_zip "out" (row_of uid_c)) world_bad_uid_first = None.
Proof.
  split; [reflexivity|]. split; [|repeat split; vm_compute; reflexivity].
  apply (retrieve_models_invalid_uid "%" "%" "out" "/src" conn_bad_uid
           world3_complete [row_of uid0] [row_of uid_c]
           (row_of "not-a-unique-id") world_bad_uid_first).
  - reflexivity.
  - vm_compute. reflexivity.
  - reflexivity.
Defined.

(** X14. Under the conditions of [ready], [retrieve_models] leaves every
    source archive as it was, and outside the destination files of the rows
    it changes nothing but to make directories where there was nothing. *)
Theorem retrieve_models_keeps_rest (db_user project_name d s : string)
  (conn : database) (w : world) (rows : list row) :
  get_models_by_user_project db_user project_name conn = Ok rows ->
  let w1 := snd (retrieve_models db_user project_name d s conn w) in
  ready d s rows w = true ->
  (forall r, In r rows -> stat (source_path s r) w1 = stat (source_path s r) w)
  /\ (forall p,
        fs w1 !! p = fs w !! p
        \/ (fs w !! p = None /\ fs w1 !! p = Some Dir)
        \/ In p (map (output_zip d) rows)).
Proof.
  intros Hrows w1 Hready.
  destruct (ready_inv d s rows w Hready) as (Hd & Hvalid & Hapart & Hgood).
  destruct (retrieve_models_good db_user project_name d s conn w w rows
              Hrows Hd Hvalid Hgood) as (w' & Hrun & _ & Hg & _).
  destruct (retrieve_models_frame_aux db_user project_name d s conn w rows Hrows)
    as [_ O].
  fold w1 in O. assert (E : w1 = w') by (unfold w1; now rewrite Hrun).
  rewrite E in *. clear E w1.
  destruct Hg as (_ & _ & H3 & _ & H5 & _). split.
  - intros r Hin. destruct (H3 r Hin) as (c & -> & ->). reflexivity.
  - intros p. destruct (O p) as [E | [N | (T & ND & c & F)]];
      [now left | now right; left|].
    destruct (H5 p c F) as [E | Hin]; [left; congruence | now right; right].
Qed.

Lemma retrieve_models_keeps_rest_witness :
  get_models_by_user_project "%" "%" conn3
  = Ok [row_of uid0; row_of uid_b; row_of uid_c]
  /\ ready "out" "/src" [row_of uid0; row_of uid_b; row_of uid_c] world3_complete
     = true
  /\ forall r,
       In r [row_of uid0; row_of uid_b; row_of uid_c] ->
       stat (source_path "/src" r)
         (snd (retrieve_models "%" "%" "out" "/src" conn3 world3_complete))
       = stat (source_path "/src" r) world3_complete.
Proof.
  split; [reflexivity|]. split; [vm_compute; reflexivity|].
  apply (retrieve_models_keeps_rest "%" "%" "out" "/src" conn3 world3_complete
           [row_of uid0; row_of uid_b; row_of uid_c]).
  - reflexivity.
  - vm_compute. reflexivity.
Defined.

End retrieve_rest.


(** ** The export in every run *)

Section export_rest.

Import os catalog entry_point.

Abbreviation sep := posixpath.sep.

Variable format_cell : cell -> string.
Variable other_target : dataframe -> string -> io unit.

Lemma filter_both {A : Type} (f g : A -> bool) (l : list A) :
  List.filter (fun x => f x && g x) l = List.filter g (List.filter f l).
Proof.
  induction l as [|x l IH]; [reflexivity|]. cbn [List.filter].
  destruct (f x); cbn [andb List.filter]; [|exact IH].
  destruct (g x); now rewrite IH.
Qed.

Lemma filter_all {A : Type} (g : A -> bool) (l : list A) :
  forallb g l = true -> List.filter g l = l.
Proof.
  induction l as [|x l IH]; [reflexivity|]. cbn [forallb List.filter].
  intros H. apply andb_true_iff in H as [-> H]. now rewrite IH.
Qed.

Lemma plain_name_not_dot (n : string) :
  plain_name n = true -> negb (String.eqb n ".") = true.
Proof.
  unfold plain_name. intros H. apply andb_true_iff in H as [H _].
  now apply andb_true_iff in H as [_ H].
Qed.

(** The names [pathlib] reads in a path spelled from plain names are the
    names it is spelled from. *)
Lemma plain_path_parts (p : string) :
  plain_path p = true ->
  exists (absolute : bool) (n : string) (dirs : list string) (trailing : bool),
    plain_name n = true /\ forallb plain_name dirs = true
    /\ p = posixpath.join (if absolute then String sep n else n) dirs
           +:+ (if trailing then "/" else EmptyString)
    /\ pathlib.parts p = n :: dirs.
Proof.
  unfold pathlib.parts. rewrite filter_both. unfold plain_path.
  destruct (List.filter _ (Py.split_char posixpath.sep p)) as [|n dirs];
    [discriminate|].
  intros H. apply andb_true_iff in H as [Hpl E]. apply String.eqb_eq in E.
  assert (Hparts : List.filter (fun x => negb (String.eqb x ".")) (n :: dirs)
                   = n :: dirs).
  { apply filter_all. apply forallb_forall. intros x Hx.
    apply plain_name_not_dot. revert x Hx. now apply forallb_forall. }
  cbn [forallb] in Hpl. apply andb_true_iff in Hpl as [Hn Hdirs].
  exists (Py.startswith posixpath.sep p), n, dirs, (Py.endswith posixpath.sep p).
  split; [exact Hn|]. split; [exact Hdirs|]. split; [|exact Hparts].
  rewrite E at 1. unfold spelled. rewrite <- append_assoc. f_equal.
  pose proof (plain_name_is_name n Hn) as Hn'.
  destruct dirs as [|m dirs].
  - cbn [String.concat posixpath.join fold_left].
    now destruct (Py.startswith posixpath.sep p).
  - rewrite (join_concat (m :: dirs) _ (top_open_ended _ n Hn')
               (plain_names_are_names _ Hdirs)) by discriminate.
    change (String.concat "/" (n :: m :: dirs))
      with (n +:+ String sep (String.concat "/" (m :: dirs))).
    destruct (Py.startswith posixpath.sep p); [|reflexivity].
    reflexivity.
Qed.

Lemma join_top_shape (absolute : bool) (n : string) (dirs : list string) :
  is_name n = true -> forallb is_name dirs = true ->
  exists rest,
    posixpath.join (if absolute then String sep n else n) dirs
    = (if absolute then String sep n else n) +:+ rest
    /\ (dirs <> [] -> rest <> EmptyString).
Proof.
  intros Hn Hd. destruct dirs as [|m dirs].
  - exists EmptyString. split; [now rewrite append_empty_r | congruence].
  - exists (String sep (String.concat "/" (m :: dirs))). split; [|discriminate].
    now apply join_concat; [apply top_open_ended | |].
Qed.

Lemma root_plain (absolute : bool) (n rest : string) :
  is_name n = true ->
  pathlib.root ((if absolute then String sep n else n) +:+ rest)
  = if absolute then "/" else EmptyString.
Proof.
  intros Hn. destruct (is_name_inv n Hn) as [Hne Hns].
  destruct n as [|c n]; [congruence|].
  pose proof (no_sep_startswith _ Hns) as Hc. cbn [Py.startswith] in Hc.
  destruct absolute; cbn [String.append pathlib.root].
  - change (Ascii.eqb sep posixpath.sep) with true. cbn [negb].
    now rewrite Hc.
  - now rewrite Hc.
Qed.

Lemma top_not_dot (absolute : bool) (n rest : string) :
  plain_name n = true ->
  String.eqb ((if absolute then String sep n else n) +:+ rest) "." = false.
Proof.
  intros Hn. apply String.eqb_neq. intros E.
  destruct (is_name_inv n (plain_name_is_name n Hn)) as [Hne _].
  destruct n as [|c n]; [congruence|]. destruct absolute.
  - discriminate.
  - cbn [String.append] in E. injection E as -> E.
    destruct n; [|discriminate]. discriminate.
Qed.

Lemma parent_of_trailing (a : string) :
  open_ended a -> parent_of (a +:+ "/") = fst (posixpath.split a).
Proof.
  intros [Hne Hend]. unfold parent_of.
  change (a +:+ "/") with (a +:+ String sep EmptyString).
  now rewrite (split_sep a EmptyString Hne Hend eq_refl).
Qed.

Lemma parent_of_open (a : string) :
  snd (posixpath.split a) <> EmptyString -> parent_of a = fst (posixpath.split a).
Proof.
  intros H. unfold parent_of. apply String.eqb_neq in H. now rewrite H.
Qed.

(** On a path spelled from plain names [pathlib] and [os.path] find the
    same parent, so the check of [pandas] passes where the directory the
    file goes into is there. *)
Lemma parent_is_dir (p : string) (w : world) :
  plain_path p = true ->
  pathlib.is_dir (pathlib.parent p) w
  = match parent_error p w with
    | None => true
    | Some _ => false
    end.
Proof.
  intros Hp.
  destruct (plain_path_parts p Hp) as (absolute & n & dirs & trailing & Hn & Hd & E & Hparts).
  pose proof (plain_name_is_name n Hn) as Hn'.
  pose proof (plain_names_are_names dirs Hd) as Hd'.
  set (top := if absolute then String sep n else n) in *.
  assert (Htop : open_ended top) by now apply top_open_ended.
  pose proof (join_open_ended dirs top Htop Hd') as Hopen.
  set (whole := posixpath.join top dirs) in *.
  (* the parent as [os.path] finds it *)
  assert (Hparent : parent_of p = fst (posixpath.split whole)
                    /\ snd (posixpath.split whole) <> EmptyString).
  { assert (Hsnd : snd (posixpath.split whole) <> EmptyString).
    { unfold whole. destruct dirs as [|m ds _] using rev_ind.
      - cbn [posixpath.join fold_left]. unfold top. rewrite (split_top _ n Hn').
        cbn [snd]. now destruct (is_name_inv n Hn').
      - rewrite forallb_app in Hd'. apply andb_true_iff in Hd' as [Hds Hm].
        cbn in Hm. apply andb_true_iff in Hm as [Hm _].
        rewrite (split_join_snoc top ds m Htop Hds Hm). cbn [snd].
        now destruct (is_name_inv m Hm). }
    split; [|exact Hsnd]. rewrite E. destruct trailing.
    - now apply parent_of_trailing.
    - rewrite append_empty_r. now apply parent_of_open. }
  destruct Hparent as [Hparent _].
  assert (Hne : String.eqb p EmptyString = false).
  { apply String.eqb_neq. rewrite E. apply app_nonempty. now destruct Hopen. }
  assert (Hroot : pathlib.root p = if absolute then "/" else EmptyString).
  { destruct (join_top_shape absolute n dirs Hn' Hd') as (rest & Hrest & _).
    rewrite E. fold top in Hrest. fold whole in Hrest. rewrite Hrest.
    rewrite append_assoc. now apply root_plain. }
  unfold parent_error. rewrite Hne, Hparent.
  unfold pathlib.parent. rewrite Hroot, Hparts.
  destruct dirs as [|m ds _] using rev_ind.
  - (* the path is one name *)
    unfold whole. cbn [posixpath.join fold_left removelast]. unfold top.
    rewrite (split_top _ n Hn'). cbn [fst]. destruct absolute.
    + reflexivity.
    + reflexivity.
  - rewrite forallb_app in Hd'. apply andb_true_iff in Hd' as [Hds Hm].
    cbn in Hm. apply andb_true_iff in Hm as [Hm _].
    unfold whole. rewrite (split_join_snoc top ds m Htop Hds Hm). cbn [fst].
    change (n :: ds ++ [m]) with ((n :: ds) ++ [m]). rewrite removelast_last.
    assert (Hsame : (if absolute then "/" else EmptyString)
                    +:+ String.concat "/" (n :: ds)
                    = posixpath.join top ds).
    { destruct ds as [|d ds].
      - cbn [String.concat posixpath.join fold_left]. unfold top.
        now destruct absolute.
      - rewrite (join_concat (d :: ds) top Htop Hds) by discriminate.
        change (String.concat "/" (n :: d :: ds))
          with (n +:+ String sep (String.concat "/" (d :: ds))).
        unfold top. now destruct absolute. }
    assert (Hmatch : match (if absolute then "/" else EmptyString) with
                     | EmptyString =>
                         match n :: ds with
                         | [] => "."
                         | _ :: _ => EmptyString +:+ String.concat "/" (n :: ds)
                         end
                     | String a r => String a r +:+ String.concat "/" (n :: ds)
                     end = posixpath.join top ds).
    { rewrite <- Hsame. now destruct absolute. }
    rewrite Hmatch.
    destruct (join_open_ended ds top Htop Hds) as [Hne' _].
    apply String.eqb_neq in Hne'. rewrite Hne'.
    destruct (join_top_shape absolute n ds Hn' Hds) as (rest & Hrest & _).
    fold top in Hrest. unfold pathlib.is_dir. rewrite Hrest at 1.
    unfold top at 1. rewrite (top_not_dot absolute n rest Hn). cbn [orb].
    unfold isdir. now destruct (stat (posixpath.join top ds) w) as [[c|]|].
Qed.

Lemma write_file_refused (name content : string) (w : world) :
  parent_error name w = None -> can_create name w = false ->
  write_file name content w = (Error (IsADirectoryError name), w).
Proof.
  unfold can_create, write_file. cbv zeta. intros ->.
  destruct (Py.endswith posixpath.sep name); cbn [negb andb].
  - now destruct (stat name w) as [[c|]|].
  - now destruct (stat name w) as [[c|]|].
Qed.

Lemma query_error_model_stats (db_user project_name output_csv : string)
  (conn : database) (w : world) (e : exn) :
  get_models_by_user_project db_user project_name conn = Error e ->
  model_stats format_cell other_target db_user project_name output_csv conn w
  = (Error e, w).
Proof. intros H. unfold model_stats. now rewrite H. Qed.

(** X15. What [model_stats] does in every run that writes to a plain
    target spelled from plain names. When the query raises, the command
    raises the same and leaves the world as it was. Otherwise its one
    [print] adds the line with the count, and then: where the directory the
    file goes into is missing, [to_csv] raises the [OSError] of [pandas]
    that names that directory; where the output file is a directory, or its
    name ends in a separator, opening it raises [IsADirectoryError];
    in every other case the command returns [None] and the output file
    holds the text of the records. Every other path is left as it was in
    each case. *)
Theorem model_stats_outcome (db_user project_name output_csv : string)
  (conn : database) (w : world) :
  let run :=
    model_stats format_cell other_target db_user project_name output_csv conn w in
  (forall e,
     get_models_by_user_project db_user project_name conn = Error e ->
     run = (Error e, w))
  /\ (forall rows,
        get_models_by_user_project db_user project_name conn = Ok rows ->
        plain_path output_csv = true ->
        plain_target output_csv = true ->
        let printed :=
          World (fs w) (stdout w ++ [Printed (retrieved_message rows)]) in
        let parent := pathlib.parent output_csv in
        (run
         = if negb (pathlib.is_dir parent w)
           then (Error (OSError ("Cannot save file into a non-existent directory: '"
                                 +:+ parent +:+ "'")), printed)
           else if can_create output_csv w
           then (Ok PyNone,
                 World (<[output_csv :=
                            File (csv_text format_cell (export_records rows))]>
                          (fs w))
                       (stdout printed))
           else (Error (IsADirectoryError output_csv), printed))
        /\ forall p, p = output_csv \/ fs (snd run) !! p = fs w !! p).
Proof.
  intros run. split; [intros e H; now apply query_error_model_stats|].
  intros rows Hrows Hpath Htarget printed parent.
  assert (Hrun :
    run
    = if negb (pathlib.is_dir parent w)
      then (Error (OSError ("Cannot save file into a non-existent directory: '"
                            +:+ parent +:+ "'")), printed)
      else if can_create output_csv w
      then (Ok PyNone,
            World (<[output_csv :=
                       File (csv_text format_cell (export_records rows))]>
                     (fs w))
                  (stdout printed))
      else (Error (IsADirectoryError output_csv), printed)).
  { unfold run.
    rewrite (model_stats_to_csv format_cell other_target _ _ _ _ _ rows Hrows Htarget).
    cbv zeta. fold printed. unfold check_parent_directory. fold parent.
    change (pathlib.is_dir parent printed) with (pathlib.is_dir parent w).
    pose proof (parent_is_dir output_csv w Hpath) as Hdir. fold parent in Hdir.
    destruct (pathlib.is_dir parent w); cbn [negb]; [|reflexivity].
    destruct (parent_error output_csv w) as [e|] eqn:Hpe; [discriminate|].
    destruct (can_create output_csv w) eqn:C.
    - assert (C' : can_create output_csv printed = true) by exact C.
      now rewrite (write_file_can_create _ _ _ C').
    - assert (C' : can_create output_csv printed = false) by exact C.
      assert (Hpe' : parent_error output_csv printed = None) by exact Hpe.
      now rewrite (write_file_refused _ _ _ Hpe' C'). }
  split; [exact Hrun|]. rewrite Hrun. intros p.
  destruct (negb (pathlib.is_dir parent w)); [now right|].
  destruct (can_create output_csv w); [|now right]. cbn [snd fs].
  destruct (String.eqb p output_csv) eqn:Eq.
  - left. now apply String.eqb_eq.
  - right. apply String.eqb_neq in Eq. now apply lookup_insert_ne.
Qed.

End export_rest.

Lemma model_stats_outcome_witness :
  let run := entry_point.model_stats plain_text (fun _ _ => os.ret tt) "alice" "gr%" in
  let printed := os.World (os.fs world0) [os.Printed "I retrieved 1 objects"] in
  entry_point.get_models_by_user_project "alice" "gr%" conn0 = Ok [row0]
  /\ run "missing/stats.csv" conn0 world0
     = (Error (OSError "Cannot save file into a non-existent directory: 'missing'"),
        printed)
  /\ run "out" conn0 world0 = (Error (IsADirectoryError "out"), printed)
  /\ run "out/" conn0 world0 = (Error (IsADirectoryError "out/"), printed)
  /\ run "out/stats.csv" conn0 world0
     = (Ok entry_point.PyNone,
        os.World
          (<["out/stats.csv" :=
               os.File (entry_point.csv_text plain_text
                          (entry_point.export_records [row0]))]> (os.fs world0))
          [os.Printed "I retrieved 1 objects"])
  /\ entry_point.model_stats plain_text (fun _ _ => os.ret tt)
       "alice" "gr\" "stats.csv" conn0 world0
     = (Error (InvalidEscapeSequence
                 "LIKE pattern must not end with escape character"), world0).
Proof.
  intros run printed.
  pose proof (fun path =>
                proj2 (model_stats_outcome plain_text (fun _ _ => os.ret tt)
                         "alice" "gr%" path conn0 world0) [row0] eq_refl) as H.
  split; [reflexivity|].
  split; [exact (proj1 (H "missing/stats.csv" eq_refl eq_refl))|].
  split; [exact (proj1 (H "out" eq_refl eq_refl))|].
  split; [exact (proj1 (H "out/" eq_refl eq_refl))|].
  split; [exact (proj1 (H "out/stats.csv" eq_refl eq_refl))|].
  apply (proj1 (model_stats_outcome plain_text (fun _ _ => os.ret tt)
                  "alice" "gr\" "stats.csv" conn0 world0)).
  reflexivity.
Defined.
